(** * hatty-ai-model: multi-LLM orchestrator and preview extraction pipeline

    A shallow embedding of
    - [MultiLLMOrchestrator.generate] (apps/api/src/orchestrator), and
    - [PreviewDeployment.processCode] with its helpers [extractFileName],
      [transformForBrowser], [createIndexHtml], [wrapInHtml] and
      [createPackageJson] (apps/api/src/deployment),
    - the handler of POST /api/generate (apps/api/src/index.ts), which
      chains the two, and the files [deploy] and [buildProject] leave in
      the deployment directory,
    together with the properties of the design document that concern them.

    Strings are sequences of 8-bit code units ([Stdlib.Strings.String]); the
    JavaScript regular expressions of the source are transliterated into a
    small abstract syntax and run by a backtracking matcher that follows the
    ECMAScript matching order (leftmost match, greedy and lazy repetition,
    alternation left to right). *)

From Stdlib Require Import Bool Arith Lia List String Ascii QArith Permutation.
From Stdlib Require Import DecimalString.
Import ListNotations.

Set Warnings "-register-all".

Local Open Scope list_scope.
Local Open Scope string_scope.
Local Open Scope nat_scope.

(* ================================================================== *)
(** ** JavaScript string primitives *)
(* ================================================================== *)

Module JsString.

(** The double quote and the line feed, kept as named constants. *)
Definition dq_char : ascii := ascii_of_nat 34.
Definition nl_char : ascii := ascii_of_nat 10.
Definition dq : string := String dq_char EmptyString.
Definition nl : string := String nl_char EmptyString.

(** [s.startsWith(p)] *)
Definition startsWith (s p : string) : bool := String.prefix p s.

(** [s.includes(sub)] *)
Fixpoint includes (s sub : string) : bool :=
  String.prefix sub s ||
  match s with
  | EmptyString => false
  | String _ s' => includes s' sub
  end.

Definition rev_string (s : string) : string :=
  string_of_list_ascii (rev (list_ascii_of_string s)).

(** [s.endsWith(suf)] *)
Definition endsWith (s suf : string) : bool :=
  String.prefix (rev_string suf) (rev_string s).

(** White space and line terminators in the 8-bit range: TAB, LF, VT, FF,
    CR, SP and NBSP. This is the class of [\s] and of [trim]. *)
Definition is_space (c : ascii) : bool :=
  let n := nat_of_ascii c in
  ((9 <=? n) && (n <=? 13)) || (n =? 32) || (n =? 160).

Fixpoint trimStart_l (l : list ascii) : list ascii :=
  match l with
  | c :: l' => if is_space c then trimStart_l l' else l
  | [] => []
  end.

(** [s.trim()] *)
Definition trim (s : string) : string :=
  string_of_list_ascii
    (rev (trimStart_l (rev (trimStart_l (list_ascii_of_string s))))).

(** [s.substring(0, n)] *)
Definition substring0 (s : string) (n : nat) : string :=
  String.substring 0 n s.

(** JavaScript truthiness of a string: the empty string is falsy. *)
Definition truthy (s : string) : bool :=
  match s with EmptyString => false | _ => true end.

End JsString.

(* ================================================================== *)
(** ** Regular expressions *)
(* ================================================================== *)

Module Regex.
Import JsString.

Inductive re : Type :=
| Eps : re
| Chr : (ascii -> bool) -> re          (* one code unit of a class *)
| Seq : re -> re -> re
| Alt : re -> re -> re                 (* [a|b], left first *)
| Star : bool -> re -> re              (* [true]: greedy [*]; [false]: lazy [*?] *)
| Group : nat -> re -> re              (* capturing group number n *)
| Look : re -> re                      (* positive lookahead [(?=r)] *)
| WordB : re.                          (* [\b] *)

(** Captures: group number to captured text (latest binding first). *)
Definition caps := list (nat * list ascii).

Fixpoint cap_get (n : nat) (c : caps) : list ascii :=
  match c with
  | [] => []
  | (k, v) :: c' => if k =? n then v else cap_get n c'
  end.

(** Matcher state: the code unit before the current position (for [\b])
    and the rest of the input. *)
Definition mres := (option ascii * list ascii * caps)%type.
Definition cont := option ascii -> list ascii -> caps -> option mres.

Definition is_word (c : ascii) : bool :=
  let n := nat_of_ascii c in
  ((48 <=? n) && (n <=? 57)) || ((65 <=? n) && (n <=? 90)) ||
  ((97 <=? n) && (n <=? 122)) || (n =? 95).

Definition is_word_opt (o : option ascii) : bool :=
  match o with Some c => is_word c | None => false end.

Definition orelse (a : option mres) (b : unit -> option mres) : option mres :=
  match a with Some x => Some x | None => b tt end.

(** The backtracking matcher, in continuation-passing style. An iteration
    of a repetition that consumes nothing is rejected, as RepeatMatcher
    does, so the repetition is bounded by the length of the input. *)
Fixpoint m (r : re) (prev : option ascii) (s : list ascii) (c : caps)
         (k : cont) {struct r} : option mres :=
  match r with
  | Eps => k prev s c
  | Chr p =>
      match s with
      | x :: s' => if p x then k (Some x) s' c else None
      | [] => None
      end
  | Seq a b => m a prev s c (fun prev' s' c' => m b prev' s' c' k)
  | Alt a b => orelse (m a prev s c k) (fun _ => m b prev s c k)
  | Star greedy a =>
      (fix loop (fuel : nat) (prev : option ascii) (s : list ascii)
           (c : caps) {struct fuel} : option mres :=
         let iter (_ : unit) :=
           match fuel with
           | O => None
           | S fuel' =>
               m a prev s c
                 (fun prev' s' c' =>
                    if List.length s' <? List.length s
                    then loop fuel' prev' s' c' else None)
           end in
         if greedy then orelse (iter tt) (fun _ => k prev s c)
         else orelse (k prev s c) iter)
        (List.length s) prev s c
  | Group n a =>
      m a prev s c
        (fun prev' s' c' =>
           k prev' s' ((n, firstn (List.length s - List.length s') s) :: c'))
  | Look a =>
      match m a prev s c (fun p' s' c' => Some (p', s', c')) with
      | Some (_, _, c') => k prev s c'
      | None => None
      end
  | WordB =>
      if xorb (is_word_opt prev) (is_word_opt (hd_error s))
      then k prev s c else None
  end.

(** One attempt at the current position: the matched text, the captures
    and the input after the match. *)
Definition match_here (r : re) (prev : option ascii) (s : list ascii)
  : option (list ascii * caps * list ascii) :=
  match m r prev s [] (fun p' s' c' => Some (p', s', c')) with
  | Some (_, s', c') => Some (firstn (List.length s - List.length s') s, c', s')
  | None => None
  end.

(** A match: index of its first code unit, matched text, captures. *)
Record rmatch : Type := mkMatch
  { m_index : nat; m_text : list ascii; m_caps : caps }.

(** Leftmost match at or after the current position ([RegExp.exec]);
    also returns the input after the match and the code unit before it. *)
Fixpoint exec_from (r : re) (idx : nat) (prev : option ascii)
         (s : list ascii) {struct s}
  : option (rmatch * option ascii * list ascii) :=
  match match_here r prev s with
  | Some (txt, c, s') =>
      Some (mkMatch idx txt c, (match rev txt with x :: _ => Some x | [] => prev end), s')
  | None =>
      match s with
      | [] => None
      | x :: s' => exec_from r (S idx) (Some x) s'
      end
  end.

(** [str.match(r)] for a regular expression without the [g] flag. *)
Definition exec (r : re) (s : string) : option rmatch :=
  match exec_from r 0 None (list_ascii_of_string s) with
  | Some (mt, _, _) => Some mt
  | None => None
  end.

Definition test (r : re) (s : string) : bool :=
  match exec r s with Some _ => true | None => false end.

(** All matches of a [g] regular expression, left to right, not
    overlapping; after an empty match the search resumes one code unit
    further ([AdvanceStringIndex]). *)
Fixpoint all_from (fuel : nat) (r : re) (idx : nat) (prev : option ascii)
         (s : list ascii) {struct fuel} : list rmatch :=
  match fuel with
  | O => []
  | S fuel' =>
      match exec_from r idx prev s with
      | None => []
      | Some (mt, prev', s') =>
          let after := m_index mt + List.length (m_text mt) in
          match m_text mt with
          | [] =>
              match s' with
              | [] => [mt]
              | x :: s'' => mt :: all_from fuel' r (S after) (Some x) s''
              end
          | _ :: _ => mt :: all_from fuel' r after prev' s'
          end
      end
  end.

(** [[...str.matchAll(r)]] *)
Definition matchAll (r : re) (s : string) : list rmatch :=
  let l := list_ascii_of_string s in
  all_from (S (List.length l)) r 0 None l.

(** Replacement templates: literal text and [$n] references. *)
Inductive tpl_item : Type :=
| TLit : string -> tpl_item
| TRef : nat -> tpl_item.

Definition tpl := list tpl_item.

Definition expand_item (c : caps) (t : tpl_item) : list ascii :=
  match t with
  | TLit s => list_ascii_of_string s
  | TRef n => cap_get n c
  end.

Definition expand (t : tpl) (c : caps) : list ascii :=
  List.concat (map (expand_item c) t).

(** Rebuilds the string from the matches: the text between two matches is
    kept, each match is replaced by the expanded template. *)
Fixpoint splice (t : tpl) (pos : nat) (s : list ascii) (ms : list rmatch)
  : list ascii :=
  match ms with
  | [] => s
  | mt :: ms' =>
      let gap := m_index mt - pos in
      let len := List.length (m_text mt) in
      (firstn gap s ++ expand t (m_caps mt) ++
       splice t (m_index mt + len) (skipn (gap + len) s) ms')%list
  end.

(** [str.replace(r, t)] for a regular expression with the [g] flag. *)
Definition replaceAll (r : re) (t : tpl) (s : string) : string :=
  let l := list_ascii_of_string s in
  string_of_list_ascii (splice t 0 l (all_from (S (List.length l)) r 0 None l)).

(** *** Pattern combinators *)

Definition chr (c : ascii) : re := Chr (Ascii.eqb c).

Definition lower (c : ascii) : ascii :=
  let n := nat_of_ascii c in
  if (65 <=? n) && (n <=? 90) then ascii_of_nat (n + 32) else c.

(** A literal code unit under the [i] flag. *)
Definition chr_i (c : ascii) : re := Chr (fun x => Ascii.eqb (lower x) (lower c)).

Fixpoint lit (s : string) : re :=
  match s with
  | EmptyString => Eps
  | String c EmptyString => chr c
  | String c s' => Seq (chr c) (lit s')
  end.

Fixpoint lit_i (s : string) : re :=
  match s with
  | EmptyString => Eps
  | String c EmptyString => chr_i c
  | String c s' => Seq (chr_i c) (lit_i s')
  end.

Fixpoint seq (l : list re) : re :=
  match l with
  | [] => Eps
  | [r] => r
  | r :: l' => Seq r (seq l')
  end.

Definition star (r : re) : re := Star true r.
Definition lazy_star (r : re) : re := Star false r.
Definition plus (r : re) : re := Seq r (Star true r).
Definition opt (r : re) : re := Alt r Eps.

Definition one_of (s : string) : re :=
  Chr (fun x => existsb (Ascii.eqb x) (list_ascii_of_string s)).
Definition none_of (s : string) : re :=
  Chr (fun x => negb (existsb (Ascii.eqb x) (list_ascii_of_string s))).

Definition is_upper (c : ascii) : bool :=
  let n := nat_of_ascii c in (65 <=? n) && (n <=? 90).
Definition is_alpha (c : ascii) : bool :=
  let n := nat_of_ascii c in
  ((65 <=? n) && (n <=? 90)) || ((97 <=? n) && (n <=? 122)).
Definition is_digit (c : ascii) : bool :=
  let n := nat_of_ascii c in (48 <=? n) && (n <=? 57).
Definition is_line_terminator (c : ascii) : bool :=
  let n := nat_of_ascii c in (n =? 10) || (n =? 13).

Definition space : re := Chr is_space.                       (* \s *)
Definition word : re := Chr is_word.                         (* \w *)
Definition any : re := Chr (fun _ => true).                  (* [\s\S] *)
Definition dot : re := Chr (fun x => negb (is_line_terminator x)).  (* . *)
(** [quote] is the class of the two quote characters, [not_quote] its
    complement. *)
Definition quote : re := Chr (fun x => Ascii.eqb x "'" || Ascii.eqb x dq_char).
Definition not_quote : re :=
  Chr (fun x => negb (Ascii.eqb x "'" || Ascii.eqb x dq_char)).

End Regex.

(* ================================================================== *)
(** ** JSON values *)
(* ================================================================== *)

Module Json.

(** The values [JSON.parse] can return. Numbers are rationals; objects
    keep their keys in order. *)
Inductive json : Type :=
| JNull : json
| JBool : bool -> json
| JNum : Q -> json
| JStr : string -> json
| JArr : list json -> json
| JObj : list (string * json) -> json.

End Json.

(* ================================================================== *)
(** ** PreviewDeployment *)
(* ================================================================== *)

Module Files.

(** [Record<string, string>]: a JavaScript object used as a map from file
    path to content. Keys are kept in insertion order, as [Object.keys]
    lists them; writing to an existing key keeps its place. *)
Definition t := list (string * string).

Definition empty : t := [].

Fixpoint get (f : t) (k : string) : option string :=
  match f with
  | [] => None
  | (k', v) :: f' => if String.eqb k' k then Some v else get f' k
  end.

Fixpoint set (f : t) (k v : string) : t :=
  match f with
  | [] => [(k, v)]
  | (k', v') :: f' =>
      if String.eqb k' k then (k', v) :: f' else (k', v') :: set f' k v
  end.

Definition keys (f : t) : list string := map fst f.

(** [!!files[k]]: a missing key and an empty content are both falsy. *)
Definition truthy_at (f : t) (k : string) : bool :=
  match get f k with Some v => JsString.truthy v | None => false end.

(** [files[k] += x]; on a missing key JavaScript concatenates to the
    text of [undefined]. *)
Definition append_at (f : t) (k x : string) : t :=
  set f k (match get f k with Some v => v ++ x | None => "undefined" ++ x end).

End Files.

Module PreviewDeployment.
Import JsString Regex.

(** *** The regular expressions of the source *)

Definition semi_opt : re := seq [star space; opt (chr ";")].

(* /```(?:[\w]+)?\n([\s\S]*?)```/g *)
Definition codeBlockRegex : re :=
  seq [lit "```"; opt (plus word); chr nl_char; Group 1 (lazy_star any); lit "```"].

(* /function\s+(TodoApp|App)\s*\(/ *)
Definition mainComponentRegex : re :=
  seq [lit "function"; plus space; Group 1 (Alt (lit "TodoApp") (lit "App"));
       star space; chr "("].

(* the three file name patterns of extractFileName *)
Definition fileNameTail (excluded : string) : re :=
  Group 1 (seq [plus (none_of excluded); chr "."; plus (Chr is_alpha)]).

Definition patterns : list re :=
  [ seq [lit "//"; star space; fileNameTail (String "/" nl)];
    seq [lit "/*"; star space; fileNameTail (String "/" nl)];
    seq [lit "<!--"; star space; fileNameTail (String "-" nl)] ].

Definition braces : re := seq [chr "{"; star (none_of "}"); chr "}"].

(* the import-removing expressions, all with flags gi *)
Definition import_react : re :=
  seq [lit_i "import"; plus space; lit_i "React";
       star (Chr (fun x => Ascii.eqb x "," || is_space x));
       opt braces; plus space; lit_i "from"; plus space;
       quote; lit_i "react"; quote; semi_opt].

Definition import_reactdom : re :=
  seq [lit_i "import"; plus space; lit_i "ReactDOM"; plus space;
       lit_i "from"; plus space; quote; lit_i "react-dom"; quote; semi_opt].

Definition import_named_react : re :=
  seq [lit_i "import"; plus space; braces; plus space; lit_i "from";
       plus space; quote; lit_i "react"; quote; semi_opt].

Definition import_reactdom_client : re :=
  seq [lit_i "import"; plus space; star dot; plus space; lit_i "from";
       plus space; quote; lit_i "react-dom/client"; quote; semi_opt].

Definition import_css_relative : re :=
  seq [lit_i "import"; plus space; quote; lit "./"; star not_quote;
       lit_i ".css"; quote; semi_opt].

Definition import_css : re :=
  seq [lit_i "import"; plus space; quote; star not_quote;
       lit_i ".css"; quote; semi_opt].

Definition import_types : re :=
  seq [lit_i "import"; plus space; opt (seq [lit_i "type"; plus space]);
       braces; plus space; lit_i "from"; plus space;
       quote; star not_quote; lit_i "types"; star not_quote; quote; semi_opt].

Definition import_type_only : re :=
  seq [lit_i "import"; plus space; lit_i "type"; plus space;
       braces; plus space; lit_i "from"; plus space;
       quote; star not_quote; quote; semi_opt].

Definition import_relative : re :=
  seq [lit_i "import"; plus space; star dot; plus space; lit_i "from";
       plus space; quote; chr "."; opt (chr "."); chr "/"; star not_quote;
       quote; semi_opt].

(* the render-removing expressions, flag g *)
Definition call_args : re := seq [chr "("; star (none_of ")"); chr ")"; opt (chr ";")].

Definition reactdom_render : re :=
  seq [lit "ReactDOM.render"; star space; call_args].

Definition const_root : re :=
  seq [lit "const"; plus space; lit "root"; star space; chr "="; star space;
       lit "ReactDOM.createRoot"; star (none_of ";"); opt (chr ";")].

Definition root_render : re := seq [lit "root.render"; star space; call_args].

Definition get_root : re :=
  seq [lit "document.getElementById"; star space; chr "("; star space;
       quote; lit "root"; quote; star space; chr ")"].

(* /\bNAME\b/g *)
Definition bare (name : string) : re := seq [WordB; lit name; WordB].

(* the type-erasing expressions *)
Definition generic_args : re :=
  seq [chr "<"; Chr is_upper; star (none_of ">"); chr ">"].

Definition type_annotation : re :=
  seq [chr ":"; star space; Chr is_upper;
       plus (Chr (fun x => is_alpha x || is_digit x ||
                           Ascii.eqb x "[" || Ascii.eqb x "]"));
       Look (seq [star space; one_of "=,){"])].

Definition react_fc : re := seq [chr ":"; star space; lit "React.FC"; star space].

Definition interface_decl : re :=
  seq [lit "interface"; plus space; plus word; star space; braces].

Definition type_decl : re :=
  seq [lit "type"; plus space; plus word; star space; chr "="; star space; braces].

(* /\n{3,}/g *)
Definition blank_lines : re :=
  seq [chr nl_char; chr nl_char; chr nl_char; star (chr nl_char)].

(* /export\s+default\s+(\w+)\s*;?/g *)
Definition export_default : re :=
  seq [lit "export"; plus space; lit "default"; plus space;
       Group 1 (plus word); semi_opt].

(* /export\s+default\s+function\s+(\w+)/g *)
Definition export_default_function : re :=
  seq [lit "export"; plus space; lit "default"; plus space; lit "function";
       plus space; Group 1 (plus word)].

(* /function\s+(\w+)\s*\(/ *)
Definition function_decl : re :=
  seq [lit "function"; plus space; Group 1 (plus word); star space; chr "("].

Definition capture1 (mt : rmatch) : string :=
  string_of_list_ascii (cap_get 1 (m_caps mt)).

(** *** extractFileName *)

Fixpoint first_pattern (ps : list re) (comment : string) : option string :=
  match ps with
  | [] => None
  | p :: ps' =>
      match exec p comment with
      | Some mt => Some (trim (capture1 mt))
      | None => first_pattern ps' comment
      end
  end.

Definition extractFileName (comment code : string) : string :=
  match first_pattern patterns comment with
  | Some name => name
  | None =>
      if includes code "<!DOCTYPE html>" then "index.html"
      else if includes code "import React" then "App.tsx"
      else if includes code "export default function" then "App.tsx"
      else if includes code "@import" || includes code "body {" then "styles.css"
      else EmptyString
  end.

(** *** transformForBrowser *)

Definition placeholder : string :=
  "function App() {" ++ nl ++
  "  return React.createElement('div', { className: 'p-8' }," ++ nl ++
  "    React.createElement('h1', { className: 'text-2xl font-bold mb-4' }, 'Todo App')," ++ nl ++
  "    React.createElement('p', null, 'Component could not be loaded. Please try generating again.')" ++ nl ++
  "  );" ++ nl ++
  "}" ++ nl ++
  "window.App = App;".

Definition remove (r : re) (s : string) : string := replaceAll r [] s.

Definition strip_imports (code : string) : string :=
  remove import_relative
    (remove import_type_only
       (remove import_types
          (remove import_css
             (remove import_css_relative
                (remove import_reactdom_client
                   (remove import_named_react
                      (remove import_reactdom
                         (remove import_react code)))))))).

Definition strip_render (s : string) : string :=
  if includes s "ReactDOM.render" || includes s "createRoot" then
    remove get_root (remove root_render (remove const_root (remove reactdom_render s)))
  else s.

Definition qualify (name : string) (s : string) : string :=
  replaceAll (bare name) [TLit ("React." ++ name)] s.

Definition qualify_hooks (s : string) : string :=
  qualify "useReducer"
    (qualify "useContext"
       (qualify "useMemo"
          (qualify "useCallback"
             (qualify "useRef"
                (qualify "useEffect"
                   (qualify "useState" s)))))).

Definition strip_types (s : string) : string :=
  remove type_decl
    (remove interface_decl
       (replaceAll react_fc [TLit " "]
          (remove type_annotation
             (remove generic_args s)))).

Definition cleanup (s : string) : string :=
  trim (replaceAll blank_lines [TLit (nl ++ nl)] s).

(** Binds the first declared function to [window.App] unless the text
    already mentions [window.App]. *)
Definition bind_first_function (s : string) : string :=
  match exec function_decl s with
  | Some mt =>
      if negb (includes s "window.App")
      then s ++ nl ++ "window.App = " ++ capture1 mt ++ ";"
      else s
  | None => s
  end.

Definition expose (transformed : string) : string :=
  if includes transformed "export default" then
    let t1 := replaceAll export_default [TLit "window.App = "; TRef 1; TLit ";"] transformed in
    let t2 := replaceAll export_default_function [TLit "function "; TRef 1] t1 in
    if test function_decl t2 then bind_first_function t2 else t2
  else bind_first_function transformed.

Definition transformForBrowser (code : string) : string :=
  let transformed := cleanup (strip_types (qualify_hooks (strip_render (strip_imports code)))) in
  if (String.length transformed <? 20) ||
     (negb (includes transformed "function") && negb (includes transformed "=>"))
  then placeholder
  else expose transformed.

(** *** createIndexHtml and wrapInHtml *)

Definition createIndexHtml (title : string) : string :=
  "<!DOCTYPE html>" ++ nl ++
  "<html lang=" ++ dq ++ "en" ++ dq ++ ">" ++ nl ++
  "<head>" ++ nl ++
  "    <meta charset=" ++ dq ++ "UTF-8" ++ dq ++ ">" ++ nl ++
  "    <meta name=" ++ dq ++ "viewport" ++ dq ++ " content=" ++ dq ++ "width=device-width, initial-scale=1.0" ++ dq ++ ">" ++ nl ++
  "    <title>" ++ title ++ "</title>" ++ nl ++
  "    <script src=" ++ dq ++ "https://unpkg.com/react@18/umd/react.development.js" ++ dq ++ "></script>" ++ nl ++
  "    <script src=" ++ dq ++ "https://unpkg.com/react-dom@18/umd/react-dom.development.js" ++ dq ++ "></script>" ++ nl ++
  "    <script src=" ++ dq ++ "https://unpkg.com/@babel/standalone/babel.min.js" ++ dq ++ "></script>" ++ nl ++
  "    <script src=" ++ dq ++ "https://cdn.tailwindcss.com" ++ dq ++ "></script>" ++ nl ++
  "    <link rel=" ++ dq ++ "stylesheet" ++ dq ++ " href=" ++ dq ++ "./styles.css" ++ dq ++ ">" ++ nl ++
  "</head>" ++ nl ++
  "<body>" ++ nl ++
  "    <div id=" ++ dq ++ "root" ++ dq ++ "></div>" ++ nl ++
  "    <script type=" ++ dq ++ "text/babel" ++ dq ++ " src=" ++ dq ++ "./App.tsx" ++ dq ++ " data-type=" ++ dq ++ "module" ++ dq ++ "></script>" ++ nl ++
  "    <script type=" ++ dq ++ "text/babel" ++ dq ++ ">" ++ nl ++
  "      // Wait for App component to be loaded, then render it" ++ nl ++
  "      const renderApp = () => {" ++ nl ++
  "        // Get the default export from the loaded App module" ++ nl ++
  "        const App = window.App || (() => React.createElement('div', null, 'Loading...'));" ++ nl ++
  "        const root = ReactDOM.createRoot(document.getElementById('root'));" ++ nl ++
  "        root.render(React.createElement(App));" ++ nl ++
  "      };" ++ nl ++
  nl ++
  "      // Give the App.tsx time to load and execute" ++ nl ++
  "      setTimeout(renderApp, 100);" ++ nl ++
  "    </script>" ++ nl ++
  "</body>" ++ nl ++
  "</html>".

Definition wrap_head : string :=
  "<!DOCTYPE html>" ++ nl ++
  "<html lang=" ++ dq ++ "en" ++ dq ++ ">" ++ nl ++
  "<head>" ++ nl ++
  "    <meta charset=" ++ dq ++ "UTF-8" ++ dq ++ ">" ++ nl ++
  "    <meta name=" ++ dq ++ "viewport" ++ dq ++ " content=" ++ dq ++ "width=device-width, initial-scale=1.0" ++ dq ++ ">" ++ nl ++
  "    <title>Generated App</title>" ++ nl ++
  "    <script src=" ++ dq ++ "https://cdn.tailwindcss.com" ++ dq ++ "></script>" ++ nl ++
  "    <style>" ++ nl ++
  "        body { margin: 0; padding: 20px; font-family: system-ui, -apple-system, sans-serif; }" ++ nl ++
  "    </style>" ++ nl ++
  "</head>" ++ nl ++
  "<body>" ++ nl ++
  "    ".

Definition wrap_tail : string :=
  nl ++
  "</body>" ++ nl ++
  "</html>".

Definition wrapInHtml (content : string) : string :=
  if includes content "<html" then content
  else wrap_head ++ content ++ wrap_tail.

(** *** processCode *)

Definition nat_to_string (n : nat) : string :=
  NilEmpty.string_of_uint (Nat.to_uint n).

Definition is_module_name (fileName : string) : bool :=
  endsWith fileName ".tsx" || endsWith fileName ".jsx".

Definition is_index_file (codeContent : string) : bool :=
  includes codeContent "ReactDOM.render" || includes codeContent "createRoot".

(** The content-signature rules applied when no file name was found. *)
Definition infer_by_content (index : nat) (codeContent : string) : option string :=
  if startsWith codeContent "{" &&
     includes codeContent (dq ++ "name" ++ dq) &&
     includes codeContent (dq ++ "version" ++ dq)
  then Some "package.json"
  else if includes codeContent "<!DOCTYPE html>" || includes codeContent "<html"
  then Some "index.html"
  else if includes codeContent "import React" || includes codeContent "from 'react'"
  then
    if includes codeContent "ReactDOM.render" || includes codeContent "createRoot"
    then Some "src/index.tsx"
    else Some (if index =? 0 then "src/App.tsx"
               else "src/Component" ++ nat_to_string index ++ ".tsx")
  else if includes codeContent "{" &&
          (includes codeContent ":" && includes codeContent ";") &&
          negb (includes codeContent "function")
  then Some "styles.css"
  else if includes codeContent "export" || includes codeContent "function" ||
          includes codeContent "const"
  then Some ("src/code" ++ nat_to_string index ++ ".tsx")
  else None.

Definition resolve_name (beforeBlock codeContent : string) (index : nat)
  : option string :=
  let fileName := extractFileName beforeBlock codeContent in
  if truthy fileName then Some fileName
  else infer_by_content index codeContent.

(** What the loop body does with one block. *)
Inductive action : Type :=
| Skip : action                       (* [return] without writing *)
| Merge : string -> action            (* append the transformed text to App.tsx *)
| Save : string -> string -> action.  (* files[fileName] = codeContent *)

Definition blockContent (mt : rmatch) : string := trim (capture1 mt).

Definition classify (code : string) (index : nat) (mt : rmatch) : action :=
  let codeContent := blockContent mt in
  let beforeBlock := substring0 code (m_index mt) in
  if negb (truthy codeContent) then Skip
  else
    match resolve_name beforeBlock codeContent index with
    | None => Skip
    | Some fileName =>
        if is_module_name fileName then
          if is_index_file codeContent then Skip
          else Merge (transformForBrowser codeContent)
        else Save fileName codeContent
    end.

Definition apply_action (files : Files.t) (a : action) : Files.t :=
  match a with
  | Skip => files
  | Merge transformedContent =>
      let files1 :=
        if negb (Files.truthy_at files "App.tsx")
        then Files.set files "App.tsx" EmptyString else files in
      Files.append_at files1 "App.tsx" (transformedContent ++ nl ++ nl)
  | Save fileName codeContent => Files.set files fileName codeContent
  end.

(** [matches.forEach((match, index) => ...)] *)
Fixpoint forEach (code : string) (index : nat) (ms : list rmatch)
         (files : Files.t) : Files.t :=
  match ms with
  | [] => files
  | mt :: ms' =>
      forEach code (S index) ms' (apply_action files (classify code index mt))
  end.

(** Exposes the main component of the combined App.tsx on [window]. *)
Definition expose_main (files : Files.t) : Files.t :=
  match Files.get files "App.tsx" with
  | Some app =>
      if truthy app then
        match exec mainComponentRegex app with
        | Some mt =>
            if negb (includes app "window.App")
            then Files.append_at files "App.tsx"
                   (nl ++ "window.App = " ++ capture1 mt ++ ";" ++ nl)
            else files
        | None => files
        end
      else files
  | None => files
  end.

Definition or_empty (o : option string) : string :=
  match o with
  | Some v => if truthy v then v else EmptyString
  | None => EmptyString
  end.

(** Creates or replaces index.html when module files are present. *)
Definition ensure_html (files : Files.t) : Files.t :=
  let hasReactFiles := existsb is_module_name (Files.keys files) in
  let hasHtmlFile := existsb (fun f => endsWith f ".html") (Files.keys files) in
  if hasReactFiles then
    let currentHtml := or_empty (Files.get files "index.html") in
    let hasReactScripts := includes currentHtml "react" && includes currentHtml "babel" in
    if negb hasHtmlFile || negb hasReactScripts
    then Files.set files "index.html" (createIndexHtml "Generated App")
    else files
  else files.

Definition no_blocks_notice : string :=
  "<!-- No valid code blocks found in the response -->".

Definition processCode (code : string) : Files.t :=
  if includes code "```" then
    match matchAll codeBlockRegex code with
    | [] => Files.set Files.empty "index.html" (wrapInHtml no_blocks_notice)
    | ms => ensure_html (expose_main (forEach code 0 ms Files.empty))
    end
  else
    let trimmedCode := trim code in
    if includes trimmedCode "import React" ||
       includes trimmedCode "export default function"
    then Files.set (Files.set Files.empty "src/App.tsx" trimmedCode)
           "index.html" (createIndexHtml "React App")
    else if includes trimmedCode "<!DOCTYPE html>" || includes trimmedCode "<html"
    then Files.set Files.empty "index.html" trimmedCode
    else Files.set Files.empty "index.html" (wrapInHtml trimmedCode).

(** *** The blocks of a text, as processCode sees them *)

(** The fenced blocks processCode iterates over: none unless the text
    contains the fence marker. *)
Definition detected_blocks (code : string) : list rmatch :=
  if includes code "```" then matchAll codeBlockRegex code else [].

Fixpoint classify_all (code : string) (index : nat) (ms : list rmatch)
  : list action :=
  match ms with
  | [] => []
  | mt :: ms' => classify code index mt :: classify_all code (S index) ms'
  end.

Definition actions (code : string) : list action :=
  classify_all code 0 (detected_blocks code).

Definition merged_of (a : action) : list string :=
  match a with
  | Merge transformedContent => [transformedContent]
  | _ => []
  end.

(** The transformed contents of the application-module blocks of a text,
    in detection order. *)
Definition module_texts (code : string) : list string :=
  flat_map merged_of (actions code).

(** Their concatenation, each followed by an empty line. *)
Fixpoint join_modules (ts : list string) : string :=
  match ts with
  | [] => EmptyString
  | t :: ts' => (t ++ nl ++ nl) ++ join_modules ts'
  end.

(** A block is saved under its own name only when that name is not a
    module name. *)
Definition action_ok (a : action) : Prop :=
  match a with
  | Save fileName _ => is_module_name fileName = false
  | _ => True
  end.

(** The state of the file map while the blocks are processed: its keys are
    distinct, its only module key is App.tsx, and App.tsx holds the texts
    merged so far. *)
Record inv (files : Files.t) (ts : list string) : Prop := mkInv
  { inv_nodup : NoDup (Files.keys files);
    inv_modules : forall k, In k (Files.keys files) ->
                            is_module_name k = true -> k = "App.tsx";
    inv_app : Files.get files "App.tsx"
              = match ts with [] => None | _ => Some (join_modules ts) end }.

(** *** createPackageJson and the manifest step of deploy *)

(** [toLowerCase] on 8-bit code units: A-Z and the Latin-1 capitals. *)
Definition lower_latin1 (c : ascii) : ascii :=
  let n := nat_of_ascii c in
  if ((65 <=? n) && (n <=? 90)) ||
     ((192 <=? n) && (n <=? 222) && negb (n =? 215))
  then ascii_of_nat (n + 32) else c.

Definition toLowerCase (s : string) : string :=
  string_of_list_ascii (map lower_latin1 (list_ascii_of_string s)).

Import Json.

Definition strings (l : list string) : json := JArr (map JStr l).

(** The path, relative to the deployment directory, and the object that
    createPackageJson serializes into it. *)
Definition createPackageJson (name : string) : string * json :=
  ("package.json",
   JObj [ ("name", JStr (toLowerCase name));
          ("version", JStr "1.0.0");
          ("private", JBool true);
          ("scripts", JObj [ ("start", JStr "serve -s build");
                             ("build", JStr "react-scripts build");
                             ("dev", JStr "react-scripts start") ]);
          ("dependencies", JObj [ ("react", JStr "^18.2.0");
                                  ("react-dom", JStr "^18.2.0");
                                  ("react-scripts", JStr "5.0.1") ]);
          ("browserslist",
           JObj [ ("production", strings [">0.2%"; "not dead"; "not op_mini all"]);
                  ("development", strings ["last 1 chrome version";
                                           "last 1 firefox version";
                                           "last 1 safari version"]) ]) ]).

(** The manifest step of [deploy]: package.json is synthesized when
    processCode produced none. *)
Definition synthesized_manifest (code deploymentId : string)
  : option (string * json) :=
  let subdomain := "app-" ++ deploymentId in
  if negb (Files.truthy_at (processCode code) "package.json")
  then Some (createPackageJson subdomain)
  else None.

End PreviewDeployment.

(* ================================================================== *)
(** ** MultiLLMOrchestrator *)
(* ================================================================== *)

(** One run of [generate] is a function of the orchestrator object and of
    what the remote services do in that run (the [world]): the replies of
    the evaluator to the analysis and to the evaluation, the outcome of
    each adapter's request, and the order in which the concurrent calls
    settle. The run yields the list of remote calls it made and either a
    result or the exception it is rejected with.

    The texts of the prompts are not part of the model; the conversions
    to text that building them performs are, where they can throw. *)

Module Orchestrator.
Import JsString Json.

(** *** Exceptions and results *)

Inductive exn : Type :=
| TypeError : exn
| SyntaxError : exn
| Error : string -> exn.          (* [new Error(message)] *)

Inductive js_result (A : Type) : Type :=
| Ok : A -> js_result A
| Throw : exn -> js_result A.

Arguments Ok {A} _.
Arguments Throw {A} _.

Definition bind {A B : Type} (x : js_result A) (f : A -> js_result B)
  : js_result B :=
  match x with Ok a => f a | Throw e => Throw e end.

Notation "x <- a ;; b" := (bind a (fun x => b))
  (at level 61, a at next level, right associativity).

(** *** JavaScript operations on decoded JSON *)

(** A value or [undefined]. *)
Definition jsval := option json.

Definition truthy_json (j : json) : bool :=
  match j with
  | JNull => false
  | JBool b => b
  | JNum q => negb (Qeq_bool q 0)
  | JStr s => truthy s
  | JArr _ | JObj _ => true
  end.

Definition truthy_val (v : jsval) : bool :=
  match v with Some j => truthy_json j | None => false end.

Fixpoint lookup (kv : list (string * json)) (k : string) : jsval :=
  match kv with
  | [] => None
  | (k', v) :: kv' => if String.eqb k' k then Some v else lookup kv' k
  end.

(** [j.name] for a property name that no prototype defines: reading a
    property of [null] throws, an object yields its own property, every
    other value yields [undefined]. *)
Definition getprop (j : json) (name : string) : js_result jsval :=
  match j with
  | JNull => Throw TypeError
  | JObj kv => Ok (lookup kv name)
  | _ => Ok None
  end.

(** [v[0]] *)
Definition index0 (v : jsval) : js_result jsval :=
  match v with
  | None | Some JNull => Throw TypeError
  | Some (JArr l) => Ok (hd_error l)
  | Some (JStr (String c _)) => Ok (Some (JStr (String c EmptyString)))
  | Some (JObj kv) => Ok (lookup kv "0")
  | Some _ => Ok None
  end.

(** [v?.name] *)
Definition optprop (v : jsval) (name : string) : jsval :=
  match v with
  | None | Some JNull => None
  | Some (JObj kv) => lookup kv name
  | Some _ => None
  end.

(** [a || b] with [b] evaluated only when [a] is falsy. *)
Definition or_else (a : jsval) (b : unit -> js_result jsval) : js_result jsval :=
  if truthy_val a then Ok a else b tt.

Definition or_default (a : jsval) (d : json) : json :=
  match a with
  | Some j => if truthy_json j then j else d
  | None => d
  end.

Definition has_key (k : string) (kv : list (string * json)) : bool :=
  existsb (fun p => String.eqb (fst p) k) kv.

(** Whether the conversion to a string throws: an object whose own
    [toString] property (never callable in decoded JSON) hides the
    inherited method cannot be converted; an array converts its elements. *)
Fixpoint to_string_throws (j : json) : bool :=
  match j with
  | JArr l =>
      (fix any (l : list json) : bool :=
         match l with
         | [] => false
         | x :: l' => to_string_throws x || any l'
         end) l
  | JObj kv => has_key "toString" kv
  | _ => false
  end.

Definition to_string_val_throws (v : jsval) : bool :=
  match v with Some j => to_string_throws j | None => false end.

(** Whether [v.join(', ')] throws: only arrays have a [join] method. *)
Definition join_throws (v : json) : bool :=
  match v with
  | JArr l => existsb to_string_throws l
  | _ => true
  end.

(** *** Adapters *)

Inductive adapter : Type :=
| openai | claude | grok | llama | deepseek | gemini | mistral.

Definition adapter_eqb (a b : adapter) : bool :=
  match a, b with
  | openai, openai | claude, claude | grok, grok | llama, llama
  | deepseek, deepseek | gemini, gemini | mistral, mistral => true
  | _, _ => false
  end.

(** In the order in which [generate] launches them. *)
Definition all_adapters : list adapter :=
  [openai; claude; grok; llama; deepseek; gemini; mistral].

(** The entry of [availableModels] and the environment variable. *)
Definition key (a : adapter) : string :=
  match a with
  | openai => "openai" | claude => "claude" | grok => "grok"
  | llama => "llama" | deepseek => "deepseek" | gemini => "gemini"
  | mistral => "mistral"
  end.

Definition env_var (a : adapter) : string :=
  match a with
  | openai => "OPENAI_API_KEY" | claude => "ANTHROPIC_API_KEY"
  | grok => "XAI_API_KEY" | llama => "GROQ_API_KEY"
  | deepseek => "DEEPSEEK_API_KEY" | gemini => "GOOGLE_API_KEY"
  | mistral => "MISTRAL_API_KEY"
  end.

(** The [model] field of a submission. *)
Definition model_name (a : adapter) : string :=
  match a with
  | openai => "OpenAI GPT-4o" | claude => "Claude 3.5 Sonnet"
  | grok => "Grok" | llama => "Llama-3.1-405B"
  | deepseek => "DeepSeek-Coder-V3" | gemini => "Gemini-1.5-Pro"
  | mistral => "Mistral-Large-2"
  end.

Definition reasoning_of (a : adapter) : string :=
  match a with
  | openai => "Optimized for speed and reliability"
  | claude => "Excellent UI/UX design and code structure"
  | grok => "Creative problem-solving and reasoning"
  | llama => "Superior coding logic and architecture"
  | deepseek => "Specialized in clean, efficient code generation"
  | gemini => "Strong at complex UI logic and interactions"
  | mistral => "Balanced performance across all tasks"
  end.

(** The fields of the class: the clients that exist, each with the API key
    it was built with, and [availableModels]. *)
Record orchestrator : Type := mkOrchestrator
  { client : adapter -> option string;
    availableModels : list string }.

Definition key_usable (v : option string) : bool :=
  match v with
  | Some k => truthy k && negb (includes k "your")
  | None => false
  end.

(** The constructor of the class: an adapter is initialised when its key
    is set and does not contain the text of the template; OpenAI is
    required, as the evaluator uses it. *)
Definition construct (env : string -> option string) : js_result orchestrator :=
  let usable a := key_usable (env (env_var a)) in
  if negb (usable openai)
  then Throw (Error "OpenAI API key is required for the evaluator. Please set OPENAI_API_KEY in .env")
  else Ok {| client := fun a => if usable a then env (env_var a) else None;
             availableModels := map key (filter usable all_adapters) |}.

Definition is_some {A : Type} (x : option A) : bool :=
  match x with Some _ => true | None => false end.

Definition enabled (o : orchestrator) (a : adapter) : bool :=
  is_some (client o a) && existsb (String.eqb (key a)) (availableModels o).

(** The adapters for which [generate] pushes a promise, in that order. *)
Definition launched (o : orchestrator) : list adapter :=
  filter (enabled o) all_adapters.

(** *** The environment of one run *)

(** What a call of the evaluator followed by [JSON.parse] comes to. *)
Inductive reply : Type :=
| InvokeFails : reply                 (* [invoke] rejects *)
| NotJson : string -> reply           (* [JSON.parse] throws on the content *)
| Parsed : json -> reply.             (* the decoded content *)

(** What the remote service of an adapter does with one request. *)
Inductive remote_outcome : Type :=
| Replied : string -> remote_outcome     (* a success response with this content *)
| Malformed : remote_outcome             (* a success response without a message *)
| NonSuccess : nat -> remote_outcome     (* a response with an error status *)
| TimedOut : remote_outcome
| TransportError : remote_outcome.

(** The behaviour of the remote services in one run: the replies of the
    evaluator, the outcome and the duration of each adapter's request, and
    the order in which the concurrent calls settle. *)
Record world : Type := mkWorld
  { analysis_reply : reply;
    evaluation_reply : reply;
    remote : adapter -> remote_outcome;
    elapsed : adapter -> nat;
    arrival : list adapter }.

(** *** The clients *)

(** GrokChat, LlamaGroqChat and DeepSeekChat are classes of the repository,
    built on an HTTP client. *)
Definition axios_based (a : adapter) : bool :=
  match a with
  | grok | llama | deepseek => true
  | _ => false
  end.

Definition unconfigured_notice (a : adapter) : string :=
  match a with
  | grok => "// Grok API key not configured"
  | llama => "// Groq API key not configured"
  | deepseek => "// DeepSeek API key not configured"
  | _ => EmptyString
  end.

Definition failure_message (a : adapter) : string :=
  match a with
  | grok => "Grok generation failed"
  | llama => "Llama generation failed"
  | deepseek => "DeepSeek generation failed"
  | _ => "request failed"
  end.

(** [invoke] of the three classes: without a key a notice is returned and
    no request is made; otherwise the content of a success response is
    returned and every failure of the request is thrown again as one error. *)
Definition chat_invoke (a : adapter) (apiKey : string) (r : remote_outcome)
  : js_result string :=
  if negb (truthy apiKey) then Ok (unconfigured_notice a)
  else match r with
       | Replied content => Ok content
       | _ => Throw (Error (failure_message a))
       end.

(** The other four clients come from a library: their [invoke] is taken to
    return the content of a success response and to reject otherwise. *)
Definition library_invoke (a : adapter) (r : remote_outcome) : js_result string :=
  match r with
  | Replied content => Ok content
  | _ => Throw (Error (failure_message a))
  end.

(** [this.client!.invoke(...)] *)
Definition invoke (o : orchestrator) (a : adapter) (r : remote_outcome)
  : js_result string :=
  match client o a with
  | None => Throw TypeError
  | Some apiKey =>
      if axios_based a then chat_invoke a apiKey r else library_invoke a r
  end.

(** The outcome of the generation call of an adapter in a run. *)
Definition generation (o : orchestrator) (w : world) (a : adapter)
  : js_result string :=
  invoke o a (remote w a).

Record submission : Type := mkSubmission
  { model : string;
    code : string;
    reasoning : string;
    executionTime : nat }.

Record details : Type := mkDetails
  { submissions : list submission;
    totalModels : nat;
    framework : json;
    requirements : json }.

Record result : Type := mkResult
  { r_code : string;
    r_model : string;
    r_score : Q;
    r_models : list string;
    executionDetails : details }.

(** The remote calls a run makes, with their outcomes. *)
Inductive event : Type :=
| EvAnalysis : reply -> event
| EvGenerate : adapter -> js_result string -> event
| EvEvaluate : reply -> event.

Definition is_evaluation (e : event) : bool :=
  match e with EvEvaluate _ => true | _ => false end.

(** *** Step 1: requirement analysis *)

Definition default_framework : json := JStr "react".
Definition default_requirements : json := JArr [JStr "basic functionality"].

(** The [try] block: the two assignments, either of which is abandoned
    when reading the property throws. *)
Definition analyze (r : reply) : json * json :=
  match r with
  | InvokeFails | NotJson _ => (default_framework, default_requirements)
  | Parsed parsed =>
      match getprop parsed "framework" with
      | Throw _ => (default_framework, default_requirements)
      | Ok f =>
          let framework := or_default f (JStr "react") in
          match getprop parsed "requirements" with
          | Throw _ => (framework, default_requirements)
          | Ok r =>
              (framework, or_default r (JArr [JStr "basic functionality"]))
          end
      end
  end.

(** A reply that yields no record: the call fails, the content is not
    JSON, or the decoded value is not an object. *)
Definition no_record (r : reply) : bool :=
  match r with
  | Parsed (JObj _) => false
  | _ => true
  end.

(** The log statement after the [try] block converts both values. *)
Definition log_analysis (framework requirements : json) : js_result unit :=
  if to_string_throws framework || join_throws requirements
  then Throw TypeError else Ok tt.

(** *** Step 2: fan-out *)

Definition mem (a : adapter) (l : list adapter) : bool :=
  existsb (adapter_eqb a) l.

Fixpoint dedup (l : list adapter) : list adapter :=
  match l with
  | [] => []
  | a :: l' => a :: filter (fun b => negb (adapter_eqb a b)) (dedup l')
  end.

(** The order in which the launched calls settle: the order [arrival]
    gives, then the launch order for the adapters it does not mention. *)
Definition settle_order (w : world) (ls : list adapter) : list adapter :=
  filter (fun a => mem a ls) (dedup (arrival w ++ all_adapters)).

(** The submission an adapter pushes when its call returns [content]. *)
Definition submission_of (w : world) (a : adapter) (content : string)
  : submission :=
  {| model := model_name a; code := content;
     reasoning := reasoning_of a; executionTime := elapsed w a |}.

(** The body of one asynchronous block: a submission is pushed when the
    call returns, nothing when it throws. *)
Definition attempt (o : orchestrator) (w : world) (a : adapter)
  : list submission :=
  match generation o w a with
  | Ok content => [submission_of w a content]
  | Throw _ => []
  end.

(** The array [submissions] after [Promise.all]. *)
Definition collect (o : orchestrator) (w : world) : list submission :=
  flat_map (attempt o w) (settle_order w (launched o)).

(** *** Step 3: evaluation *)

Fixpoint find (name : jsval) (l : list submission) : option submission :=
  match l with
  | [] => None
  | s :: l' =>
      match name with
      | Some (JStr n) => if String.eqb (model s) n then Some s else find name l'
      | _ => None
      end
  end.

(** [result.winner || result.scores[0]?.model] *)
Definition winning_model (res : json) : js_result jsval :=
  w <- getprop res "winner" ;;
  or_else w (fun _ =>
    sc <- getprop res "scores" ;;
    first <- index0 sc ;;
    Ok (optprop first "model")).

(** The log statement of the [try] block:
    [result.winnerScore || result.scores[0]?.score] converted to text. *)
Definition log_winner (res : json) : js_result unit :=
  shown <-
    (ws <- getprop res "winnerScore" ;;
     or_else ws (fun _ =>
       sc <- getprop res "scores" ;;
       first <- index0 sc ;;
       Ok (optprop first "score"))) ;;
  if to_string_val_throws shown then Throw TypeError else Ok tt.

(** The [try] block of the evaluation; [first] is [submissions[0]]. Which
    error a failing call rejects with is immaterial: the [catch] clause
    does not look at it. *)
Definition judge (r : reply) (first : submission) (subs : list submission)
  : js_result submission :=
  match r with
  | InvokeFails => Throw (Error "evaluator")
  | NotJson _ => Throw SyntaxError
  | Parsed res =>
      winningModel <- winning_model res ;;
      let best := match find winningModel subs with
                  | Some s => s
                  | None => first
                  end in
      _ <- log_winner res ;;
      Ok best
  end.

(** The winner and the calls made to choose it. *)
Definition select (w : world) (first : submission) (rest : list submission)
  : list event * submission :=
  match rest with
  | [] => ([], first)
  | _ :: _ =>
      ([EvEvaluate (evaluation_reply w)],
       match judge (evaluation_reply w) first (first :: rest) with
       | Ok best => best
       | Throw _ => first
       end)
  end.

(** *** generate *)

Definition no_models : exn :=
  Error "No models were able to generate code. Please check your API keys.".

Definition fixed_score : Q := 17 # 2.   (* 8.5 *)

Definition generate (o : orchestrator) (w : world)
  : list event * js_result result :=
  let '(framework, requirements) := analyze (analysis_reply w) in
  match log_analysis framework requirements with
  | Throw e => ([EvAnalysis (analysis_reply w)], Throw e)
  | Ok _ =>
      let calls := map (fun a => EvGenerate a (generation o w a)) (launched o) in
      let submissions := collect o w in
      match submissions with
      | [] => (EvAnalysis (analysis_reply w) :: calls, Throw no_models)
      | first :: rest =>
          let '(evals, bestSubmission) := select w first rest in
          (((EvAnalysis (analysis_reply w) :: calls) ++ evals)%list,
           Ok {| r_code := code bestSubmission;
                 r_model := model bestSubmission;
                 r_score := fixed_score;
                 r_models := map model submissions;
                 executionDetails :=
                   {| submissions := submissions;
                      totalModels := List.length submissions;
                      framework := framework;
                      requirements := requirements |} |})
      end
  end.

(** The submissions a run has collected when the calls have settled; a
    run that stops before the fan-out collects none. *)
Definition collected (o : orchestrator) (w : world) : list submission :=
  let '(framework, requirements) := analyze (analysis_reply w) in
  match log_analysis framework requirements with
  | Throw _ => []
  | Ok _ => collect o w
  end.

End Orchestrator.

(* ================================================================== *)
(** ** Concrete runs and inputs used below *)
(* ================================================================== *)

Module Scenarios.
Import JsString Json Orchestrator PreviewDeployment.

(** An environment with keys for OpenAI only, and one with keys for OpenAI
    and Anthropic. *)
Definition env_openai (name : string) : option string :=
  if String.eqb name "OPENAI_API_KEY" then Some "sk-test-1" else None.

Definition env_two (name : string) : option string :=
  if String.eqb name "OPENAI_API_KEY" then Some "sk-test-1"
  else if String.eqb name "ANTHROPIC_API_KEY" then Some "sk-ant-test-2"
  else None.

Definition no_orchestrator : orchestrator :=
  {| client := fun _ => None; availableModels := [] |}.

Definition constructed (env : string -> option string) : orchestrator :=
  match construct env with
  | Ok o => o
  | Throw _ => no_orchestrator
  end.

Definition o_openai : orchestrator := constructed env_openai.
Definition o_two : orchestrator := constructed env_two.

Definition all_fail (a : adapter) : remote_outcome := NonSuccess 429.

Definition all_succeed (a : adapter) : remote_outcome :=
  Replied ("// code by " ++ key a).

(** Only the first adapter fails. *)
Definition openai_fails (a : adapter) : remote_outcome :=
  match a with
  | openai => TimedOut
  | _ => Replied ("// code by " ++ key a)
  end.

(** The judge answers the analysis with a text where a list is expected:
    [{"framework": "react", "requirements": "responsive design"}]. *)
Definition reply_text_requirements : reply :=
  Parsed (JObj [("framework", JStr "react");
                ("requirements", JStr "responsive design")]).

Definition reply_vue : reply :=
  Parsed (JObj [("framework", JStr "vue");
                ("requirements", JArr [JStr "responsive design"; JStr "modern UI"]);
                ("complexity", JStr "medium")]).

(** An evaluation that names no winner but ranks Claude first:
    [{"scores": [{"model": "Claude 3.5 Sonnet", "score": 9}]}]. *)
Definition reply_scores_only : reply :=
  Parsed (JObj [("scores",
                 JArr [JObj [("model", JStr "Claude 3.5 Sonnet");
                             ("score", JNum (9 # 1))]])]).

(** An evaluation with a winner and a score of 9.7. *)
Definition reply_winner_claude : reply :=
  Parsed (JObj [("scores",
                 JArr [JObj [("model", JStr "OpenAI GPT-4o"); ("score", JNum (8 # 1))];
                       JObj [("model", JStr "Claude 3.5 Sonnet"); ("score", JNum (97 # 10))]]);
                ("winner", JStr "Claude 3.5 Sonnet");
                ("winnerScore", JNum (97 # 10))]).

(** An evaluation that names a model nobody submitted. *)
Definition reply_unknown_winner : reply :=
  Parsed (JObj [("winner", JStr "GPT-5"); ("winnerScore", JNum (9 # 1))]).

Definition w_text_requirements_all_fail : world :=
  {| analysis_reply := reply_text_requirements;
     evaluation_reply := InvokeFails;
     remote := all_fail;
     elapsed := fun _ => 1200;
     arrival := [] |}.

Definition w_scores_only : world :=
  {| analysis_reply := reply_vue;
     evaluation_reply := reply_scores_only;
     remote := all_succeed;
     elapsed := fun _ => 1200;
     arrival := [] |}.

Definition w_winner_claude : world :=
  {| analysis_reply := reply_vue;
     evaluation_reply := reply_winner_claude;
     remote := all_succeed;
     elapsed := fun _ => 1200;
     arrival := [claude; openai] |}.

Definition w_unknown_winner : world :=
  {| analysis_reply := reply_vue;
     evaluation_reply := reply_unknown_winner;
     remote := all_succeed;
     elapsed := fun _ => 1200;
     arrival := [claude; openai] |}.

Definition w_all_down : world :=
  {| analysis_reply := reply_vue;
     evaluation_reply := InvokeFails;
     remote := all_fail;
     elapsed := fun _ => 3000;
     arrival := [] |}.

Definition w_openai_fails : world :=
  {| analysis_reply := NotJson "Sure! Here is the analysis you asked for.";
     evaluation_reply := InvokeFails;
     remote := openai_fails;
     elapsed := fun _ => 1200;
     arrival := [] |}.

Definition w_analysis_down : world :=
  {| analysis_reply := InvokeFails;
     evaluation_reply := InvokeFails;
     remote := all_succeed;
     elapsed := fun _ => 1200;
     arrival := [] |}.

(** Inputs of processCode. *)

(** A fenced arrow-function component, neither exported nor declared with
    the function keyword. *)
Definition arrow_component : string :=
  "```jsx" ++ nl ++
  "const App = () => <div>Hello</div>;" ++ nl ++
  "```".

(** A reply cut off before the closing fence. *)
Definition unclosed_fence : string :=
  "Here is the app:" ++ nl ++
  "```tsx" ++ nl ++
  "function App() { return <div>Hi</div>; }".

(** A component without any fence. *)
Definition bare_component : string :=
  "import React from 'react';" ++ nl ++
  "export default function App() { return <h1>Hi</h1>; }".

(** Two fenced components. *)
Definition two_components : string :=
  "First the header:" ++ nl ++
  "```tsx" ++ nl ++
  "function Header() { return <h1>Title</h1>; }" ++ nl ++
  "```" ++ nl ++
  "and the application:" ++ nl ++
  "```tsx" ++ nl ++
  "function App() { return <main>Body</main>; }" ++ nl ++
  "```".

Definition plain_text : string := "  Sorry, I cannot help with that.  ".

End Scenarios.

(* ================================================================== *)
(** ** Further runs and inputs *)
(* ================================================================== *)

Module MoreScenarios.
Import JsString Json Orchestrator Scenarios.

(** An evaluation that names a winner and nothing else:
    [{"winner": "Claude 3.5 Sonnet"}]. *)
Definition reply_winner_only : reply :=
  Parsed (JObj [("winner", JStr "Claude 3.5 Sonnet")]).

Definition w_winner_only : world :=
  {| analysis_reply := reply_vue;
     evaluation_reply := reply_winner_only;
     remote := all_succeed;
     elapsed := fun _ => 1200;
     arrival := [] |}.

(** The same services as [w_winner_claude], settling in the other order. *)
Definition w_winner_claude_late : world :=
  {| analysis_reply := reply_vue;
     evaluation_reply := reply_winner_claude;
     remote := all_succeed;
     elapsed := fun _ => 1200;
     arrival := [openai; claude] |}.

(** An environment in which the Anthropic key still holds the text of the
    template. *)
Definition env_template (name : string) : option string :=
  if String.eqb name "OPENAI_API_KEY" then Some "sk-test-1"
  else if String.eqb name "ANTHROPIC_API_KEY" then Some "sk-ant-your-key-here"
  else if String.eqb name "XAI_API_KEY" then Some "xai-test-3"
  else None.

End MoreScenarios.

Module MorePreview.
Import JsString Regex PreviewDeployment.

(** The content of the last block saved under a name, if any. *)
Fixpoint last_saved (fileName : string) (acts : list action) : option string :=
  match acts with
  | [] => None
  | a :: acts' =>
      match last_saved fileName acts' with
      | Some content => Some content
      | None =>
          match a with
          | Save name content =>
              if String.eqb name fileName then Some content else None
          | _ => None
          end
      end
  end.

(** A block that fits no rule. *)
Definition unclassified_block : string :=
  "```" ++ nl ++ "hello" ++ nl ++ "```".

(** Two style sheets and a script under one name. *)
Definition two_stylesheets : string :=
  "```css" ++ nl ++ "body { margin: 0; }" ++ nl ++ "```" ++ nl ++
  "```css" ++ nl ++ "body { color: red; }" ++ nl ++ "```".

(** Two components, and replies that mention a link before them. *)
Definition header_text : string :=
  "import React from 'react';" ++ nl ++
  "function Header() { return <h1>Todo</h1>; }".

Definition app_text : string :=
  "import React from 'react';" ++ nl ++
  "export default function App() { return <Header />; }".

Definition header_block : string := "```tsx" ++ nl ++ header_text ++ nl ++ "```".

Definition app_block : string := "```tsx" ++ nl ++ app_text ++ nl ++ "```".

(** A reply that mentions a link in its prose and then gives one
    component. *)
Definition link_then_component : string :=
  "The hooks are explained at https://react.dev/learn in detail." ++ nl ++
  "Here is the component:" ++ nl ++ nl ++
  app_block.

(** The same with two components. *)
Definition link_then_two_components : string :=
  "The hooks are explained at https://react.dev/learn in detail." ++ nl ++
  "Here is the header:" ++ nl ++ nl ++
  header_block ++ nl ++ nl ++
  "And the application:" ++ nl ++ nl ++
  app_block.

End MorePreview.

(* ================================================================== *)
(** ** The texts a pattern matches *)
(* ================================================================== *)

Module RegexLanguage.
Import JsString Regex.
Local Open Scope list_scope.

(** [matches r t new]: the pattern can match the text [t], whatever
    surrounds it, and then records the captures [new] (latest first). An
    assertion matches the empty text; a lookahead keeps the captures of
    the text it looked at. *)
Inductive matches : re -> list ascii -> caps -> Prop :=
| M_Eps : matches Eps [] []
| M_Chr : forall p x, p x = true -> matches (Chr p) [x] []
| M_Seq : forall a b t1 t2 n1 n2,
    matches a t1 n1 -> matches b t2 n2 ->
    matches (Seq a b) (t1 ++ t2) (n2 ++ n1)
| M_AltL : forall a b t new, matches a t new -> matches (Alt a b) t new
| M_AltR : forall a b t new, matches b t new -> matches (Alt a b) t new
| M_StarNil : forall g a, matches (Star g a) [] []
| M_StarCons : forall g a t1 t2 n1 n2,
    matches a t1 n1 -> matches (Star g a) t2 n2 ->
    matches (Star g a) (t1 ++ t2) (n2 ++ n1)
| M_Group : forall n a t new,
    matches a t new -> matches (Group n a) t ((n, t) :: new)
| M_Look : forall a t new, matches a t new -> matches (Look a) [] new
| M_WordB : matches WordB [] [].

(** The file-name shape the three patterns of extractFileName capture:
    one or more code units outside [excluded], a dot, one or more
    letters. *)
Definition name_shape (excluded : string) (t : list ascii) : Prop :=
  exists a l,
    t = a ++ "."%char :: l /\ a <> [] /\ l <> [] /\
    Forall (fun x => existsb (Ascii.eqb x) (list_ascii_of_string excluded) = false) a /\
    Forall (fun x => is_alpha x = true) l.

End RegexLanguage.

(* ================================================================== *)
(** ** The endpoint POST /api/generate *)
(* ================================================================== *)

Module Endpoint.
Import JsString Json Orchestrator PreviewDeployment.

(** *** PreviewDeployment: configuration and deploy *)

Record config : Type := mkConfig
  { stagingDir : string;
    baseUrl : string;
    usePathBased : bool;
    previewBaseUrl : string }.

(** [process.env.NAME || fallback] *)
Definition env_or (v : option string) (fallback : string) : string :=
  match v with
  | Some s => if truthy s then s else fallback
  | None => fallback
  end.

(** The constructor of PreviewDeployment. *)
Definition configure (env : string -> option string) : config :=
  {| stagingDir := env_or (env "STAGING_DIR") "/var/www/staging";
     baseUrl := env_or (env "STAGING_DOMAIN") "staging.yourdomain.com";
     usePathBased :=
       match env "USE_PATH_BASED_PREVIEWS" with
       | Some v => String.eqb v "true"
       | None => false
       end;
     previewBaseUrl := env_or (env "PREVIEW_BASE_URL") "http://localhost/preview" |}.

Definition subdomain (deploymentId : string) : string := "app-" ++ deploymentId.

Definition previewUrl (cfg : config) (deploymentId : string) : string :=
  if usePathBased cfg
  then previewBaseUrl cfg ++ "/" ++ deploymentId
  else "http://" ++ subdomain deploymentId ++ "." ++ baseUrl cfg.

(** [deploy]: creating the directory, writing the files of processCode and
    the manifest are taken by their joint outcome, [None] when all of them
    succeed and [Some message] when one throws an Error. A failure inside
    buildProject is caught there and does not reach [deploy]. *)
Definition deploy (cfg : config) (fs : option string)
           (code deploymentId : string) : js_result string :=
  match fs with
  | None => Ok (previewUrl cfg deploymentId)
  | Some message => Throw (Error ("Deployment failed: " ++ message))
  end.

(** *** The handler of POST /api/generate *)

Inductive db_call : Type :=
| GenerationCreate          (* prisma.generation.create *)
| UserMessageCreate         (* prisma.chatMessage.create, role user *)
| AssistantMessageCreate    (* prisma.chatMessage.create, role assistant *)
| ProjectUpdate.            (* prisma.project.update *)

(** What the handler meets outside the orchestrator: the identifier drawn
    for the deployment, the outcome of the file system operations and of
    each database call ([Some message] when it rejects). *)
Record host : Type := mkHost
  { deploymentId : string;
    fs : option string;
    db : db_call -> option string }.

Inductive effect : Type :=
| EfDeploy : string -> string -> js_result string -> effect
| EfDb : db_call -> option string -> effect.

(** The response: status 400, status 500 with the exception whose message
    is sent as details, or status 200 with the result and the preview URL
    ([None] for null). The time stamp of the body is left out. *)
Inductive response : Type :=
| BadRequest : string -> response
| ServerError : string -> exn -> response
| Success : result -> option string -> response.

(** [prompt.slice(0, 100)] inside a template literal, then the template
    literals of generate: strings and arrays have a slice method, and an
    array is converted element by element. *)
Definition prompt_converts (prompt : jsval) : bool :=
  match prompt with
  | Some (JStr _) => true
  | Some (JArr l) => negb (to_string_throws (JArr l))
  | _ => false
  end.

Definition db_calls (projectId : jsval) : list db_call :=
  GenerationCreate ::
  (if truthy_val projectId
   then [UserMessageCreate; AssistantMessageCreate; ProjectUpdate]
   else []).

(** The awaited database calls, in order, up to the first that rejects. *)
Fixpoint run_db (h : host) (calls : list db_call)
  : list effect * option string :=
  match calls with
  | [] => ([], None)
  | c :: calls' =>
      match db h c with
      | Some message => ([EfDb c (Some message)], Some message)
      | None =>
          let '(effects, failure) := run_db h calls' in
          (EfDb c None :: effects, failure)
      end
  end.

Definition generation_failed : string := "Generation failed".

Definition handle (o : orchestrator) (cfg : config) (w : world) (h : host)
           (body : json) : list event * list effect * response :=
  match getprop body "prompt", getprop body "projectId" with
  | Ok prompt, Ok projectId =>
      if negb (truthy_val prompt)
      then ([], [], BadRequest "Prompt is required")
      else if negb (prompt_converts prompt)
      then ([], [], ServerError generation_failed TypeError)
      else
        let '(events, outcome) := generate o w in
        match outcome with
        | Throw e => (events, [], ServerError generation_failed e)
        | Ok result =>
            if truthy (r_code result) then
              let deployed :=
                deploy cfg (fs h) (r_code result) (deploymentId h) in
              let attempt := EfDeploy (r_code result) (deploymentId h) deployed in
              match deployed with
              | Throw e => (events, [attempt], ServerError generation_failed e)
              | Ok url =>
                  let '(writes, failure) := run_db h (db_calls projectId) in
                  (events, attempt :: writes,
                   match failure with
                   | Some message => ServerError generation_failed (Error message)
                   | None => Success result (Some url)
                   end)
              end
            else (events, [], Success result None)
        end
  | _, _ => ([], [], ServerError generation_failed TypeError)
  end.

(** A body whose prompt passes the checks made before generate is called. *)
Definition accepted (body : json) : bool :=
  match getprop body "prompt" with
  | Ok prompt => truthy_val prompt && prompt_converts prompt
  | Throw _ => false
  end.

End Endpoint.

Module EndpointScenarios.
Import JsString Json Orchestrator Scenarios Endpoint.

Definition cfg_default : config := configure (fun _ => None).

Definition body_todo : json :=
  JObj [("prompt", JStr "Build a todo app"); ("projectId", JStr "p1")].

Definition body_number : json := JObj [("prompt", JNum (7 # 1))].

Definition host_ok : host :=
  {| deploymentId := "1a2b3c4d"; fs := None; db := fun _ => None |}.

Definition host_disk_full : host :=
  {| deploymentId := "1a2b3c4d"; fs := Some "ENOSPC: no space left on device";
     db := fun _ => None |}.

Definition host_db_down : host :=
  {| deploymentId := "1a2b3c4d"; fs := None;
     db := fun _ => Some "Can't reach database server" |}.

Definition env_path_based (name : string) : option string :=
  if String.eqb name "USE_PATH_BASED_PREVIEWS" then Some "true" else None.

(** OpenAI alone, answering with an empty text. *)
Definition w_empty_reply : world :=
  {| analysis_reply := reply_vue;
     evaluation_reply := InvokeFails;
     remote := fun _ => Replied EmptyString;
     elapsed := fun _ => 1200;
     arrival := [] |}.

End EndpointScenarios.

(* ================================================================== *)
(** ** The files deploy leaves in the deployment directory *)
(* ================================================================== *)

Module Disk.
Import JsString Json.

(** A directory tree as a list of entries, keyed by the path relative to
    its root, in the order in which the entries were created. *)
Definition path := list string.

Inductive content : Type :=
| Text : string -> content
| JsonText : json -> content.     (* JSON.stringify(value, null, 2) *)

Inductive node : Type :=
| File : content -> node
| Dir : node.

Definition t := list (path * node).

Fixpoint path_eqb (p q : path) : bool :=
  match p, q with
  | [], [] => true
  | x :: p', y :: q' => String.eqb x y && path_eqb p' q'
  | _, _ => false
  end.

Fixpoint lookup (d : t) (p : path) : option node :=
  match d with
  | [] => None
  | (q, n) :: d' => if path_eqb q p then Some n else lookup d' p
  end.

Fixpoint set (d : t) (p : path) (n : node) : t :=
  match d with
  | [] => [(p, n)]
  | (q, m) :: d' => if path_eqb q p then (q, n) :: d' else (q, m) :: set d' p n
  end.

(** [fs.pathExists]: true for a file and for a directory. *)
Definition pathExists (d : t) (p : path) : bool :=
  match lookup d p with Some _ => true | None => false end.

(** The path and the directories above it, outermost first. *)
Fixpoint inits (p : path) : list path :=
  match p with
  | [] => [[]]
  | x :: p' => [] :: map (cons x) (inits p')
  end.

Fixpoint mkdirs (d : t) (ps : list path) : option t :=
  match ps with
  | [] => Some d
  | q :: ps' =>
      match lookup d q with
      | Some (File _) => None
      | Some Dir => mkdirs d ps'
      | None => mkdirs (set d q Dir) ps'
      end
  end.

(** [fs.ensureDir]: creates the directory and those above it; fails when
    one of them is a file. *)
Definition ensureDir (d : t) (p : path) : option t := mkdirs d (inits p).

(** [fs.writeFile]: fails on a directory and when the directory that is to
    hold the file is missing; replaces an existing file. *)
Definition writeFile (d : t) (p : path) (c : content) : option t :=
  match p with
  | [] => None
  | _ :: _ =>
      match lookup d p with
      | Some Dir => None
      | _ =>
          match lookup d (removelast p) with
          | Some Dir => Some (set d p (File c))
          | _ => None
          end
      end
  end.

(** [strip pre p]: the rest of [p] below [pre]. *)
Fixpoint strip (pre p : path) : option path :=
  match pre, p with
  | [], _ => Some p
  | x :: pre', y :: p' => if String.eqb x y then strip pre' p' else None
  | _ :: _, [] => None
  end.

(** Copies what lies below [src] to the same place below [dest], entry by
    entry; stops at the first entry that would put a file on a directory
    or a directory on a file. The flag tells whether it came to the end. *)
Fixpoint copy_entries (d : t) (entries : t) (src dest : path) : t * bool :=
  match entries with
  | [] => (d, true)
  | (p, n) :: rest =>
      match strip src p with
      | Some (x :: rel) =>
          let target := (dest ++ x :: rel)%list in
          match n, lookup d target with
          | Dir, Some (File _) => (d, false)
          | File _, Some Dir => (d, false)
          | _, _ => copy_entries (set d target n) rest src dest
          end
      | _ => copy_entries d rest src dest
      end
  end.

(** [fs.copy(src, dest, { overwrite: true })] for an existing directory
    [dest]: the entries below [src] are those present when the copy
    starts; a file [src] cannot replace the directory. *)
Definition copy (d : t) (src dest : path) : t * bool :=
  match lookup d src with
  | Some Dir => copy_entries d d src dest
  | _ => (d, false)
  end.

End Disk.

Module Deploy.
Import JsString Json PreviewDeployment Endpoint Disk.

(** *** Paths *)

Fixpoint split_at_slash (l : list ascii) (cur : list ascii) : list string :=
  match l with
  | [] => [string_of_list_ascii (rev cur)]
  | c :: l' =>
      if Ascii.eqb c "/"
      then string_of_list_ascii (rev cur) :: split_at_slash l' []
      else split_at_slash l' (c :: cur)
  end.

Definition segments (s : string) : list string :=
  split_at_slash (list_ascii_of_string s) [].

(** One step of [path.normalize] on an absolute path, the innermost
    directory first: empty segments and [.] are dropped, [..] leaves a
    directory and stays at the root. *)
Definition norm_step (stack : list string) (seg : string) : list string :=
  if String.eqb seg EmptyString || String.eqb seg "." then stack
  else if String.eqb seg ".." then tl stack
  else seg :: stack.

Definition normalise (segs : list string) : path :=
  rev (fold_left norm_step segs []).

(** A segment that [norm_step] keeps. *)
Definition plain (s : string) : Prop :=
  s <> EmptyString /\ s <> "." /\ s <> "..".

(** [path.join(parts...)], resolved against the working directory of the
    process when it is not absolute. Empty parts are ignored. *)
Definition resolve (cwd : path) (parts : list string) : path :=
  let parts := filter truthy parts in
  let base :=
    match parts with
    | first :: _ => if startsWith first "/" then [] else cwd
    | [] => cwd
    end in
  normalise (base ++ flat_map segments parts).

(** [deploymentPath] and [path.join(deploymentPath, filePath)]. *)
Definition deploymentPath (cfg : config) (cwd : path) (deploymentId : string) : path :=
  resolve cwd [stagingDir cfg; subdomain deploymentId].

Definition fullPath (cfg : config) (cwd : path) (deploymentId filePath : string)
  : path :=
  resolve cwd [stagingDir cfg; subdomain deploymentId; filePath].

(** Where a file of the set lands, relative to the deployment directory;
    [None] when the path leaves that directory. *)
Definition locate (cfg : config) (cwd : path) (deploymentId filePath : string)
  : option path :=
  strip (deploymentPath cfg cwd deploymentId) (fullPath cfg cwd deploymentId filePath).

(** *** The writes of deploy *)

Definition mem_string (k : string) (l : list string) : bool :=
  existsb (String.eqb k) l.

Fixpoint dedup_strings (l : list string) : list string :=
  match l with
  | [] => []
  | k :: l' => k :: filter (fun x => negb (String.eqb k x)) (dedup_strings l')
  end.

(** The entries of the file set in the order in which their writes
    complete: [Promise.all] starts them together, and [completion] names
    the files in the order the file system finishes them (files it does
    not name follow in key order). *)
Definition write_order (completion : list string) (files : Files.t) : Files.t :=
  flat_map (fun k => match Files.get files k with
                     | Some v => [(k, v)]
                     | None => []
                     end)
           (dedup_strings (completion ++ Files.keys files)).

(** One callback of the [Promise.all]: the directory of the file, then
    the file. A file outside the deployment directory leaves the
    directory as it is. *)
Definition write_entry (cfg : config) (cwd : path) (deploymentId : string)
           (d : Disk.t) (entry : string * string) : option Disk.t :=
  match locate cfg cwd deploymentId (fst entry) with
  | None => Some d
  | Some p =>
      match ensureDir d (removelast p) with
      | Some d' => writeFile d' p (Text (snd entry))
      | None => None
      end
  end.

Fixpoint write_all (cfg : config) (cwd : path) (deploymentId : string)
         (d : Disk.t) (entries : Files.t) : option Disk.t :=
  match entries with
  | [] => Some d
  | entry :: rest =>
      match write_entry cfg cwd deploymentId d entry with
      | Some d' => write_all cfg cwd deploymentId d' rest
      | None => None
      end
  end.

(** [buildProject]: what lies under src is copied to the root, then a
    missing index.html is written; a failure of the copy is caught and
    leaves the rest undone. *)
Definition buildProject (d : Disk.t) : Disk.t :=
  let '(d1, completed) :=
    if pathExists d ["src"] then copy d ["src"] [] else (d, true) in
  if completed then
    if pathExists d1 ["index.html"] then d1
    else
      match writeFile d1 ["index.html"] (Text (createIndexHtml "Generated App")) with
      | Some d2 => d2
      | None => d1
      end
  else d1.

(** The deployment directory after [deploy], starting from [dir0]; [None]
    when an operation on the directory fails, in which case [deploy]
    throws. Operations fail here only for the shape of the directory; any
    other failure is the [fs] outcome of [Endpoint.deploy]. *)
Definition deploy_files (cfg : config) (cwd : path) (dir0 : Disk.t)
           (completion : list string) (code deploymentId : string)
  : option Disk.t :=
  match ensureDir dir0 [] with
  | None => None
  | Some d1 =>
      let processedFiles := processCode code in
      match write_all cfg cwd deploymentId d1
                      (write_order completion processedFiles) with
      | None => None
      | Some d2 =>
          let manifest :=
            if negb (Files.truthy_at processedFiles "package.json")
            then writeFile d2 ["package.json"]
                           (JsonText (snd (createPackageJson (subdomain deploymentId))))
            else Some d2 in
          match manifest with
          | None => None
          | Some d3 => Some (buildProject d3)
          end
      end
  end.

End Deploy.

Module DeployScenarios.
Import JsString Json PreviewDeployment Endpoint EndpointScenarios Disk Deploy.

Definition cwd_api : path := ["srv"; "api"].

End DeployScenarios.

(* ================================================================== *)
(** * Properties of MultiLLMOrchestrator.generate *)
(* ================================================================== *)

Module OrchestratorFacts.
Import JsString Json Orchestrator Scenarios.

(** *** Adapters form a finite type *)

Lemma adapter_eqb_eq (a b : adapter) : adapter_eqb a b = true <-> a = b.
Proof. destruct a, b; simpl; split; intro H; congruence. Qed.

Lemma adapter_eqb_refl (a : adapter) : adapter_eqb a a = true.
Proof. now apply adapter_eqb_eq. Qed.

Lemma all_adapters_complete (a : adapter) : In a all_adapters.
Proof. destruct a; simpl; tauto. Qed.

Lemma all_adapters_NoDup : NoDup all_adapters.
Proof.
  unfold all_adapters.
  repeat (constructor; [simpl; intuition discriminate|]).
  constructor.
Qed.

Lemma model_name_inj (a b : adapter) : model_name a = model_name b -> a = b.
Proof. destruct a, b; simpl; intro H; try reflexivity; discriminate H. Qed.

Lemma mem_In (a : adapter) (l : list adapter) : mem a l = true <-> In a l.
Proof.
  unfold mem. rewrite existsb_exists. split.
  - intros [b [Hb E]]. apply adapter_eqb_eq in E. now subst.
  - intro H. exists a. split; [assumption | apply adapter_eqb_refl].
Qed.

(** *** The settle order is a rearrangement of the launched adapters *)

Lemma dedup_In (a : adapter) (l : list adapter) : In a (dedup l) <-> In a l.
Proof.
  induction l as [|b l IH]; simpl; [tauto|].
  rewrite filter_In, IH. split.
  - intros [H | [H _]]; auto.
  - intros [H | H]; auto.
    destruct (adapter_eqb b a) eqn:E.
    + left. now apply adapter_eqb_eq.
    + right. split; [exact H | reflexivity].
Qed.

Lemma dedup_NoDup (l : list adapter) : NoDup (dedup l).
Proof.
  induction l as [|b l IH]; simpl; constructor.
  - rewrite filter_In. intros [_ H]. cbv beta in H.
    now rewrite adapter_eqb_refl in H.
  - now apply NoDup_filter.
Qed.

Lemma settle_order_In (w : world) (ls : list adapter) (a : adapter) :
  In a (settle_order w ls) <-> In a ls.
Proof.
  unfold settle_order. rewrite filter_In, dedup_In, mem_In, in_app_iff.
  split; [tauto|]. intro H. split; [right; apply all_adapters_complete | exact H].
Qed.

Lemma settle_order_NoDup (w : world) (ls : list adapter) :
  NoDup (settle_order w ls).
Proof. apply NoDup_filter, dedup_NoDup. Qed.

Lemma launched_NoDup (o : orchestrator) : NoDup (launched o).
Proof. apply NoDup_filter, all_adapters_NoDup. Qed.

Lemma launched_In (o : orchestrator) (a : adapter) :
  In a (launched o) <-> enabled o a = true.
Proof.
  unfold launched. rewrite filter_In. split; [tauto|].
  intro H. split; [apply all_adapters_complete | exact H].
Qed.

Lemma settle_order_Permutation (o : orchestrator) (w : world) :
  Permutation (settle_order w (launched o)) (launched o).
Proof.
  apply NoDup_Permutation.
  - apply settle_order_NoDup.
  - apply launched_NoDup.
  - intro a. apply settle_order_In.
Qed.

(** *** What the fan-out collects *)

Lemma attempt_In (o : orchestrator) (w : world) (a : adapter) (s : submission) :
  In s (attempt o w a) <->
  exists content, generation o w a = Ok content /\ s = submission_of w a content.
Proof.
  unfold attempt, submission_of. destruct (generation o w a) as [c|e]; simpl.
  - split.
    + intros [H | []]. exists c. now split.
    + intros [c' [E H]]. injection E as ->. now left.
  - split; [tauto|]. intros [c' [E _]]. discriminate E.
Qed.

Lemma collect_In (o : orchestrator) (w : world) (s : submission) :
  In s (collect o w) <->
  exists a content,
    enabled o a = true /\ generation o w a = Ok content /\
    s = submission_of w a content.
Proof.
  unfold collect. rewrite in_flat_map. split.
  - intros [a [Ha Hs]]. apply settle_order_In, launched_In in Ha.
    apply attempt_In in Hs. destruct Hs as [c [E H]]. now exists a, c.
  - intros [a [c [Ha [E H]]]]. exists a. split.
    + now apply settle_order_In, launched_In.
    + apply attempt_In. now exists c.
Qed.

Lemma flat_map_attempt_models (o : orchestrator) (w : world) (l : list adapter) :
  NoDup l -> NoDup (map model (flat_map (attempt o w) l)).
Proof.
  induction 1 as [|a l Hnotin Hnd IH]; simpl; [constructor|].
  rewrite map_app. unfold attempt at 1.
  destruct (generation o w a) as [c|e]; simpl; [|exact IH].
  constructor; [|exact IH].
  rewrite in_map_iff. intros [s [Hm Hs]].
  apply in_flat_map in Hs. destruct Hs as [b [Hb Hs]].
  apply attempt_In in Hs. destruct Hs as [c' [_ ->]]. simpl in Hm.
  apply model_name_inj in Hm. now subst.
Qed.

Lemma collect_models_NoDup (o : orchestrator) (w : world) :
  NoDup (map model (collect o w)).
Proof. apply flat_map_attempt_models, settle_order_NoDup. Qed.

Lemma collect_Permutation (o : orchestrator) (w : world) :
  Permutation (collect o w) (flat_map (attempt o w) (launched o)).
Proof. apply Permutation_flat_map, settle_order_Permutation. Qed.

Lemma collect_nil (o : orchestrator) (w : world) :
  (forall a, enabled o a = true -> exists e, generation o w a = Throw e) ->
  collect o w = [].
Proof.
  intro H. destruct (collect o w) as [|s l] eqn:E; [reflexivity|].
  assert (Hs : In s (collect o w)) by (rewrite E; now left).
  apply collect_In in Hs. destruct Hs as [a [c [Ha [Hc _]]]].
  destruct (H a Ha) as [e He]. congruence.
Qed.


Lemma collect_cons_inv (o : orchestrator) (w : world) (s : submission)
      (l : list submission) :
  collect o w = s :: l ->
  exists a content,
    enabled o a = true /\ generation o w a = Ok content /\
    s = submission_of w a content.
Proof.
  intro E. apply collect_In. rewrite E. now left.
Qed.

Lemma calls_no_evaluation (o : orchestrator) (w : world) (l : list adapter) :
  forallb (fun e => negb (is_evaluation e))
    (map (fun a => EvGenerate a (generation o w a)) l) = true.
Proof. induction l; simpl; auto. Qed.

Lemma find_None (v : jsval) (l : list submission) :
  (forall s, In s l -> v <> Some (JStr (model s))) -> find v l = None.
Proof.
  induction l as [|s l IH]; intro H; simpl; [reflexivity|].
  destruct v as [[| | |n| |]|]; try reflexivity.
  destruct (String.eqb (model s) n) eqn:E.
  - apply String.eqb_eq in E. exfalso. apply (H s); [now left | now subst].
  - apply IH. intros s' Hs'. apply H. now right.
Qed.

(** *** Runs without a submission *)

Lemma construct_requires_openai (env : string -> option string) :
  key_usable (env "OPENAI_API_KEY") = false ->
  construct env
  = Throw (Error "OpenAI API key is required for the evaluator. Please set OPENAI_API_KEY in .env").
Proof. intro H. unfold construct. simpl. now rewrite H. Qed.

Lemma constructed_enables_openai (env : string -> option string) (o : orchestrator) :
  construct env = Ok o -> enabled o openai = true.
Proof.
  unfold construct.
  destruct (key_usable (env (env_var openai))) eqn:E; simpl; [|discriminate].
  intro H. injection H as <-. unfold enabled. simpl in *. rewrite E.
  destruct (env "OPENAI_API_KEY"); [reflexivity | discriminate E].
Qed.

(** A generation call recorded in a run is the call of an enabled adapter,
    made after the log statement of the analysis has passed. *)
Lemma generation_event (o : orchestrator) (w : world) (a : adapter)
      (r : js_result string) :
  In (EvGenerate a r) (fst (generate o w)) ->
  enabled o a = true /\ r = generation o w a /\
  log_analysis (fst (analyze (analysis_reply w)))
               (snd (analyze (analysis_reply w))) = Ok tt.
Proof.
  unfold generate. destruct (analyze (analysis_reply w)) as [f rq]. simpl.
  destruct (log_analysis f rq) as [[]|e]; simpl.
  - intro H.
    assert (Hcalls : In (EvGenerate a r)
              (map (fun a => EvGenerate a (generation o w a)) (launched o))).
    { destruct (collect o w) as [|first rest]; simpl in H.
      - destruct H as [H|H]; [discriminate | exact H].
      - destruct (select w first rest) as [evals best] eqn:Es. simpl in H.
        destruct H as [H|H]; [discriminate|].
        apply in_app_or in H. destruct H as [H|H]; [exact H|].
        unfold select in Es. destruct rest; injection Es as <- _.
        + destruct H.
        + destruct H as [H|[]]. discriminate H. }
    apply in_map_iff in Hcalls. destruct Hcalls as [b [Hb Hin]].
    injection Hb as -> <-. apply launched_In in Hin. now repeat split.
  - intros [H|[]]. discriminate H.
Qed.

(** When the log statement of the analysis passes, a run without a single
    successful call ends in the no-models error. *)
Lemma no_models_when_fan_out_is_reached (o : orchestrator) (w : world) :
  log_analysis (fst (analyze (analysis_reply w)))
               (snd (analyze (analysis_reply w))) = Ok tt ->
  (forall a, enabled o a = true -> exists e, generation o w a = Throw e) ->
  snd (generate o w) = Throw no_models.
Proof.
  intros Hlog Hfail. unfold generate.
  destruct (analyze (analysis_reply w)) as [f r]. simpl in Hlog. rewrite Hlog.
  now rewrite (collect_nil o w Hfail).
Qed.

(** Whatever the analysis does, such a run returns no result. *)
Lemma no_result_without_submissions (o : orchestrator) (w : world) :
  (forall a, enabled o a = true -> exists e, generation o w a = Throw e) ->
  exists e, snd (generate o w) = Throw e.
Proof.
  intro Hfail. unfold generate.
  destruct (analyze (analysis_reply w)) as [f r].
  destruct (log_analysis f r) as [[]|e]; [|now exists e].
  rewrite (collect_nil o w Hfail). now exists no_models.
Qed.

(** C1. For every orchestrator the constructor builds: a run in which no
    adapter is enabled, or in which the generation call of every enabled
    adapter fails, ends in the no-models error; no result is returned. (The
    constructor always enables OpenAI, so the first case never arises.) *)
Theorem no_submissions_failure (env : string -> option string)
        (o : orchestrator) (w : world) :
  construct env = Ok o ->
  (launched o = [] \/
   forall a, enabled o a = true ->
             exists e, In (EvGenerate a (Throw e)) (fst (generate o w))) ->
  snd (generate o w) = Throw no_models /\
  (forall r, snd (generate o w) <> Ok r).
Proof.
  intros Hc Hcase.
  pose proof (constructed_enables_openai env o Hc) as Hopenai.
  assert (Hres : snd (generate o w) = Throw no_models).
  { destruct Hcase as [Hnil | Hfail].
    - apply launched_In in Hopenai. rewrite Hnil in Hopenai. destruct Hopenai.
    - destruct (Hfail openai Hopenai) as [e0 He0].
      apply generation_event in He0. destruct He0 as [_ [_ Hlog]].
      apply no_models_when_fan_out_is_reached; [exact Hlog|].
      intros a Ha. destruct (Hfail a Ha) as [e He]. exists e.
      apply generation_event in He. symmetry. apply He. }
  split; [exact Hres|]. intros r Hr. rewrite Hres in Hr. discriminate Hr.
Qed.

Lemma no_submissions_failure_witness :
  snd (generate o_two w_all_down) = Throw no_models.
Proof.
  apply (no_submissions_failure env_two o_two w_all_down).
  - reflexivity.
  - right. intros a Ha. exists (Error (failure_message a)).
    destruct a; try discriminate Ha; vm_compute; tauto.
Defined.

(** The log statement behind the analysis is outside every [try]: when the
    judge answers the analysis with a text in the requirements field, the
    run stops there with a TypeError, before any generation call. *)
Lemma analysis_log_can_abort :
  construct env_openai = Ok o_openai /\
  launched o_openai = [openai] /\
  (forall a, enabled o_openai a = true ->
             exists e, generation o_openai w_text_requirements_all_fail a = Throw e) /\
  generate o_openai w_text_requirements_all_fail
    = ([EvAnalysis reply_text_requirements], Throw TypeError) /\
  launched no_orchestrator = [] /\
  generate no_orchestrator w_text_requirements_all_fail
    = ([EvAnalysis reply_text_requirements], Throw TypeError) /\
  TypeError <> no_models.
Proof.
  repeat split; try reflexivity.
  - intros a _. destruct a; now eexists.
  - discriminate.
Qed.

(** *** Fan-out fault isolation *)

(** With a key, a timeout, a transport error, an error status or a
    malformed response all make [invoke] throw. *)
Lemma failed_request_throws (o : orchestrator) (a : adapter) (apiKey : string)
      (r : remote_outcome) :
  client o a = Some apiKey -> truthy apiKey = true ->
  (forall content, r <> Replied content) ->
  invoke o a r = Throw (Error (failure_message a)).
Proof.
  intros Hc Hk Hr. unfold invoke, chat_invoke, library_invoke.
  rewrite Hc, Hk. simpl.
  destruct r as [content| | | |]; try (now destruct (axios_based a)).
  now destruct (Hr content).
Qed.

(** C2. In every run in which a generation call of an enabled adapter
    succeeds, [generate] returns a result; the submissions it collected are
    exactly those of the enabled adapters whose call succeeded, one for
    each; an adapter whose call threw has no submission among them. *)
Theorem fan_out_fault_isolation (o : orchestrator) (w : world) :
  (exists a content, In (EvGenerate a (Ok content)) (fst (generate o w))) ->
  exists r,
    snd (generate o w) = Ok r /\
    (forall s, In s (submissions (executionDetails r)) <->
       exists a content,
         enabled o a = true /\ generation o w a = Ok content /\
         s = submission_of w a content) /\
    (forall a e, generation o w a = Throw e ->
       forall s, In s (submissions (executionDetails r)) ->
                 model s <> model_name a) /\
    NoDup (map model (submissions (executionDetails r))) /\
    Permutation (submissions (executionDetails r))
                (flat_map (attempt o w) (launched o)) /\
    r_models r = map model (submissions (executionDetails r)).
Proof.
  intros [a [c Hin]]. unfold generate in *.
  destruct (analyze (analysis_reply w)) as [f rq].
  destruct (log_analysis f rq) as [[]|e].
  - destruct (collect o w) as [|first rest] eqn:E.
    + exfalso. simpl in Hin. destruct Hin as [Hin|Hin]; [discriminate|].
      apply in_map_iff in Hin. destruct Hin as [b [Hb Hl]].
      injection Hb as -> Hc. apply launched_In in Hl.
      assert (Hs : In (submission_of w a c) (collect o w))
        by (apply collect_In; now exists a, c).
      rewrite E in Hs. destruct Hs.
    + destruct (select w first rest) as [evals best]. simpl.
      eexists. split; [reflexivity|].
      cbn [executionDetails submissions r_models].
      split; [intro s; rewrite <- E; apply collect_In|].
      split.
      { intros b e Hb s Hs Hm. rewrite <- E in Hs. apply collect_In in Hs.
        destruct Hs as [b' [c' [_ [Hc' ->]]]]. simpl in Hm.
        apply model_name_inj in Hm. subst b'. congruence. }
      split; [rewrite <- E; apply collect_models_NoDup|].
      split; [rewrite <- E; apply collect_Permutation | reflexivity].
  - exfalso. simpl in Hin. destruct Hin as [Hin|[]]. discriminate.
Qed.

Lemma fan_out_fault_isolation_witness :
  generation o_two w_openai_fails openai = Throw (Error "request failed") /\
  exists r,
    snd (generate o_two w_openai_fails) = Ok r /\
    map model (submissions (executionDetails r)) = ["Claude 3.5 Sonnet"].
Proof.
  split; [reflexivity|].
  destruct (@fan_out_fault_isolation o_two w_openai_fails) as [r [Hr _]].
  - exists claude, "// code by claude". simpl. right. right. now left.
  - exists r. split; [exact Hr|].
    vm_compute in Hr. injection Hr as <-. reflexivity.
Defined.

(** *** What a result reports *)

Lemma collected_is_reported (o : orchestrator) (w : world) (r : result) :
  snd (generate o w) = Ok r -> submissions (executionDetails r) = collected o w.
Proof.
  unfold generate, collected.
  destruct (analyze (analysis_reply w)) as [f rq].
  destruct (log_analysis f rq) as [[]|e]; [|discriminate].
  destruct (collect o w) as [|first rest]; [discriminate|].
  destruct (select w first rest) as [evals best]. simpl.
  intro H. injection H as <-. reflexivity.
Qed.

(** *** Single-submission shortcut *)

(** C3. In every run that collected exactly one submission, that submission
    is the winner, and the calls of the run are the analysis and the
    generation calls: there is no evaluation call to the judge. *)
Theorem single_submission_shortcut (o : orchestrator) (w : world) (s : submission) :
  collected o w = [s] ->
  exists r,
    snd (generate o w) = Ok r /\
    r_code r = code s /\ r_model r = model s /\
    fst (generate o w)
      = EvAnalysis (analysis_reply w)
        :: map (fun a => EvGenerate a (generation o w a)) (launched o) /\
    forallb (fun e => negb (is_evaluation e)) (fst (generate o w)) = true.
Proof.
  unfold collected, generate.
  destruct (analyze (analysis_reply w)) as [f rq].
  destruct (log_analysis f rq) as [[]|e]; [|discriminate].
  intros ->. simpl. eexists. split; [reflexivity|]. simpl.
  rewrite app_nil_r. repeat split. apply calls_no_evaluation.
Qed.

Lemma single_submission_shortcut_witness :
  exists r,
    snd (generate o_openai w_scores_only) = Ok r /\
    r_model r = "OpenAI GPT-4o" /\
    forallb (fun e => negb (is_evaluation e))
            (fst (generate o_openai w_scores_only)) = true.
Proof.
  destruct (@single_submission_shortcut o_openai w_scores_only
              (submission_of w_scores_only openai "// code by openai"))
    as [r [Hr [_ [Hm [_ Hev]]]]].
  - reflexivity.
  - exists r. repeat split; assumption.
Defined.

(** *** Evaluator fallback *)

(** The winner a reply names: its winner field when that is truthy,
    otherwise the model of its first scores entry. *)
Lemma winning_model_winner_field (kv : list (string * json)) (j : json) :
  lookup kv "winner" = Some j -> truthy_json j = true ->
  winning_model (JObj kv) = Ok (Some j).
Proof.
  intros Hl Ht. unfold winning_model, or_else. simpl. rewrite Hl. simpl.
  now rewrite Ht.
Qed.

Lemma winning_model_first_score (kv entry : list (string * json)) (l : list json) :
  lookup kv "winner" = None ->
  lookup kv "scores" = Some (JArr (JObj entry :: l)) ->
  winning_model (JObj kv) = Ok (lookup entry "model").
Proof.
  intros Hw Hs. unfold winning_model, or_else. simpl. rewrite Hw. simpl.
  now rewrite Hs.
Qed.

Lemma winning_model_unreadable (kv : list (string * json)) :
  lookup kv "winner" = None -> lookup kv "scores" = None ->
  winning_model (JObj kv) = Throw TypeError.
Proof.
  intros Hw Hs. unfold winning_model, or_else. simpl. rewrite Hw. simpl.
  now rewrite Hs.
Qed.

Lemma judge_falls_back (res : json) (first : submission) (subs : list submission) :
  (forall name, winning_model res = Ok name ->
                forall s, In s subs -> name <> Some (JStr (model s))) ->
  judge (Parsed res) first subs = Ok first \/
  exists e, judge (Parsed res) first subs = Throw e.
Proof.
  intro H. unfold judge.
  destruct (winning_model res) as [name|e]; simpl; [|right; now exists e].
  rewrite (find_None name subs (H name eq_refl)).
  destruct (log_winner res) as [[]|e]; simpl; [now left | right; now exists e].
Qed.

(** C4, as the code has it. In every run with several submissions, when the
    evaluation call fails, when its content is not JSON, or when the winner
    the reply names -- its winner field or, for want of one, the model of
    its first scores entry -- is no collected submission's model, the
    first submission collected is the winner, and [generate] returns. *)
Theorem evaluator_fallback_first (o : orchestrator) (w : world)
        (first second : submission) (rest : list submission) :
  collected o w = first :: second :: rest ->
  (evaluation_reply w = InvokeFails \/
   (exists text, evaluation_reply w = NotJson text) \/
   (exists res,
      evaluation_reply w = Parsed res /\
      forall name, winning_model res = Ok name ->
                   forall s, In s (first :: second :: rest) ->
                             name <> Some (JStr (model s)))) ->
  exists r,
    snd (generate o w) = Ok r /\
    r_code r = code first /\ r_model r = model first /\
    submissions (executionDetails r) = first :: second :: rest.
Proof.
  unfold collected, generate.
  destruct (analyze (analysis_reply w)) as [f rq].
  destruct (log_analysis f rq) as [[]|e]; [|discriminate].
  intros -> Hcase. unfold select.
  assert (Hbest :
    match judge (evaluation_reply w) first (first :: second :: rest) with
    | Ok best => best
    | Throw _ => first
    end = first).
  { destruct Hcase as [-> | [[t ->] | [res [-> Hno]]]]; try reflexivity.
    destruct (judge_falls_back res first _ Hno) as [-> | [e ->]]; reflexivity. }
  rewrite Hbest. eexists. split; [reflexivity|]. simpl. repeat split.
Qed.

Lemma evaluator_fallback_first_witness :
  exists r,
    snd (generate o_two w_unknown_winner) = Ok r /\
    r_model r = "Claude 3.5 Sonnet" /\
    map model (submissions (executionDetails r))
      = ["Claude 3.5 Sonnet"; "OpenAI GPT-4o"].
Proof.
  destruct (@evaluator_fallback_first o_two w_unknown_winner
              (submission_of w_unknown_winner claude "// code by claude")
              (submission_of w_unknown_winner openai "// code by openai") [])
    as [r [Hr [_ [Hm Hs]]]].
  - reflexivity.
  - right. right. exists (JObj [("winner", JStr "GPT-5"); ("winnerScore", JNum (9 # 1))]).
    split; [reflexivity|].
    intros name Hname s Hs. vm_compute in Hname. injection Hname as <-.
    destruct Hs as [<- | [<- | []]]; discriminate.
  - exists r. split; [exact Hr|]. split; [exact Hm|]. now rewrite Hs.
Defined.

(** C4 as stated fails: a reply without a winner field still names a winner
    through its first scores entry, and that submission wins over the first. *)
Lemma winner_omitted_scores_entry_wins :
  ~ (forall (o : orchestrator) (w : world) first second rest,
       collected o w = first :: second :: rest ->
       (evaluation_reply w = InvokeFails \/
        (exists text, evaluation_reply w = NotJson text) \/
        (exists kv, evaluation_reply w = Parsed (JObj kv) /\
                    lookup kv "winner" = None) \/
        (exists kv n, evaluation_reply w = Parsed (JObj kv) /\
                      lookup kv "winner" = Some (JStr n) /\
                      forall s, In s (first :: second :: rest) -> model s <> n)) ->
       exists r, snd (generate o w) = Ok r /\ r_model r = model first).
Proof.
  intro H.
  destruct (H o_two w_scores_only
              (submission_of w_scores_only openai "// code by openai")
              (submission_of w_scores_only claude "// code by claude") [])
    as [r [Hr Hm]].
  - reflexivity.
  - right. right. left. eexists. split; reflexivity.
  - vm_compute in Hr. injection Hr as <-. discriminate Hm.
Qed.

(** *** Requirement analysis fallback *)

Lemma analyze_no_record (r : reply) :
  no_record r = true -> analyze r = (default_framework, default_requirements).
Proof. destruct r as [| |[]]; simpl; intro H; try reflexivity. discriminate H. Qed.

(** C5, as the code has it. When the analysis call fails or its reply
    yields no record, the framework is "react" and the requirements are
    ["basic functionality"]; the run goes on: every enabled adapter is
    called, a result carries these defaults, and the only error the run can
    end in is the no-models error. *)
Theorem analysis_fallback_defaults (o : orchestrator) (w : world) :
  no_record (analysis_reply w) = true ->
  analyze (analysis_reply w) = (JStr "react", JArr [JStr "basic functionality"]) /\
  (forall a, enabled o a = true ->
             In (EvGenerate a (generation o w a)) (fst (generate o w))) /\
  (forall r, snd (generate o w) = Ok r ->
             framework (executionDetails r) = JStr "react" /\
             requirements (executionDetails r) = JArr [JStr "basic functionality"]) /\
  (forall e, snd (generate o w) = Throw e -> e = no_models /\ collect o w = []).
Proof.
  intro H. split; [now apply analyze_no_record|].
  unfold generate. rewrite (analyze_no_record _ H). simpl.
  assert (Hcalls : forall a, enabled o a = true ->
            In (EvGenerate a (generation o w a))
               (map (fun a => EvGenerate a (generation o w a)) (launched o))).
  { intros a Ha. apply in_map_iff. exists a. split; [reflexivity|].
    now apply launched_In. }
  destruct (collect o w) as [|first rest]; simpl.
  - split; [intros a Ha; right; now apply Hcalls|].
    split; [intros r Hr; discriminate Hr|].
    intros e He. injection He as <-. now split.
  - destruct (select w first rest) as [evals best]. simpl.
    split; [intros a Ha; right; apply in_or_app; left; now apply Hcalls|].
    split; [intros r Hr; injection Hr as <-; now split|].
    intros e He. discriminate He.
Qed.

Lemma analysis_fallback_defaults_witness :
  analyze (analysis_reply w_analysis_down)
    = (JStr "react", JArr [JStr "basic functionality"]) /\
  In (EvGenerate claude (Ok "// code by claude"))
     (fst (generate o_two w_analysis_down)).
Proof.
  destruct (@analysis_fallback_defaults o_two w_analysis_down) as [Ha [Hc _]].
  - reflexivity.
  - split; [exact Ha|]. apply (Hc claude). reflexivity.
Defined.

(** C5 as stated fails: the fallback framework is not "generic UI". *)
Lemma analysis_fallback_is_not_generic_ui :
  ~ (forall w : world,
       no_record (analysis_reply w) = true ->
       analyze (analysis_reply w)
         = (JStr "generic UI", JArr [JStr "basic functionality"])).
Proof.
  intro H. specialize (H w_analysis_down eq_refl). discriminate H.
Qed.

(** *** The reported score *)

(** C10. Every result [generate] returns carries the score 8.5, that is
    17/2, whatever the judge reported. *)
Theorem returned_score_is_fixed (o : orchestrator) (w : world) (r : result) :
  snd (generate o w) = Ok r -> r_score r = (17 # 2)%Q.
Proof.
  unfold generate.
  destruct (analyze (analysis_reply w)) as [f rq].
  destruct (log_analysis f rq) as [[]|e]; [|discriminate].
  destruct (collect o w) as [|first rest]; [discriminate|].
  destruct (select w first rest) as [evals best]. simpl.
  intro H. injection H as <-. reflexivity.
Qed.

Lemma returned_score_is_fixed_witness :
  exists r,
    snd (generate o_two w_winner_claude) = Ok r /\
    r_model r = "Claude 3.5 Sonnet" /\
    In (EvEvaluate reply_winner_claude) (fst (generate o_two w_winner_claude)) /\
    r_score r = (17 # 2)%Q.
Proof.
  eexists. split; [vm_compute; reflexivity|].
  split; [reflexivity|]. split; [vm_compute; tauto|].
  apply (@returned_score_is_fixed o_two w_winner_claude). vm_compute. reflexivity.
Defined.

Lemma returned_score_single_submission :
  exists r,
    snd (generate o_openai w_winner_claude) = Ok r /\
    forallb (fun e => negb (is_evaluation e))
            (fst (generate o_openai w_winner_claude)) = true /\
    r_score r = (17 # 2)%Q.
Proof.
  eexists. split; [vm_compute; reflexivity|]. split; reflexivity.
Qed.

End OrchestratorFacts.

(* ================================================================== *)
(** * Properties of PreviewDeployment.processCode *)
(* ================================================================== *)

Module FilesFacts.
Import Files.

Lemma get_set_same (f : t) (k v : string) : get (set f k v) k = Some v.
Proof.
  induction f as [|[k' v'] f IH]; simpl.
  - now rewrite String.eqb_refl.
  - destruct (String.eqb k' k) eqn:E; simpl; rewrite E; [reflexivity | exact IH].
Qed.

Lemma get_set_other (f : t) (k k' v : string) :
  k <> k' -> get (set f k v) k' = get f k'.
Proof.
  intro Hne. induction f as [|[k0 v0] f IH]; simpl.
  - apply String.eqb_neq in Hne. now rewrite Hne.
  - destruct (String.eqb k0 k) eqn:E; simpl.
    + apply String.eqb_eq in E. subst k0.
      apply String.eqb_neq in Hne. now rewrite Hne.
    + now rewrite IH.
Qed.

Lemma keys_set_In (f : t) (k v x : string) :
  In x (keys (set f k v)) <-> x = k \/ In x (keys f).
Proof.
  unfold keys. induction f as [|[k' v'] f IH]; simpl.
  - intuition.
  - destruct (String.eqb k' k) eqn:E; simpl.
    + apply String.eqb_eq in E. subst k'. intuition.
    + rewrite IH. intuition.
Qed.

Lemma keys_set_NoDup (f : t) (k v : string) :
  NoDup (keys f) -> NoDup (keys (set f k v)).
Proof.
  induction f as [|[k' v'] f IH]; simpl; intro H.
  - constructor; [intros [] | constructor].
  - inversion H as [|? ? Hnotin Hnd]; subst.
    destruct (String.eqb k' k) eqn:E; simpl.
    + now constructor.
    + constructor; [|now apply IH].
      fold (keys (set f k v)). rewrite keys_set_In. intros [-> | Hin].
      * now rewrite String.eqb_refl in E.
      * now apply Hnotin.
Qed.

Lemma get_Some_In (f : t) (k v : string) : get f k = Some v -> In k (keys f).
Proof.
  induction f as [|[k' v'] f IH]; simpl; [discriminate|].
  destruct (String.eqb k' k) eqn:E.
  - apply String.eqb_eq in E. now left.
  - intro H. right. now apply IH.
Qed.

Lemma get_None_notin (f : t) (k : string) : get f k = None -> ~ In k (keys f).
Proof.
  induction f as [|[k' v'] f IH]; simpl; [tauto|].
  destruct (String.eqb k' k) eqn:E; [discriminate|].
  intros H [Hk | Hin].
  - subst. now rewrite String.eqb_refl in E.
  - now apply IH.
Qed.

Lemma keys_append_at_In (f : t) (k x y : string) :
  In y (keys (append_at f k x)) <-> y = k \/ In y (keys f).
Proof. apply keys_set_In. Qed.

End FilesFacts.

Module PreviewFacts.
Import JsString Regex PreviewDeployment Scenarios FilesFacts.

(** *** Strings *)

Lemma append_assoc (a b c : string) : (a ++ b) ++ c = a ++ (b ++ c).
Proof. induction a as [|x a IH]; simpl; [reflexivity | now rewrite IH]. Qed.

Lemma append_empty_r (a : string) : a ++ EmptyString = a.
Proof. induction a as [|x a IH]; simpl; [reflexivity | now rewrite IH]. Qed.

Lemma truthy_append_r (a b : string) : truthy b = true -> truthy (a ++ b) = true.
Proof. destruct a; simpl; auto. Qed.

Lemma prefix_app (p a b : string) :
  String.prefix p a = true -> String.prefix p (a ++ b) = true.
Proof.
  revert a. induction p as [|x p IH]; intros a H.
  { destruct (a ++ b); reflexivity. }
  destruct a as [|y a]; simpl in *; [discriminate H|].
  destruct (Ascii.ascii_dec x y); [now apply IH | discriminate H].
Qed.

Lemma includes_app_l (a b sub : string) :
  includes a sub = true -> includes (a ++ b) sub = true.
Proof.
  induction a as [|x a IH]; simpl; intro H.
  - rewrite orb_false_r in H. destruct sub; [|discriminate H].
    destruct b; reflexivity.
  - apply orb_true_iff in H. apply orb_true_iff. destruct H as [H|H].
    + left. now apply (prefix_app sub (String x a) b).
    + right. now apply IH.
Qed.

Lemma includes_app_r (a b sub : string) :
  includes b sub = true -> includes (a ++ b) sub = true.
Proof.
  intro H. induction a as [|x a IH]; simpl; [exact H|].
  apply orb_true_iff. now right.
Qed.

Lemma join_modules_snoc (ts : list string) (t : string) :
  join_modules (ts ++ [t]) = join_modules ts ++ (t ++ nl ++ nl).
Proof.
  induction ts as [|t' ts IH]; simpl.
  - now rewrite append_empty_r.
  - now rewrite IH, !append_assoc.
Qed.

Lemma join_modules_truthy (ts : list string) :
  ts <> [] -> truthy (join_modules ts) = true.
Proof.
  destruct ts as [|t ts]; [congruence|]. intros _. simpl.
  rewrite append_assoc. apply truthy_append_r. reflexivity.
Qed.

(** *** The loop over the blocks *)

Lemma forEach_fold (code : string) (ms : list rmatch) (index : nat) (files : Files.t) :
  forEach code index ms files
  = fold_left apply_action (classify_all code index ms) files.
Proof.
  revert index files. induction ms as [|mt ms IH]; intros; simpl; [reflexivity|].
  apply IH.
Qed.

Lemma classify_ok (code : string) (index : nat) (mt : rmatch) :
  action_ok (classify code index mt).
Proof.
  unfold classify.
  destruct (negb (truthy (blockContent mt))); simpl; [exact I|].
  destruct (resolve_name _ _ _) as [fileName|]; simpl; [|exact I].
  destruct (is_module_name fileName) eqn:E.
  - destruct (is_index_file _); exact I.
  - exact E.
Qed.

Lemma classify_all_ok (code : string) (ms : list rmatch) (index : nat) :
  Forall action_ok (classify_all code index ms).
Proof.
  revert index. induction ms as [|mt ms IH]; intro; simpl; constructor.
  - apply classify_ok.
  - apply IH.
Qed.

Lemma inv_empty : inv Files.empty [].
Proof. constructor; simpl; [constructor | tauto | reflexivity]. Qed.

Lemma inv_step (files : Files.t) (ts : list string) (a : action) :
  inv files ts -> action_ok a -> inv (apply_action files a) (ts ++ merged_of a).
Proof.
  intros [Hnd Hmod Happ] Hok. destruct a as [|t|fileName content]; simpl.
  - rewrite app_nil_r. now constructor.
  - assert (Hget : Files.get
               (if negb (Files.truthy_at files "App.tsx")
                then Files.set files "App.tsx" EmptyString else files) "App.tsx"
             = Some (join_modules ts)).
    { unfold Files.truthy_at. rewrite Happ. destruct ts as [|t0 ts0].
      - simpl. apply get_set_same.
      - rewrite (join_modules_truthy (t0 :: ts0)) by discriminate.
        simpl negb. cbv iota. exact Happ. }
    assert (Hkeys : forall k,
               In k (Files.keys
                 (if negb (Files.truthy_at files "App.tsx")
                  then Files.set files "App.tsx" EmptyString else files)) ->
               k = "App.tsx" \/ In k (Files.keys files)).
    { intro k. destruct (negb _); [apply keys_set_In | tauto]. }
    assert (Hnd' : NoDup (Files.keys
                 (if negb (Files.truthy_at files "App.tsx")
                  then Files.set files "App.tsx" EmptyString else files))).
    { destruct (negb _); [now apply keys_set_NoDup | exact Hnd]. }
    unfold Files.append_at. rewrite Hget. constructor.
    + now apply keys_set_NoDup.
    + intros k Hk Hm. apply keys_set_In in Hk. destruct Hk as [-> | Hk]; [reflexivity|].
      destruct (Hkeys k Hk) as [-> | Hk']; [reflexivity | now apply Hmod].
    + rewrite get_set_same, join_modules_snoc.
      destruct (ts ++ [t])%list eqn:E; [now destruct ts | reflexivity].
  - simpl in Hok. rewrite app_nil_r. constructor.
    + now apply keys_set_NoDup.
    + intros k Hk Hm. apply keys_set_In in Hk. destruct Hk as [-> | Hk].
      * congruence.
      * now apply Hmod.
    + rewrite get_set_other; [exact Happ|].
      intros ->. discriminate Hok.
Qed.

Lemma inv_fold (acts : list action) (files : Files.t) (ts : list string) :
  inv files ts -> Forall action_ok acts ->
  inv (fold_left apply_action acts files) (ts ++ flat_map merged_of acts).
Proof.
  revert files ts. induction acts as [|a acts IH]; intros files ts Hinv Hok; simpl.
  - now rewrite app_nil_r.
  - inversion Hok as [|? ? Ha Hacts]; subst.
    rewrite app_assoc. apply IH; [|exact Hacts]. now apply inv_step.
Qed.

(** *** Exposing the main component and completing the entry document *)

Lemma expose_main_keys (files : Files.t) (k : string) :
  In k (Files.keys (expose_main files)) <-> In k (Files.keys files).
Proof.
  unfold expose_main.
  destruct (Files.get files "App.tsx") as [app|] eqn:E; [|tauto].
  destruct (truthy app); [|tauto].
  destruct (exec mainComponentRegex app); [|tauto].
  destruct (negb _); [|tauto].
  rewrite keys_append_at_In. split; [|tauto].
  intros [-> | H]; [now apply get_Some_In with app | exact H].
Qed.

Lemma expose_main_NoDup (files : Files.t) :
  NoDup (Files.keys files) -> NoDup (Files.keys (expose_main files)).
Proof.
  intro H. unfold expose_main.
  destruct (Files.get files "App.tsx") as [app|]; [|exact H].
  destruct (truthy app); [|exact H].
  destruct (exec mainComponentRegex app); [|exact H].
  destruct (negb _); [|exact H].
  now apply keys_set_NoDup.
Qed.

Lemma expose_main_app (files : Files.t) (app : string) :
  Files.get files "App.tsx" = Some app ->
  exists suffix,
    Files.get (expose_main files) "App.tsx" = Some (app ++ suffix) /\
    (suffix = EmptyString \/
     exists name, suffix = nl ++ "window.App = " ++ name ++ ";" ++ nl).
Proof.
  intro E. unfold expose_main. rewrite E.
  assert (Hsame : exists suffix,
            Files.get files "App.tsx" = Some (app ++ suffix) /\
            (suffix = EmptyString \/
             exists name, suffix = nl ++ "window.App = " ++ name ++ ";" ++ nl)).
  { exists EmptyString. rewrite append_empty_r. split; [exact E | now left]. }
  destruct (truthy app); [|exact Hsame].
  destruct (exec mainComponentRegex app) as [mt|]; [|exact Hsame].
  destruct (negb _); [|exact Hsame].
  exists (nl ++ "window.App = " ++ capture1 mt ++ ";" ++ nl). split.
  - unfold Files.append_at. rewrite E. apply get_set_same.
  - right. now exists (capture1 mt).
Qed.

Lemma ensure_html_keys (files : Files.t) (k : string) :
  In k (Files.keys (ensure_html files)) ->
  k = "index.html" \/ In k (Files.keys files).
Proof.
  unfold ensure_html.
  destruct (existsb is_module_name (Files.keys files)); [|tauto].
  destruct (_ || _); [apply keys_set_In | tauto].
Qed.

Lemma ensure_html_keeps (files : Files.t) (k : string) :
  In k (Files.keys files) -> In k (Files.keys (ensure_html files)).
Proof.
  intro H. unfold ensure_html.
  destruct (existsb is_module_name (Files.keys files)); [|exact H].
  destruct (_ || _); [|exact H]. apply keys_set_In. now right.
Qed.

Lemma ensure_html_NoDup (files : Files.t) :
  NoDup (Files.keys files) -> NoDup (Files.keys (ensure_html files)).
Proof.
  intro H. unfold ensure_html.
  destruct (existsb is_module_name (Files.keys files)); [|exact H].
  destruct (_ || _); [now apply keys_set_NoDup | exact H].
Qed.

Lemma ensure_html_get_other (files : Files.t) (k : string) :
  k <> "index.html" -> Files.get (ensure_html files) k = Files.get files k.
Proof.
  intro Hne. unfold ensure_html.
  destruct (existsb is_module_name (Files.keys files)); [|reflexivity].
  destruct (_ || _); [|reflexivity].
  apply get_set_other. congruence.
Qed.

Lemma ensure_html_index (files : Files.t) (k : string) :
  In k (Files.keys files) -> is_module_name k = true ->
  In "index.html" (Files.keys (ensure_html files)).
Proof.
  intros Hk Hm. unfold ensure_html.
  assert (Hex : existsb is_module_name (Files.keys files) = true)
    by (apply existsb_exists; now exists k).
  rewrite Hex.
  destruct (negb _ || negb _) eqn:E.
  - apply keys_set_In. now left.
  - apply orb_false_elim in E. destruct E as [_ E].
    apply negb_false_iff, andb_true_iff in E. destruct E as [E _].
    destruct (Files.get files "index.html") as [v|] eqn:G.
    + now apply get_Some_In with v.
    + simpl in E. discriminate E.
Qed.

Lemma processCode_fenced (code : string) (mt : rmatch) (ms : list rmatch) :
  detected_blocks code = mt :: ms ->
  processCode code
  = ensure_html (expose_main (fold_left apply_action (actions code) Files.empty)).
Proof.
  unfold processCode, actions, detected_blocks.
  destruct (includes code "```"); [|discriminate].
  intro E. rewrite E. now rewrite forEach_fold.
Qed.

Lemma processCode_no_blocks (code : string) :
  includes code "```" = true -> detected_blocks code = [] ->
  processCode code = [("index.html", wrapInHtml no_blocks_notice)].
Proof.
  unfold detected_blocks, processCode. intros -> ->. reflexivity.
Qed.

Lemma fold_inv (code : string) :
  inv (fold_left apply_action (actions code) Files.empty) (module_texts code).
Proof.
  apply (inv_fold (actions code) Files.empty [] inv_empty).
  apply classify_all_ok.
Qed.

(** *** Module merging *)

(** X28. When processCode merges two or more blocks of a text, App.tsx
    is the concatenation of their transformed contents in detection order
    (followed at most by the statement that exposes the main component); no
    other key of the file set is a module name, and the file set has
    App.tsx and index.html exactly once each. *)
Theorem module_merging (code : string) :
  2 <= List.length (module_texts code) ->
  (exists suffix,
     Files.get (processCode code) "App.tsx"
       = Some (join_modules (module_texts code) ++ suffix) /\
     (suffix = EmptyString \/
      exists name, suffix = nl ++ "window.App = " ++ name ++ ";" ++ nl)) /\
  (forall k, In k (Files.keys (processCode code)) ->
             is_module_name k = true -> k = "App.tsx") /\
  count_occ string_dec (Files.keys (processCode code)) "App.tsx" = 1 /\
  count_occ string_dec (Files.keys (processCode code)) "index.html" = 1.
Proof.
  intro Hlen.
  destruct (detected_blocks code) as [|mt ms] eqn:Hblocks.
  { exfalso. unfold module_texts, actions in Hlen. rewrite Hblocks in Hlen.
    simpl in Hlen. lia. }
  rewrite (processCode_fenced code mt ms Hblocks).
  destruct (fold_inv code) as [Hnd Hmod Happ].
  set (files := fold_left apply_action (actions code) Files.empty) in *.
  destruct (module_texts code) as [|t ts] eqn:Hts; [simpl in Hlen; lia|].
  destruct (expose_main_app files _ Happ) as [suffix [Hget Hsuffix]].
  assert (Happ_in : In "App.tsx" (Files.keys (ensure_html (expose_main files)))).
  { apply ensure_html_keeps, expose_main_keys. now apply get_Some_In with (join_modules (t :: ts)). }
  assert (Hnd' : NoDup (Files.keys (ensure_html (expose_main files))))
    by now apply ensure_html_NoDup, expose_main_NoDup.
  split; [|split; [|split]].
  - exists suffix. split; [|exact Hsuffix].
    rewrite ensure_html_get_other by discriminate. exact Hget.
  - intros k Hk Hm. apply ensure_html_keys in Hk. destruct Hk as [-> | Hk].
    + vm_compute in Hm. discriminate Hm.
    + apply (proj1 (expose_main_keys files k)) in Hk. now apply Hmod.
  - now apply NoDup_count_occ'.
  - apply NoDup_count_occ'; [exact Hnd'|].
    apply ensure_html_index with "App.tsx"; [|reflexivity].
    apply expose_main_keys. now apply get_Some_In with (join_modules (t :: ts)).
Qed.

Lemma module_merging_witness :
  module_texts two_components
    = [ "function Header() { return <h1>Title</h1>; }" ++ nl ++ "window.App = Header;";
        "function App() { return <main>Body</main>; }" ++ nl ++ "window.App = App;" ] /\
  Files.keys (processCode two_components) = ["App.tsx"; "index.html"] /\
  count_occ string_dec (Files.keys (processCode two_components)) "index.html" = 1.
Proof.
  split; [vm_compute; reflexivity|]. split; [vm_compute; reflexivity|].
  apply (module_merging two_components). vm_compute. lia.
Defined.

(** *** File names *)

Lemma fenced_module_keys (code : string) (k : string) :
  includes code "```" = true ->
  In k (Files.keys (processCode code)) -> is_module_name k = true ->
  k = "App.tsx".
Proof.
  intros Hinc Hk Hm.
  destruct (detected_blocks code) as [|mt ms] eqn:Hblocks.
  - rewrite (processCode_no_blocks code Hinc Hblocks) in Hk.
    destruct Hk as [<- | []]. vm_compute in Hm. discriminate Hm.
  - rewrite (processCode_fenced code mt ms Hblocks) in Hk.
    destruct (fold_inv code) as [_ Hmod _].
    apply ensure_html_keys in Hk. destruct Hk as [-> | Hk].
    + vm_compute in Hm. discriminate Hm.
    + apply (proj1 (expose_main_keys _ k)) in Hk. now apply Hmod.
Qed.

Lemma unfenced_keys (code : string) :
  includes code "```" = false ->
  Files.keys (processCode code) = ["src/App.tsx"; "index.html"] \/
  Files.keys (processCode code) = ["index.html"].
Proof.
  intro Hinc. unfold processCode. rewrite Hinc.
  destruct (_ || _); [left; reflexivity|].
  destruct (_ || _); right; reflexivity.
Qed.

(** X29. In the file set of processCode, before deploy, a file with a
    module name is App.tsx when the text has the fence marker and src/App.tsx
    when it has not; whenever a module is present so is index.html, as it
    is for every text without the marker; the manifest deploy synthesizes
    is package.json, and it is synthesized exactly when the file set has no
    package.json with content. *)
Theorem file_naming_contract (code : string) :
  (forall k, In k (Files.keys (processCode code)) -> is_module_name k = true ->
             k = if includes code "```" then "App.tsx" else "src/App.tsx") /\
  ((exists k, In k (Files.keys (processCode code)) /\ is_module_name k = true) ->
   In "index.html" (Files.keys (processCode code))) /\
  (includes code "```" = false -> In "index.html" (Files.keys (processCode code))) /\
  (forall deploymentId,
     match synthesized_manifest code deploymentId with
     | Some (path, _) =>
         path = "package.json" /\
         Files.truthy_at (processCode code) "package.json" = false
     | None => Files.truthy_at (processCode code) "package.json" = true
     end).
Proof.
  assert (Hun : includes code "```" = false ->
                In "index.html" (Files.keys (processCode code))).
  { intro Hinc. destruct (unfenced_keys code Hinc) as [-> | ->]; simpl; tauto. }
  split; [|split; [|split]].
  - intros k Hk Hm. destruct (includes code "```") eqn:Hinc.
    + now apply fenced_module_keys with code.
    + destruct (unfenced_keys code Hinc) as [E | E]; rewrite E in Hk.
      * destruct Hk as [<- | [<- | []]]; [reflexivity|].
        vm_compute in Hm. discriminate Hm.
      * destruct Hk as [<- | []]. vm_compute in Hm. discriminate Hm.
  - intros [k [Hk Hm]]. destruct (includes code "```") eqn:Hinc; [|now apply Hun].
    destruct (detected_blocks code) as [|mt ms] eqn:Hblocks.
    + rewrite (processCode_no_blocks code Hinc Hblocks). now left.
    + rewrite (processCode_fenced code mt ms Hblocks) in *.
      apply ensure_html_keys in Hk. destruct Hk as [-> | Hk].
      * vm_compute in Hm. discriminate Hm.
      * now apply ensure_html_index with k.
  - exact Hun.
  - intro deploymentId. unfold synthesized_manifest.
    destruct (Files.truthy_at (processCode code) "package.json"); simpl; auto.
Qed.

Lemma file_naming_contract_witness :
  Files.keys (processCode bare_component) = ["src/App.tsx"; "index.html"] /\
  Files.keys (processCode two_components) = ["App.tsx"; "index.html"] /\
  In "index.html" (Files.keys (processCode bare_component)) /\
  match synthesized_manifest two_components "1a2b3c4d" with
  | Some (path, _) => path = "package.json"
  | None => False
  end.
Proof.
  split; [vm_compute; reflexivity|]. split; [vm_compute; reflexivity|]. split.
  - assert (H : includes bare_component "```" = false) by (vm_compute; reflexivity).
    exact (proj1 (proj2 (proj2 (file_naming_contract bare_component))) H).
  - pose proof (proj2 (proj2 (proj2 (file_naming_contract two_components))) "1a2b3c4d") as H.
    vm_compute in H. vm_compute. tauto.
Defined.

(** In the file set of processCode a component without fences is stored
    as src/App.tsx; it reaches the root when buildProject copies src. *)
Lemma unfenced_module_is_under_src :
  ~ (forall code k, In k (Files.keys (processCode code)) ->
                    is_module_name k = true -> k = "App.tsx").
Proof.
  intro H. specialize (H bare_component "src/App.tsx").
  assert (E : "src/App.tsx" = "App.tsx"); [|discriminate E].
  apply H; vm_compute; tauto.
Qed.

(** *** The binding of window.App *)

(** C6 (the code at the failing input). For a fenced arrow-function
    component processCode produces the module App.tsx, whose text is the
    block unchanged and never mentions window.App, and an entry document
    that reads window.App. *)
Theorem arrow_component_is_not_bound :
  processCode arrow_component
    = [ ("App.tsx", "const App = () => <div>Hello</div>;" ++ nl ++ nl);
        ("index.html", createIndexHtml "Generated App") ] /\
  transformForBrowser "const App = () => <div>Hello</div>;"
    = "const App = () => <div>Hello</div>;" /\
  includes ("const App = () => <div>Hello</div>;" ++ nl ++ nl) "window.App" = false /\
  includes (createIndexHtml "Generated App") "window.App" = true.
Proof. repeat split; vm_compute; reflexivity. Qed.

(** Where the binding is made: the placeholder carries it, and a text with
    a function declaration and no mention of window.App receives it. *)
Lemma placeholder_binds : includes placeholder "window.App = App;" = true.
Proof. vm_compute. reflexivity. Qed.

Lemma bind_first_function_binds (s : string) (mt : rmatch) :
  exec function_decl s = Some mt ->
  includes (bind_first_function s) "window.App" = true.
Proof.
  intro E. unfold bind_first_function. rewrite E.
  destruct (includes s "window.App") eqn:H.
  - exact H.
  - cbn [negb]. apply includes_app_r. reflexivity.
Qed.

Lemma bind_first_function_unmatched (s : string) :
  exec function_decl s = None -> bind_first_function s = s.
Proof. intro E. unfold bind_first_function. now rewrite E. Qed.

Lemma expose_binds (t : string) :
  test function_decl (expose t) = true ->
  includes (expose t) "window.App" = true.
Proof.
  unfold expose. destruct (includes t "export default").
  - set (t2 := replaceAll export_default_function _ _).
    destruct (test function_decl t2) eqn:Ht.
    + intros _. unfold test in Ht.
      destruct (exec function_decl t2) as [mt|] eqn:E; [|discriminate Ht].
      exact (bind_first_function_binds t2 mt E).
    + intro H. rewrite Ht in H. discriminate H.
  - destruct (exec function_decl t) as [mt|] eqn:E.
    + intros _. exact (bind_first_function_binds t mt E).
    + rewrite (bind_first_function_unmatched t E). unfold test. rewrite E.
      intro H. discriminate H.
Qed.

(** The transformed module mentions window.App whenever it declares a
    function with the function keyword. *)
Lemma declared_function_is_bound (code : string) :
  test function_decl (transformForBrowser code) = true ->
  includes (transformForBrowser code) "window.App" = true.
Proof.
  unfold transformForBrowser. destruct (_ || _).
  - intros _. vm_compute. reflexivity.
  - apply expose_binds.
Qed.

(** *** Texts without a fenced block *)

(** A text without the fence marker and without a module or document
    signature becomes one entry document around the trimmed text. *)
Lemma plain_text_is_wrapped (code : string) :
  includes code "```" = false ->
  includes (trim code) "import React" = false ->
  includes (trim code) "export default function" = false ->
  includes (trim code) "<!DOCTYPE html>" = false ->
  includes (trim code) "<html" = false ->
  processCode code = [("index.html", wrap_head ++ trim code ++ wrap_tail)].
Proof.
  intros H1 H2 H3 H4 H5. unfold processCode, wrapInHtml.
  now rewrite H1, H2, H3, H4, H5.
Qed.

(** C8 (the code at the failing input). A reply cut off before its closing
    fence contains the marker but no block; its text is dropped: the only
    file is an entry document around a fixed comment. *)
Theorem unclosed_fence_text_is_dropped :
  includes unclosed_fence "```" = true /\
  detected_blocks unclosed_fence = [] /\
  processCode unclosed_fence
    = [("index.html", wrap_head ++ no_blocks_notice ++ wrap_tail)] /\
  includes (wrap_head ++ no_blocks_notice ++ wrap_tail) "function App" = false /\
  processCode plain_text
    = [("index.html", wrap_head ++ "Sorry, I cannot help with that." ++ wrap_tail)].
Proof. repeat split; vm_compute; reflexivity. Qed.

End PreviewFacts.

(* ================================================================== *)
(** * Further properties of MultiLLMOrchestrator *)
(* ================================================================== *)

Module OrchestratorMore.
Import JsString Json Orchestrator Scenarios MoreScenarios OrchestratorFacts.

(** *** The constructor *)

Lemma key_inj (a b : adapter) : key a = key b -> a = b.
Proof. destruct a, b; simpl; intro H; try reflexivity; discriminate H. Qed.

Lemma key_usable_Some (v : option string) :
  key_usable v = true -> exists k, v = Some k /\ truthy k = true.
Proof.
  destruct v as [k|]; simpl; [|discriminate].
  intro H. apply andb_true_iff in H. exists k. now split.
Qed.

Lemma NoDup_map_key (l : list adapter) : NoDup l -> NoDup (map key l).
Proof.
  induction 1 as [|a l Hnotin Hnd IH]; simpl; constructor; [|exact IH].
  rewrite in_map_iff. intros [b [Hb Hin]]. apply key_inj in Hb. now subst.
Qed.

Lemma construct_inv (env : string -> option string) (o : orchestrator) :
  construct env = Ok o ->
  key_usable (env (env_var openai)) = true /\
  o = {| client := fun a => if key_usable (env (env_var a))
                            then env (env_var a) else None;
         availableModels :=
           map key (filter (fun a => key_usable (env (env_var a))) all_adapters) |}.
Proof.
  unfold construct. cbv zeta.
  destruct (key_usable (env (env_var openai))) eqn:Eo; cbv beta iota delta [negb];
    [|discriminate].
  intro H. split; [reflexivity|].
  apply (f_equal (fun r => match r with Ok x => x | Throw _ => o end)) in H.
  cbv beta iota in H. now rewrite <- H.
Qed.

(** X1. An orchestrator the constructor builds enables exactly the adapters
    whose key is usable (set, not empty, without the text of the template),
    OpenAI among them; it launches them in the fixed order, and its
    [availableModels] has no entry twice. *)
Theorem constructed_enables_usable_keys (env : string -> option string)
        (o : orchestrator) :
  construct env = Ok o ->
  (forall a, enabled o a = key_usable (env (env_var a))) /\
  enabled o openai = true /\
  launched o = filter (fun a => key_usable (env (env_var a))) all_adapters /\
  NoDup (availableModels o).
Proof.
  intro Hc. destruct (construct_inv env o Hc) as [Eo ->].
  assert (Hen : forall a,
            enabled
              {| client := fun a => if key_usable (env (env_var a))
                                    then env (env_var a) else None;
                 availableModels :=
                   map key (filter (fun a => key_usable (env (env_var a)))
                                   all_adapters) |} a
            = key_usable (env (env_var a))).
  { intro a. unfold enabled. cbn [client availableModels].
    destruct (key_usable (env (env_var a))) eqn:E.
    - assert (Hs : is_some (env (env_var a)) = true)
        by (destruct (key_usable_Some _ E) as [k [-> _]]; reflexivity).
      rewrite Hs. cbn [andb].
      apply existsb_exists. exists (key a). split; [|apply String.eqb_refl].
      apply in_map. apply filter_In. split; [apply all_adapters_complete | exact E].
    - reflexivity. }
  split; [exact Hen|]. split; [now rewrite Hen|]. split.
  - unfold launched. apply filter_ext. exact Hen.
  - exact (NoDup_map_key _ (NoDup_filter _ all_adapters_NoDup)).
Qed.

Lemma constructed_enables_usable_keys_witness :
  launched (constructed env_template) = [openai; grok] /\
  enabled (constructed env_template) claude = false.
Proof.
  destruct (constructed_enables_usable_keys env_template (constructed env_template))
    as [Hen [_ [Hl _]]].
  - reflexivity.
  - split; [rewrite Hl; reflexivity | rewrite Hen; reflexivity].
Defined.


(** *** The clients *)

Lemma constructed_client (env : string -> option string) (o : orchestrator)
      (a : adapter) :
  construct env = Ok o -> enabled o a = true ->
  exists apiKey, client o a = Some apiKey /\ truthy apiKey = true.
Proof.
  intro Hc. destruct (construct_inv env o Hc) as [_ ->].
  unfold enabled. cbn [client].
  destruct (key_usable (env (env_var a))) eqn:E; [|discriminate].
  intros _. now apply key_usable_Some.
Qed.

(** X2. The three clients of the repository (GrokChat, LlamaGroqChat,
    DeepSeekChat), given a key: [invoke] returns a content exactly when the
    service replied with it, and whatever else happens to the request it
    throws the one error of its class. *)
Theorem chat_invoke_with_key (a : adapter) (apiKey : string) (r : remote_outcome) :
  truthy apiKey = true ->
  (forall content, chat_invoke a apiKey r = Ok content <-> r = Replied content) /\
  (forall e, chat_invoke a apiKey r = Throw e -> e = Error (failure_message a)).
Proof.
  intro Hk. unfold chat_invoke. rewrite Hk. cbn [negb]. split.
  - intro content. destruct r; split; intro H; try discriminate H;
      injection H as <-; reflexivity.
  - intros e H. destruct r; try discriminate H; injection H as <-; reflexivity.
Qed.

Lemma chat_invoke_with_key_witness :
  chat_invoke grok "xai-test-3" TimedOut = Throw (Error "Grok generation failed") /\
  forall e, chat_invoke grok "xai-test-3" (NonSuccess 429) = Throw e ->
            e = Error "Grok generation failed".
Proof.
  split; [reflexivity|].
  apply (chat_invoke_with_key grok "xai-test-3" (NonSuccess 429)). reflexivity.
Defined.

Lemma generation_replied (env : string -> option string) (o : orchestrator)
      (w : world) (a : adapter) (content : string) :
  construct env = Ok o -> enabled o a = true ->
  generation o w a = Ok content -> remote w a = Replied content.
Proof.
  intros Hc Ha. destruct (constructed_client env o a Hc Ha) as [k [Hk Ht]].
  unfold generation, invoke, chat_invoke, library_invoke. rewrite Hk, Ht.
  cbn [negb]. destruct (axios_based a); destruct (remote w a); intro H;
    try discriminate H; injection H as <-; reflexivity.
Qed.

(** X3. In a run of an orchestrator the constructor builds, every collected
    submission comes from an enabled adapter whose service replied: its
    code is the content of that reply, its model and reasoning are the
    adapter's, its time the duration of that call. The notice a client
    without a key returns is never submitted. *)
Theorem submissions_are_replies (env : string -> option string)
        (o : orchestrator) (w : world) (s : submission) :
  construct env = Ok o -> In s (collected o w) ->
  exists a,
    enabled o a = true /\ remote w a = Replied (code s) /\
    model s = model_name a /\ reasoning s = reasoning_of a /\
    executionTime s = elapsed w a.
Proof.
  intros Hc. unfold collected.
  destruct (analyze (analysis_reply w)) as [f rq].
  destruct (log_analysis f rq) as [[]|e]; [|intros []].
  intro Hs. apply collect_In in Hs. destruct Hs as [a [c [Ha [Hg ->]]]].
  exists a. cbn [code model reasoning executionTime submission_of].
  split; [exact Ha|]. split; [now apply generation_replied with env o|].
  repeat split.
Qed.

Lemma submissions_are_replies_witness :
  exists a, enabled o_two a = true /\
            remote w_openai_fails a = Replied "// code by claude".
Proof.
  destruct (submissions_are_replies env_two o_two w_openai_fails
              (submission_of w_openai_fails claude "// code by claude"))
    as [a [Ha [Hr _]]].
  - reflexivity.
  - vm_compute. tauto.
  - exists a. split; assumption.
Defined.


(** *** The winner *)

Lemma find_In (name : jsval) (l : list submission) (s : submission) :
  find name l = Some s -> In s l /\ name = Some (JStr (model s)).
Proof.
  induction l as [|x l IH]; simpl; [discriminate|].
  destruct name as [[| | |n| |]|]; try discriminate.
  destruct (String.eqb (model x) n) eqn:E.
  - intro H. injection H as <-. apply String.eqb_eq in E. subst n.
    split; [now left | reflexivity].
  - intro H. destruct (IH H) as [Hin Hn]. split; [now right | exact Hn].
Qed.

Lemma find_unique (l : list submission) (s : submission) :
  NoDup (map model l) -> In s l -> find (Some (JStr (model s))) l = Some s.
Proof.
  induction l as [|x l IH]; simpl; intros Hnd Hin; [destruct Hin|].
  inversion Hnd as [|? ? Hnotin Hnd']; subst.
  destruct Hin as [-> | Hin].
  - now rewrite String.eqb_refl.
  - destruct (String.eqb (model x) (model s)) eqn:E.
    + apply String.eqb_eq in E. exfalso. apply Hnotin. rewrite E.
      now apply in_map.
    + now apply IH.
Qed.

Lemma judge_In (r : reply) (first : submission) (subs : list submission)
      (best : submission) :
  In first subs -> judge r first subs = Ok best -> In best subs.
Proof.
  intros Hf. unfold judge. destruct r as [|t|res]; try discriminate.
  destruct (winning_model res) as [name|e]; simpl; [|discriminate].
  destruct (log_winner res) as [[]|e]; simpl; [|discriminate].
  intro H. injection H as <-.
  destruct (find name subs) as [s|] eqn:E; [|exact Hf].
  now apply find_In in E.
Qed.

Lemma select_In (w : world) (first : submission) (rest : list submission) :
  In (snd (select w first rest)) (first :: rest).
Proof.
  unfold select. destruct rest as [|second rest]; simpl snd; [now left|].
  destruct (judge (evaluation_reply w) first (first :: second :: rest))
    as [best|e] eqn:E; [|now left].
  apply judge_In in E; [exact E | now left].
Qed.

(** X4. The code and the model [generate] returns are those of one and the
    same collected submission. *)
Theorem winner_is_a_submission (o : orchestrator) (w : world) (r : result) :
  snd (generate o w) = Ok r ->
  exists s, In s (submissions (executionDetails r)) /\
            r_code r = code s /\ r_model r = model s.
Proof.
  unfold generate.
  destruct (analyze (analysis_reply w)) as [f rq].
  destruct (log_analysis f rq) as [[]|e]; [|discriminate].
  destruct (collect o w) as [|first rest]; [discriminate|].
  pose proof (select_In w first rest) as Hin.
  destruct (select w first rest) as [evals best]. simpl in Hin.
  cbn [snd]. intro H. injection H as <-. exists best.
  cbn [executionDetails submissions r_code r_model]. now repeat split.
Qed.

Lemma winner_is_a_submission_witness :
  exists s, In s (collected o_two w_winner_claude) /\
            model s = "Claude 3.5 Sonnet".
Proof.
  destruct (winner_is_a_submission o_two w_winner_claude
              {| r_code := "// code by claude";
                 r_model := "Claude 3.5 Sonnet";
                 r_score := fixed_score;
                 r_models := ["Claude 3.5 Sonnet"; "OpenAI GPT-4o"];
                 executionDetails :=
                   {| submissions := collected o_two w_winner_claude;
                      totalModels := 2;
                      framework := JStr "vue";
                      requirements := JArr [JStr "responsive design"; JStr "modern UI"] |} |})
    as [s [Hin [_ Hm]]].
  - vm_compute. reflexivity.
  - exists s. split; [exact Hin | now rewrite <- Hm].
Defined.

(** *** The calls of a run *)

Lemma filter_calls_evaluation (o : orchestrator) (w : world) (l : list adapter) :
  filter is_evaluation (map (fun a => EvGenerate a (generation o w a)) l) = [].
Proof. induction l; simpl; auto. Qed.

(** X5. Every run starts with the analysis call, and it asks the judge for
    an evaluation exactly when it has collected two submissions or more:
    then once, otherwise never. *)
Theorem evaluation_call_count (o : orchestrator) (w : world) :
  hd_error (fst (generate o w)) = Some (EvAnalysis (analysis_reply w)) /\
  filter is_evaluation (fst (generate o w))
  = if 2 <=? List.length (collected o w)
    then [EvEvaluate (evaluation_reply w)] else [].
Proof.
  unfold generate, collected.
  destruct (analyze (analysis_reply w)) as [f rq].
  destruct (log_analysis f rq) as [[]|e]; [|split; reflexivity].
  destruct (collect o w) as [|first rest].
  - split; [reflexivity|]. cbn [fst]. simpl filter.
    now rewrite filter_calls_evaluation.
  - unfold select. destruct rest as [|second rest]; cbn [fst].
    + split; [reflexivity|]. rewrite app_nil_r. simpl filter.
      now rewrite filter_calls_evaluation.
    + split; [reflexivity|]. simpl filter. rewrite filter_app.
      now rewrite filter_calls_evaluation.
Qed.

(** X6. A run collects at most one submission per launched adapter, so at
    most seven; a result reports at least one, and its counts agree. *)
Theorem submission_bounds (o : orchestrator) (w : world) :
  List.length (collected o w) <= List.length (launched o) /\
  List.length (launched o) <= 7 /\
  forall r, snd (generate o w) = Ok r ->
            1 <= totalModels (executionDetails r) <= 7 /\
            totalModels (executionDetails r)
              = List.length (submissions (executionDetails r)) /\
            List.length (r_models r) = totalModels (executionDetails r).
Proof.
  assert (Hflat : forall l, List.length (flat_map (attempt o w) l) <= List.length l).
  { induction l as [|a l IH]; simpl; [lia|].
    rewrite length_app. unfold attempt at 1.
    destruct (generation o w a); simpl; lia. }
  assert (Hcol : List.length (collect o w) <= List.length (launched o)).
  { unfold collect. rewrite <- (Permutation_length (settle_order_Permutation o w)).
    apply Hflat. }
  assert (Hl : List.length (launched o) <= 7).
  { unfold launched. apply (filter_length_le (enabled o) all_adapters). }
  split; [|split; [exact Hl|]].
  - unfold collected. destruct (analyze (analysis_reply w)) as [f rq].
    destruct (log_analysis f rq); [exact Hcol | simpl; lia].
  - intro r. unfold generate.
    destruct (analyze (analysis_reply w)) as [f rq].
    destruct (log_analysis f rq) as [[]|e]; [|discriminate].
    destruct (collect o w) as [|first rest]; [discriminate|].
    destruct (select w first rest) as [evals best]. cbn [snd].
    intro H. injection H as <-.
    cbn [executionDetails totalModels submissions r_models].
    simpl List.length in *. rewrite length_map. lia.
Qed.


(** *** The judge's verdict *)

Lemma collect_model_truthy (o : orchestrator) (w : world) (s : submission) :
  In s (collect o w) -> truthy (model s) = true.
Proof.
  intro H. apply collect_In in H. destruct H as [a [c [_ [_ ->]]]].
  now destruct a.
Qed.

(** X7. In a run with several submissions, when the evaluation names a
    collected submission in its winner field and carries a non-zero
    winnerScore, that submission wins, wherever it stands in the list. *)
Theorem named_winner_wins (o : orchestrator) (w : world)
        (first second : submission) (rest : list submission)
        (s : submission) (kv : list (string * json)) (q : Q) :
  collected o w = first :: second :: rest ->
  In s (first :: second :: rest) ->
  evaluation_reply w = Parsed (JObj kv) ->
  lookup kv "winner" = Some (JStr (model s)) ->
  lookup kv "winnerScore" = Some (JNum q) -> Qeq_bool q 0 = false ->
  exists r, snd (generate o w) = Ok r /\ r_code r = code s /\ r_model r = model s.
Proof.
  unfold collected, generate.
  destruct (analyze (analysis_reply w)) as [f rq].
  destruct (log_analysis f rq) as [[]|e]; [|discriminate].
  intros E Hin Hr Hw Hs Hq.
  assert (Ht : truthy (model s) = true)
    by (apply (collect_model_truthy o w); rewrite E; exact Hin).
  assert (Hfind : find (Some (JStr (model s))) (first :: second :: rest) = Some s).
  { apply find_unique; [|exact Hin]. rewrite <- E. apply collect_models_NoDup. }
  rewrite E. unfold select. rewrite Hr. unfold judge.
  rewrite (winning_model_winner_field kv (JStr (model s)) Hw Ht).
  cbn [bind]. rewrite Hfind.
  unfold log_winner, or_else. cbn [getprop bind]. rewrite Hs.
  cbn [truthy_val truthy_json]. rewrite Hq. cbn [negb bind to_string_val_throws
    to_string_throws].
  eexists. split; [reflexivity|]. split; reflexivity.
Qed.

Lemma named_winner_wins_witness :
  exists r, snd (generate o_two w_winner_claude_late) = Ok r /\
            r_model r = "Claude 3.5 Sonnet" /\
            map model (submissions (executionDetails r))
              = ["OpenAI GPT-4o"; "Claude 3.5 Sonnet"].
Proof.
  destruct (named_winner_wins o_two w_winner_claude_late
              (submission_of w_winner_claude_late openai "// code by openai")
              (submission_of w_winner_claude_late claude "// code by claude") []
              (submission_of w_winner_claude_late claude "// code by claude")
              [("scores",
                 JArr [JObj [("model", JStr "OpenAI GPT-4o"); ("score", JNum (8 # 1))];
                       JObj [("model", JStr "Claude 3.5 Sonnet"); ("score", JNum (97 # 10))]]);
                ("winner", JStr "Claude 3.5 Sonnet");
                ("winnerScore", JNum (97 # 10))] (97 # 10))
    as [r [Hr [_ Hm]]]; try reflexivity.
  - right. now left.
  - exists r. split; [exact Hr|]. split; [exact Hm|].
    vm_compute in Hr. injection Hr as <-. reflexivity.
Defined.

(** X8. In a run with several submissions, an evaluation that has neither
    a truthy winnerScore nor a scores list makes the first submission win,
    whatever winner it names: the statement that logs the winner throws
    inside the [try] block, and the [catch] clause resets the choice. *)
Theorem verdict_without_score_is_lost (o : orchestrator) (w : world)
        (first second : submission) (rest : list submission)
        (kv : list (string * json)) :
  collected o w = first :: second :: rest ->
  evaluation_reply w = Parsed (JObj kv) ->
  truthy_val (lookup kv "winnerScore") = false ->
  lookup kv "scores" = None ->
  exists r, snd (generate o w) = Ok r /\
            r_code r = code first /\ r_model r = model first.
Proof.
  unfold collected, generate.
  destruct (analyze (analysis_reply w)) as [f rq].
  destruct (log_analysis f rq) as [[]|e]; [|discriminate].
  intros E Hr Hs Hsc. rewrite E. unfold select. rewrite Hr.
  assert (Hlog : log_winner (JObj kv) = Throw TypeError).
  { unfold log_winner, or_else. cbn [getprop bind]. rewrite Hs.
    cbn [bind]. now rewrite Hsc. }
  assert (Hj : exists e, judge (Parsed (JObj kv)) first (first :: second :: rest)
                         = Throw e).
  { unfold judge. destruct (winning_model (JObj kv)) as [name|e];
      cbn [bind]; [|now exists e].
    rewrite Hlog. cbn [bind]. now exists TypeError. }
  destruct Hj as [e ->].
  eexists. split; [reflexivity|]. split; reflexivity.
Qed.

Lemma verdict_without_score_is_lost_witness :
  exists r, snd (generate o_two w_winner_only) = Ok r /\
            r_model r = "OpenAI GPT-4o" /\
            r_models r = ["OpenAI GPT-4o"; "Claude 3.5 Sonnet"].
Proof.
  destruct (verdict_without_score_is_lost o_two w_winner_only
              (submission_of w_winner_only openai "// code by openai")
              (submission_of w_winner_only claude "// code by claude") []
              [("winner", JStr "Claude 3.5 Sonnet")])
    as [r [Hr [_ Hm]]]; try reflexivity.
  exists r. split; [exact Hr|]. split; [exact Hm|].
  vm_compute in Hr. injection Hr as <-. reflexivity.
Defined.

(** *** How a run can fail *)

(** X9. [generate] is rejected in two ways only: with a TypeError thrown by
    the log statement behind the analysis, before any generation call; or
    with the no-models error, after the generation call of every enabled
    adapter has thrown. No error of an adapter or of the judge reaches the
    caller. *)
Theorem generate_failure_modes (o : orchestrator) (w : world) (e : exn) :
  snd (generate o w) = Throw e ->
  (e = TypeError /\
   fst (generate o w) = [EvAnalysis (analysis_reply w)] /\
   log_analysis (fst (analyze (analysis_reply w)))
                (snd (analyze (analysis_reply w))) = Throw TypeError) \/
  (e = no_models /\
   fst (generate o w)
     = EvAnalysis (analysis_reply w)
       :: map (fun a => EvGenerate a (generation o w a)) (launched o) /\
   forall a, enabled o a = true -> exists e', generation o w a = Throw e').
Proof.
  unfold generate.
  destruct (analyze (analysis_reply w)) as [f rq]. cbn [fst snd].
  unfold log_analysis.
  destruct (to_string_throws f || join_throws rq).
  - cbn [snd fst]. intro H. injection H as <-. left. now repeat split.
  - destruct (collect o w) as [|first rest] eqn:E.
    + cbn [snd fst]. intro H. injection H as <-. right.
      split; [reflexivity|]. split; [reflexivity|].
      intros a Ha. destruct (generation o w a) as [c|e'] eqn:G; [|now exists e'].
      assert (Hin : In (submission_of w a c) (collect o w))
        by (apply collect_In; now exists a, c).
      rewrite E in Hin. destruct Hin.
    + destruct (select w first rest) as [evals best]. cbn [snd].
      intro H. discriminate H.
Qed.

Lemma generate_failure_modes_witness :
  fst (generate o_openai w_text_requirements_all_fail)
  = [EvAnalysis reply_text_requirements].
Proof.
  destruct (generate_failure_modes o_openai w_text_requirements_all_fail TypeError)
    as [[_ [Ht _]] | [Hne _]].
  - reflexivity.
  - exact Ht.
  - discriminate Hne.
Defined.

(** X10. When the judge's analysis carries requirements that are truthy but
    not a list (a text, a number, an object), the run stops with a
    TypeError right after the analysis: no adapter is called and the
    analysis is not replaced by the defaults. *)
Theorem requirements_must_be_a_list (o : orchestrator) (w : world)
        (kv : list (string * json)) (v : json) :
  analysis_reply w = Parsed (JObj kv) ->
  lookup kv "requirements" = Some v -> truthy_json v = true ->
  (forall l, v <> JArr l) ->
  generate o w = ([EvAnalysis (analysis_reply w)], Throw TypeError).
Proof.
  intros Hr Hl Ht Hv. unfold generate. rewrite Hr.
  unfold analyze. cbn [getprop]. rewrite Hl. cbn [or_default]. rewrite Ht.
  unfold log_analysis.
  assert (Hj : join_throws v = true)
    by (destruct v; try reflexivity; now destruct (Hv l)).
  rewrite Hj, orb_true_r. reflexivity.
Qed.

Lemma requirements_must_be_a_list_witness :
  generate o_two w_text_requirements_all_fail
  = ([EvAnalysis reply_text_requirements], Throw TypeError).
Proof.
  apply (requirements_must_be_a_list o_two w_text_requirements_all_fail
           [("framework", JStr "react"); ("requirements", JStr "responsive design")]
           (JStr "responsive design")); try reflexivity.
  intros l H. discriminate H.
Defined.

(** *** The order of arrival *)

(** X11. Two runs that differ only in the order in which the calls settle
    collect the same submissions, in a different order at most. *)
Theorem arrival_only_permutes (o : orchestrator) (w1 w2 : world) :
  analysis_reply w1 = analysis_reply w2 ->
  (forall a, remote w1 a = remote w2 a) ->
  (forall a, elapsed w1 a = elapsed w2 a) ->
  Permutation (collected o w1) (collected o w2).
Proof.
  intros Ha Hr He. unfold collected. rewrite Ha.
  destruct (analyze (analysis_reply w2)) as [f rq].
  destruct (log_analysis f rq); [|constructor].
  assert (Hat : forall a, attempt o w1 a = attempt o w2 a).
  { intro a. unfold attempt, generation, submission_of. now rewrite Hr, He. }
  apply Permutation_trans with (flat_map (attempt o w1) (launched o)).
  - apply collect_Permutation.
  - rewrite (flat_map_ext _ _ Hat). apply Permutation_sym, collect_Permutation.
Qed.

Lemma arrival_only_permutes_witness :
  Permutation (collected o_two w_winner_claude) (collected o_two w_winner_claude_late) /\
  map model (collected o_two w_winner_claude) = ["Claude 3.5 Sonnet"; "OpenAI GPT-4o"] /\
  map model (collected o_two w_winner_claude_late) = ["OpenAI GPT-4o"; "Claude 3.5 Sonnet"].
Proof.
  split; [|split; reflexivity].
  apply (arrival_only_permutes o_two w_winner_claude w_winner_claude_late);
    reflexivity.
Defined.

(** *** The analysis *)

(** X12. The framework and the requirements the analysis yields are never
    falsy: a truthy field of the judge's record is taken as it is, whatever
    its type, and anything else gives way to "react" and to
    ["basic functionality"]. *)
Theorem analysis_values_are_truthy (r : reply) :
  truthy_json (fst (analyze r)) = true /\
  truthy_json (snd (analyze r)) = true /\
  forall kv,
    r = Parsed (JObj kv) ->
    fst (analyze r) = or_default (lookup kv "framework") (JStr "react") /\
    snd (analyze r)
      = or_default (lookup kv "requirements") (JArr [JStr "basic functionality"]).
Proof.
  assert (Hor : forall v d, truthy_json d = true -> truthy_json (or_default v d) = true).
  { intros [j|] d Hd; simpl; [|exact Hd]. destruct (truthy_json j) eqn:E; auto. }
  split; [|split].
  - destruct r as [|t|[| | | | |kv]]; simpl; try reflexivity.
    apply Hor. reflexivity.
  - destruct r as [|t|[| | | | |kv]]; simpl; try reflexivity.
    apply Hor. reflexivity.
  - intros kv ->. simpl. split; reflexivity.
Qed.

End OrchestratorMore.

(* ================================================================== *)
(** * Further properties of PreviewDeployment *)
(* ================================================================== *)

Module PreviewMore.
Import JsString Regex PreviewDeployment Scenarios MorePreview FilesFacts PreviewFacts.

(** Finds the piece of a concatenation that contains a text. *)
Ltac find_piece :=
  repeat first [ solve [apply includes_app_l; vm_compute; reflexivity]
               | apply includes_app_r ].

(** *** wrapInHtml *)

Lemma prefix_refl (s : string) : String.prefix s s = true.
Proof.
  induction s as [|x s IH]; [reflexivity|]. simpl.
  destruct (Ascii.ascii_dec x x) as [_|n]; [exact IH | now destruct n].
Qed.

Lemma includes_refl (s : string) : includes s s = true.
Proof.
  destruct s as [|x s]; [reflexivity|].
  change (includes (String x s) (String x s))
    with (String.prefix (String x s) (String x s) || includes s (String x s)).
  now rewrite prefix_refl.
Qed.

(** X13. What wrapInHtml returns always contains an html element, and
    wrapping it again changes nothing. *)
Theorem wrapInHtml_idempotent (content : string) :
  includes (wrapInHtml content) "<html" = true /\
  wrapInHtml (wrapInHtml content) = wrapInHtml content.
Proof.
  assert (Hhead : includes wrap_head "<html" = true) by (vm_compute; reflexivity).
  assert (H : includes (wrapInHtml content) "<html" = true).
  { unfold wrapInHtml. destruct (includes content "<html") eqn:E; [exact E|].
    now apply includes_app_l. }
  split; [exact H|]. unfold wrapInHtml at 1. now rewrite H.
Qed.

(** *** Texts without the fence marker *)

(** X14. A text without the fence marker is never lost: trimmed, it stands
    verbatim in one of the files processCode returns. *)
Theorem unfenced_text_is_kept (code : string) :
  includes code "```" = false ->
  exists k v, Files.get (processCode code) k = Some v /\
              includes v (trim code) = true.
Proof.
  intro Hinc. unfold processCode. rewrite Hinc.
  destruct (_ || _).
  - exists "src/App.tsx", (trim code). split; [|apply includes_refl].
    rewrite get_set_other by discriminate. apply get_set_same.
  - destruct (_ || _) eqn:Hhtml.
    + exists "index.html", (trim code). split; [apply get_set_same | apply includes_refl].
    + exists "index.html", (wrapInHtml (trim code)). split; [apply get_set_same|].
      unfold wrapInHtml. destruct (includes (trim code) "<html"); [apply includes_refl|].
      apply includes_app_r, includes_app_l, includes_refl.
Qed.

Lemma unfenced_text_is_kept_witness :
  exists k v, Files.get (processCode plain_text) k = Some v /\
              includes v "Sorry, I cannot help with that." = true.
Proof.
  apply (unfenced_text_is_kept plain_text). vm_compute. reflexivity.
Defined.

(** *** Blocks that fit no rule *)

Lemma fold_skips (acts : list action) (files : Files.t) :
  Forall (fun a => a = Skip) acts -> fold_left apply_action acts files = files.
Proof.
  revert files. induction acts as [|a acts IH]; intros files H; [reflexivity|].
  inversion H as [|? ? Ha Hacts]; subst. simpl. now apply IH.
Qed.

(** X15. When a text has fenced blocks and every one of them is skipped
    (empty, fitting no rule, or a render file), processCode returns no file
    at all, not even an entry document. *)
Theorem skipped_blocks_leave_nothing (code : string) :
  detected_blocks code <> [] ->
  Forall (fun a => a = Skip) (actions code) ->
  processCode code = [].
Proof.
  intros Hb Hs. destruct (detected_blocks code) as [|mt ms] eqn:E; [congruence|].
  rewrite (processCode_fenced code mt ms E), (fold_skips _ _ Hs). reflexivity.
Qed.

Lemma skipped_blocks_leave_nothing_witness :
  processCode unclassified_block = [].
Proof.
  apply (skipped_blocks_leave_nothing unclassified_block).
  - vm_compute. discriminate.
  - vm_compute. repeat constructor.
Defined.

(** *** The entry document of a module bundle *)

(** X16. Whenever the file set holds an application module, its index.html
    mentions both react and babel: an entry document from the text is kept
    only if it does, and is replaced by the synthesized one otherwise. *)
Theorem module_entry_loads_runtime (code : string) (k : string) :
  In k (Files.keys (processCode code)) -> is_module_name k = true ->
  exists html,
    Files.get (processCode code) "index.html" = Some html /\
    includes html "react" = true /\ includes html "babel" = true.
Proof.
  assert (Hgen : forall title,
            includes (createIndexHtml title) "react" = true /\
            includes (createIndexHtml title) "babel" = true).
  { intro title. unfold createIndexHtml. split; find_piece. }
  intros Hk Hm. destruct (includes code "```") eqn:Hinc.
  - destruct (detected_blocks code) as [|mt ms] eqn:Hblocks.
    + rewrite (processCode_no_blocks code Hinc Hblocks) in Hk.
      destruct Hk as [<- | []]. vm_compute in Hm. discriminate Hm.
    + rewrite (processCode_fenced code mt ms Hblocks) in *.
      set (files := expose_main _) in *.
      apply ensure_html_keys in Hk. destruct Hk as [-> | Hk];
        [vm_compute in Hm; discriminate Hm|].
      unfold ensure_html.
      assert (Hex : existsb is_module_name (Files.keys files) = true)
        by (apply existsb_exists; now exists k).
      rewrite Hex. destruct (negb _ || negb _) eqn:E.
      * exists (createIndexHtml "Generated App").
        split; [apply get_set_same | apply Hgen].
      * apply orb_false_elim in E. destruct E as [_ E].
        apply negb_false_iff, andb_true_iff in E.
        destruct (Files.get files "index.html") as [v|] eqn:G.
        -- exists v. split; [reflexivity|].
           unfold or_empty in E. destruct (truthy v); [exact E|].
           destruct E as [E _]. discriminate E.
        -- destruct E as [E _]. discriminate E.
  - unfold processCode in *. rewrite Hinc in *.
    destruct (_ || _).
    + exists (createIndexHtml "React App"). split; [apply get_set_same | apply Hgen].
    + exfalso. destruct (_ || _); destruct Hk as [<- | []];
        vm_compute in Hm; discriminate Hm.
Qed.

Lemma module_entry_loads_runtime_witness :
  exists html,
    Files.get (processCode two_components) "index.html" = Some html /\
    includes html "react" = true /\ includes html "babel" = true.
Proof.
  apply (module_entry_loads_runtime two_components "App.tsx").
  - vm_compute. tauto.
  - reflexivity.
Defined.


(** *** Blocks saved under the same name *)

Lemma apply_action_get (files : Files.t) (a : action) (k : string) :
  k <> "App.tsx" ->
  Files.get (apply_action files a) k
  = match a with
    | Save name content =>
        if String.eqb name k then Some content else Files.get files k
    | _ => Files.get files k
    end.
Proof.
  intro Hk. destruct a as [|t|name content]; cbn [apply_action].
  - reflexivity.
  - unfold Files.append_at. rewrite get_set_other by congruence.
    destruct (negb _); [|reflexivity]. apply get_set_other. congruence.
  - destruct (String.eqb name k) eqn:E.
    + apply String.eqb_eq in E. subst. apply get_set_same.
    + apply String.eqb_neq in E. now apply get_set_other.
Qed.

Lemma fold_get_saved (acts : list action) (files : Files.t) (k : string) :
  k <> "App.tsx" ->
  Files.get (fold_left apply_action acts files) k
  = match last_saved k acts with
    | Some content => Some content
    | None => Files.get files k
    end.
Proof.
  intro Hk. revert files. induction acts as [|a acts IH]; intro files;
    [reflexivity|].
  cbn [fold_left last_saved]. rewrite IH.
  destruct (last_saved k acts); [reflexivity|].
  rewrite (apply_action_get files a k Hk).
  destruct a as [|t|name content]; try reflexivity.
  destruct (String.eqb name k); reflexivity.
Qed.

Lemma expose_main_get_other (files : Files.t) (k : string) :
  k <> "App.tsx" -> Files.get (expose_main files) k = Files.get files k.
Proof.
  intro Hk. unfold expose_main.
  destruct (Files.get files "App.tsx") as [app|]; [|reflexivity].
  destruct (truthy app); [|reflexivity].
  destruct (exec mainComponentRegex app); [|reflexivity].
  destruct (negb _); [|reflexivity].
  apply get_set_other. congruence.
Qed.

(** X17. When several blocks of a text are saved under one name (other
    than a module name or index.html), the file holds the content of the
    last of them: a later block silently replaces an earlier one. A name
    under which nothing was saved is absent. *)
Theorem later_block_overwrites (code fileName : string) :
  detected_blocks code <> [] ->
  is_module_name fileName = false -> fileName <> "index.html" ->
  Files.get (processCode code) fileName = last_saved fileName (actions code).
Proof.
  intros Hb Hm Hi.
  assert (Hk : fileName <> "App.tsx") by (intros ->; discriminate Hm).
  destruct (detected_blocks code) as [|mt ms] eqn:E; [congruence|].
  rewrite (processCode_fenced code mt ms E).
  rewrite ensure_html_get_other by exact Hi.
  rewrite expose_main_get_other by exact Hk.
  rewrite (fold_get_saved _ _ _ Hk).
  destruct (last_saved fileName (actions code)); reflexivity.
Qed.

Lemma later_block_overwrites_witness :
  Files.get (processCode two_stylesheets) "styles.css" = Some "body { color: red; }" /\
  actions two_stylesheets
    = [Save "styles.css" "body { margin: 0; }"; Save "styles.css" "body { color: red; }"].
Proof.
  split; [|vm_compute; reflexivity].
  rewrite (later_block_overwrites two_stylesheets "styles.css").
  - vm_compute. reflexivity.
  - vm_compute. discriminate.
  - reflexivity.
  - discriminate.
Defined.

(** *** The binding made by transformForBrowser *)

Lemma declared_function_is_bound_witness :
  transformForBrowser "function Hello() { return <p>Hello</p>; }"
    = "function Hello() { return <p>Hello</p>; }" ++ nl ++ "window.App = Hello;" /\
  includes (transformForBrowser "function Hello() { return <p>Hello</p>; }")
           "window.App" = true.
Proof.
  split; [vm_compute; reflexivity|].
  apply (declared_function_is_bound "function Hello() { return <p>Hello</p>; }").
  vm_compute. reflexivity.
Defined.

End PreviewMore.

(* ================================================================== *)
(** * Soundness of the matcher *)
(* ================================================================== *)

Module RegexFacts.
Import JsString Regex RegexLanguage.
Local Open Scope list_scope.

Lemma firstn_app_length (t s : list ascii) :
  firstn (List.length (t ++ s) - List.length s) (t ++ s) = t.
Proof.
  rewrite length_app. replace (List.length t + List.length s - List.length s)
    with (List.length t + 0) by lia.
  rewrite firstn_app_2. simpl. apply app_nil_r.
Qed.

(** Soundness of the matcher: when a match succeeds, the pattern matched a
    prefix of the input, the continuation ran on the rest, and the
    captures it received are those of the match put before the earlier
    ones. *)
Lemma m_sound (r : re) :
  forall prev s c k res,
    m r prev s c k = Some res ->
    exists t s' prev' new,
      s = t ++ s' /\ matches r t new /\ k prev' s' (new ++ c) = Some res.
Proof.
  induction r as [|p|a IHa b IHb|a IHa b IHb|g a IHa|n a IHa|a IHa|];
    intros prev s c k res H.
  - exists [], s, prev, []. repeat split; [constructor | exact H].
  - simpl in H. destruct s as [|x s']; [discriminate|].
    destruct (p x) eqn:E; [|discriminate].
    exists [x], s', (Some x), []. repeat split; [now constructor | exact H].
  - simpl in H. apply IHa in H. destruct H as [t1 [s1 [p1 [n1 [-> [M1 H]]]]]].
    apply IHb in H. destruct H as [t2 [s2 [p2 [n2 [-> [M2 H]]]]]].
    exists (t1 ++ t2), s2, p2, (n2 ++ n1). rewrite <- !app_assoc.
    repeat split; [now constructor | exact H].
  - simpl in H. unfold orelse in H.
    destruct (m a prev s c k) as [x|] eqn:E.
    + injection H as <-. apply IHa in E.
      destruct E as [t [s' [p' [new [-> [M E]]]]]].
      exists t, s', p', new. repeat split; [now apply M_AltL | exact E].
    + apply IHb in H. destruct H as [t [s' [p' [new [-> [M H]]]]]].
      exists t, s', p', new. repeat split; [now apply M_AltR | exact H].
  - simpl in H. remember (List.length s) as fuel eqn:Hfuel. clear Hfuel.
    revert prev s c res H. induction fuel as [|fuel IHf]; intros prev s c res H.
    + destruct g; unfold orelse in H; simpl in H.
      * exists [], s, prev, []. repeat split; [constructor | exact H].
      * destruct (k prev s c) as [x|] eqn:E; [|discriminate].
        exists [], s, prev, []. repeat split; [constructor |].
        simpl. now rewrite E.
    + assert (Hiter : forall res',
                m a prev s c
                  (fun prev' s' c' =>
                     if List.length s' <? List.length s
                     then (fix loop (fuel : nat) (prev : option ascii)
                               (s : list ascii) (c : caps) {struct fuel}
                             : option mres :=
                             let iter (_ : unit) :=
                               match fuel with
                               | O => None
                               | S fuel' =>
                                   m a prev s c
                                     (fun prev' s' c' =>
                                        if List.length s' <? List.length s
                                        then loop fuel' prev' s' c' else None)
                               end in
                             if g then orelse (iter tt) (fun _ => k prev s c)
                             else orelse (k prev s c) iter) fuel prev' s' c'
                     else None) = Some res' ->
                exists t s' prev' new,
                  s = t ++ s' /\ matches (Star g a) t new /\
                  k prev' s' (new ++ c) = Some res').
      { intros res' Hm. apply IHa in Hm.
        destruct Hm as [t1 [s1 [p1 [n1 [-> [M1 Hm]]]]]].
        destruct (List.length s1 <? List.length (t1 ++ s1)); [|discriminate].
        cbv beta zeta in Hm. apply IHf in Hm.
        destruct Hm as [t2 [s2 [p2 [n2 [-> [M2 Hm]]]]]].
        exists (t1 ++ t2), s2, p2, (n2 ++ n1). rewrite <- !app_assoc.
        repeat split; [now constructor | exact Hm]. }
      destruct g; unfold orelse in H; cbv zeta in H.
      * match type of H with
        | match ?X with _ => _ end = _ => destruct X as [x|] eqn:E
        end.
        -- injection H as <-. now apply Hiter.
        -- exists [], s, prev, []. repeat split; [constructor | exact H].
      * destruct (k prev s c) as [x|] eqn:E.
        -- injection H as <-. exists [], s, prev, [].
           repeat split; [constructor | exact E].
        -- now apply Hiter.
  - simpl in H. apply IHa in H. destruct H as [t [s' [p' [new [-> [M H]]]]]].
    rewrite firstn_app_length in H.
    exists t, s', p', ((n, t) :: new). repeat split; [now constructor | exact H].
  - simpl in H.
    destruct (m a prev s c (fun p' s' c' => Some (p', s', c'))) as [[[p1 s1] c1]|] eqn:E;
      [|discriminate].
    apply IHa in E. destruct E as [t [s' [p' [new [_ [M E]]]]]].
    injection E as _ _ <-.
    exists [], s, prev, new. repeat split; [now apply (M_Look a t) | exact H].
  - simpl in H. destruct (xorb _ _); [|discriminate].
    exists [], s, prev, []. repeat split; [constructor | exact H].
Qed.

(** One attempt, and the leftmost match, in terms of [matches]. *)
Lemma match_here_sound r prev s txt c s' :
  match_here r prev s = Some (txt, c, s') ->
  s = txt ++ s' /\ matches r txt c.
Proof.
  unfold match_here. intros H.
  destruct (m r prev s [] (fun p' s' c' => Some (p', s', c'))) as [[[p1 s1] c1]|] eqn:E;
    [|discriminate].
  apply m_sound in E. destruct E as [t [s2 [p2 [new [-> [M E]]]]]].
  rewrite app_nil_r in E. injection E as _ <- <-.
  rewrite firstn_app_length in H. injection H as <- <- <-. now split.
Qed.

(** The leftmost match is a successful attempt at some position. *)
Lemma exec_from_attempt r :
  forall s idx prev mt p' s',
    exec_from r idx prev s = Some (mt, p', s') ->
    exists pre prev0,
      s = pre ++ m_text mt ++ s' /\ m_index mt = idx + List.length pre /\
      match_here r prev0 (m_text mt ++ s') = Some (m_text mt, m_caps mt, s').
Proof.
  induction s as [|x s IH]; intros idx prev mt p' s' H; simpl in H.
  - destruct (match_here r prev []) as [[[txt c] s1]|] eqn:E; [|discriminate].
    injection H as <- _ <-. pose proof (match_here_sound _ _ _ _ _ _ E) as [Es _].
    exists [], prev. simpl.
    split; [exact Es | split; [lia | rewrite <- Es; exact E]].
  - destruct (match_here r prev (x :: s)) as [[[txt c] s1]|] eqn:E.
    + injection H as <- _ <-. pose proof (match_here_sound _ _ _ _ _ _ E) as [Es _].
      exists [], prev. simpl.
    split; [exact Es | split; [lia | rewrite <- Es; exact E]].
    + apply IH in H. destruct H as [pre [prev0 [-> [Hi M]]]].
      exists (x :: pre), prev0. simpl. repeat split; [lia | exact M].
Qed.

Lemma exec_sound r s mt :
  exec r s = Some mt ->
  exists pre post,
    list_ascii_of_string s = pre ++ m_text mt ++ post /\
    m_index mt = List.length pre /\ matches r (m_text mt) (m_caps mt).
Proof.
  unfold exec. intros H.
  destruct (exec_from r 0 None (list_ascii_of_string s)) as [[[mt' p'] s']|] eqn:E;
    [|discriminate].
  injection H as ->. apply exec_from_attempt in E.
  destruct E as [pre [prev0 [E [Hi M]]]].
  apply match_here_sound in M. exists pre, s'. now repeat split.
Qed.

(** Every match of a global search is a successful attempt at its index. *)
Lemma all_from_attempt r :
  forall fuel idx prev s mt,
    In mt (all_from fuel r idx prev s) ->
    exists pre post prev0,
      s = pre ++ m_text mt ++ post /\ m_index mt = idx + List.length pre /\
      match_here r prev0 (m_text mt ++ post) = Some (m_text mt, m_caps mt, post).
Proof.
  induction fuel as [|fuel IH]; intros idx prev s mt H; [contradiction|].
  cbn [all_from] in H.
  destruct (exec_from r idx prev s) as [[[mt0 p0] s0]|] eqn:E; [|contradiction].
  pose proof (exec_from_attempt _ _ _ _ _ _ _ E) as [pre0 [prev0 [Es [Hi0 M0]]]].
  cbv zeta in H.
  assert (Hhead : mt0 = mt -> exists pre post prev0,
             s = pre ++ m_text mt ++ post /\ m_index mt = idx + List.length pre /\
             match_here r prev0 (m_text mt ++ post) = Some (m_text mt, m_caps mt, post)).
  { intros <-. exists pre0, s0, prev0. now repeat split. }
  destruct (m_text mt0) as [|y ys] eqn:Et.
  - destruct s0 as [|x s1].
    + destruct H as [H|[]]. now apply Hhead.
    + destruct H as [H|H]; [now apply Hhead|].
      apply IH in H. destruct H as [pre [post [prev1 [-> [Hi M]]]]].
      exists (pre0 ++ x :: pre), post, prev1. split; [|split; [|exact M]].
      * rewrite Es. simpl. rewrite <- app_assoc. reflexivity.
      * rewrite Hi, length_app. simpl. lia.
  - destruct H as [H|H]; [now apply Hhead|].
    apply IH in H. destruct H as [pre [post [prev1 [-> [Hi M]]]]].
    exists (pre0 ++ (y :: ys) ++ pre), post, prev1. split; [|split; [|exact M]].
    + rewrite Es. rewrite <- !app_assoc. reflexivity.
    + rewrite Hi, !length_app. simpl. lia.
Qed.

Lemma matchAll_attempt r s mt :
  In mt (matchAll r s) ->
  exists pre post prev0,
    list_ascii_of_string s = pre ++ m_text mt ++ post /\
    m_index mt = List.length pre /\
    match_here r prev0 (m_text mt ++ post) = Some (m_text mt, m_caps mt, post).
Proof. unfold matchAll. intros H. apply all_from_attempt in H. exact H. Qed.

(** Inversion of [matches] on the combinators the source's patterns use. *)
Lemma matches_Chr p t new :
  matches (Chr p) t new -> exists x, t = [x] /\ p x = true /\ new = [].
Proof. intros H. inversion H; subst. now exists x. Qed.

Lemma matches_Seq a b t new :
  matches (Seq a b) t new ->
  exists t1 t2 n1 n2,
    t = t1 ++ t2 /\ new = n2 ++ n1 /\ matches a t1 n1 /\ matches b t2 n2.
Proof. intros H. inversion H; subst. now exists t1, t2, n1, n2. Qed.

Lemma matches_Group n a t new :
  matches (Group n a) t new -> exists new', new = (n, t) :: new' /\ matches a t new'.
Proof. intros H. inversion H; subst. now eexists. Qed.

Lemma matches_star_Chr g p t new :
  matches (Star g (Chr p)) t new -> Forall (fun x => p x = true) t /\ new = [].
Proof.
  intros H. remember (Star g (Chr p)) as r eqn:Er. revert Er.
  induction H; intros Er; try discriminate.
  - split; [constructor | reflexivity].
  - injection Er as -> ->. destruct (IHmatches2 eq_refl) as [F ->].
    apply matches_Chr in H. destruct H as [x [-> [Hx ->]]].
    split; [now constructor | reflexivity].
Qed.

Lemma matches_plus_Chr p t new :
  matches (plus (Chr p)) t new ->
  t <> [] /\ Forall (fun x => p x = true) t /\ new = [].
Proof.
  unfold plus. intros H. apply matches_Seq in H.
  destruct H as [t1 [t2 [n1 [n2 [-> [-> [H1 H2]]]]]]].
  apply matches_Chr in H1. destruct H1 as [x [-> [Hx ->]]].
  apply matches_star_Chr in H2. destruct H2 as [F ->].
  repeat split; [discriminate | now constructor].
Qed.

Lemma matches_lit s :
  forall t new, matches (lit s) t new -> t = list_ascii_of_string s /\ new = [].
Proof.
  induction s as [|x s IH]; intros t new H.
  - inversion H; subst. now split.
  - destruct s as [|y s].
    + apply matches_Chr in H. destruct H as [z [-> [Hz ->]]].
      apply Ascii.eqb_eq in Hz. subst. now split.
    + change (lit (String x (String y s))) with (Seq (chr x) (lit (String y s))) in H.
      apply matches_Seq in H. destruct H as [t1 [t2 [n1 [n2 [-> [-> [H1 H2]]]]]]].
      apply matches_Chr in H1. destruct H1 as [z [-> [Hz ->]]].
      apply Ascii.eqb_eq in Hz. subst.
      apply IH in H2. destruct H2 as [-> ->]. now split.
Qed.

Lemma matches_fileNameTail ex t new :
  matches (PreviewDeployment.fileNameTail ex) t new ->
  name_shape ex t /\ new = [(1, t)].
Proof.
  unfold PreviewDeployment.fileNameTail. intros H.
  apply matches_Group in H. destruct H as [new' [-> H]].
  cbn [seq] in H.
  apply matches_Seq in H. destruct H as [t1 [t2 [n1 [n2 [-> [-> [H1 H2]]]]]]].
  apply matches_Seq in H2. destruct H2 as [t3 [t4 [n3 [n4 [-> [-> [H3 H4]]]]]]].
  apply matches_plus_Chr in H1. destruct H1 as [Ne1 [F1 ->]].
  apply matches_Chr in H3. destruct H3 as [z [-> [Hz ->]]].
  apply Ascii.eqb_eq in Hz. subst z.
  apply matches_plus_Chr in H4. destruct H4 as [Ne4 [F4 ->]].
  split; [|reflexivity].
  exists t1, t4. repeat split; try assumption.
  eapply Forall_impl; [|exact F1]. intros x Hx. cbv beta in Hx.
  now apply negb_true_iff in Hx.
Qed.

(** A lazy repetition of the any-character class stops at the first
    position where the rest of the pattern succeeds. *)
Lemma lazy_any_nil prev c k :
  m (lazy_star any) prev [] c k = k prev [] c.
Proof. simpl. unfold orelse. now destruct (k prev [] c). Qed.

Lemma lazy_any_cons x s prev c k :
  m (lazy_star any) prev (x :: s) c k =
  orelse (k prev (x :: s) c) (fun _ => m (lazy_star any) (Some x) s c k).
Proof.
  simpl. unfold orelse. destruct (k prev (x :: s) c); [reflexivity|].
  replace (List.length s <? S (List.length s)) with true; [reflexivity|].
  symmetry. apply Nat.ltb_lt. lia.
Qed.

Lemma lazy_any_first k :
  forall s prev c res,
    m (lazy_star any) prev s c k = Some res ->
    exists t s' prev',
      s = t ++ s' /\ k prev' s' c = Some res /\
      forall t1 t2, t = t1 ++ t2 -> t2 <> [] ->
                    exists p, k p (t2 ++ s') c = None.
Proof.
  induction s as [|x s IH]; intros prev c res H.
  - rewrite lazy_any_nil in H. exists [], [], prev. repeat split; [exact H|].
    intros t1 t2 E Ne. symmetry in E. apply app_eq_nil in E. now destruct E.
  - rewrite lazy_any_cons in H. unfold orelse in H.
    destruct (k prev (x :: s) c) as [r|] eqn:E.
    + injection H as <-. exists [], (x :: s), prev. repeat split; [exact E|].
      intros t1 t2 E' Ne. symmetry in E'. apply app_eq_nil in E'. now destruct E'.
    + apply IH in H. destruct H as [t [s' [p' [-> [Hk Hfirst]]]]].
      exists (x :: t), s', p'. repeat split; [exact Hk|].
      intros t1 t2 E' Ne. destruct t1 as [|y t1].
      * simpl in E'. subst t2. exists prev. exact E.
      * injection E' as <- ->. exact (Hfirst t1 t2 eq_refl Ne).
Qed.

End RegexFacts.

(* ================================================================== *)
(** * Fenced blocks and file names *)
(* ================================================================== *)

Module BlockFacts.
Import JsString Regex PreviewDeployment Scenarios MorePreview.
Import RegexLanguage RegexFacts FilesFacts PreviewFacts PreviewMore.

(** *** Strings and their lists of code units *)

Lemma list_of_app (a b : string) :
  list_ascii_of_string (a ++ b)
  = (list_ascii_of_string a ++ list_ascii_of_string b)%list.
Proof. induction a as [|x a IH]; simpl; [reflexivity | now rewrite IH]. Qed.

Lemma string_of_app (a b : list ascii) :
  string_of_list_ascii (a ++ b)%list
  = string_of_list_ascii a ++ string_of_list_ascii b.
Proof. induction a as [|x a IH]; simpl; [reflexivity | now rewrite IH]. Qed.

Lemma length_string_of (l : list ascii) :
  String.length (string_of_list_ascii l) = List.length l.
Proof. induction l as [|x l IH]; simpl; [reflexivity | now rewrite IH]. Qed.

Lemma substring0_app (pre rest : string) :
  substring0 (pre ++ rest) (String.length pre) = pre.
Proof.
  unfold substring0. induction pre as [|x pre IH]; simpl.
  - destruct rest; reflexivity.
  - now rewrite IH.
Qed.

Lemma prefix_inv (p : string) :
  forall s, String.prefix p s = true -> exists v, s = p ++ v.
Proof.
  induction p as [|x p IH]; intros s H.
  - now exists s.
  - destruct s as [|y s]; simpl in H; [discriminate|].
    destruct (Ascii.ascii_dec x y) as [->|]; [|discriminate].
    apply IH in H. destruct H as [v ->]. now exists v.
Qed.

Lemma includes_inv (sub : string) :
  forall s, includes s sub = true -> exists u v, s = u ++ sub ++ v.
Proof.
  induction s as [|x s IH]; intro H.
  - simpl in H. rewrite orb_false_r in H.
    destruct sub; [now exists EmptyString, EmptyString | discriminate H].
  - change (includes (String x s) sub)
      with (String.prefix sub (String x s) || includes s sub) in H.
    apply orb_true_iff in H. destruct H as [H|H].
    + apply prefix_inv in H. destruct H as [v ->]. now exists EmptyString, v.
    + apply IH in H. destruct H as [u [v ->]]. now exists (String x u), v.
Qed.

Lemma includes_factor (a b c : string) : includes (a ++ b ++ c) b = true.
Proof. apply includes_app_r, includes_app_l, includes_refl. Qed.

Lemma includes_within (a x b sub : string) :
  includes x sub = true -> includes (a ++ x ++ b) sub = true.
Proof. intro H. now apply includes_app_r, includes_app_l. Qed.

(** *** trim *)

Lemma trimStart_split (l : list ascii) :
  exists sp, l = (sp ++ trimStart_l l)%list.
Proof.
  induction l as [|x l [sp IH]]; [now exists []|]. simpl.
  destruct (is_space x).
  - exists (x :: sp). simpl. now rewrite <- IH.
  - now exists [].
Qed.

Lemma trimStart_app (a l : list ascii) (x : ascii) :
  is_space x = false ->
  trimStart_l (a ++ x :: l) = (trimStart_l a ++ x :: l)%list.
Proof.
  intro Hx. induction a as [|y a IH]; simpl.
  - now rewrite Hx.
  - destruct (is_space y); [exact IH | reflexivity].
Qed.

Lemma trimStart_Forall (P : ascii -> Prop) (l : list ascii) :
  Forall P l -> Forall P (trimStart_l l).
Proof.
  induction 1 as [|x l Hx Hl IH]; simpl; [constructor|].
  destruct (is_space x); [exact IH | now constructor].
Qed.

(** The trimmed text is a factor of the text. *)
Lemma trim_factor (s : string) : exists a b, s = a ++ trim s ++ b.
Proof.
  unfold trim. set (l := list_ascii_of_string s).
  destruct (trimStart_split l) as [sp1 E1].
  destruct (trimStart_split (rev (trimStart_l l))) as [sp2 E2].
  exists (string_of_list_ascii sp1), (string_of_list_ascii (rev sp2)).
  rewrite <- !string_of_app.
  rewrite <- (string_of_list_ascii_of_string s). fold l.
  rewrite E1 at 1. f_equal. f_equal.
  rewrite <- rev_app_distr, <- E2. now rewrite rev_involutive.
Qed.

Lemma alpha_not_space (z : ascii) : is_alpha z = true -> is_space z = false.
Proof.
  destruct z as [[] [] [] [] [] [] [] []]; vm_compute; intro H;
    first [reflexivity | discriminate H].
Qed.

(** Trimming a captured file name only removes spaces from its stem. *)
Lemma trim_name (a l : list ascii) :
  l <> [] -> Forall (fun x => is_alpha x = true) l ->
  trim (string_of_list_ascii (a ++ "."%char :: l))
  = string_of_list_ascii (trimStart_l a) ++ "." ++ string_of_list_ascii l.
Proof.
  intros Hne Hl. unfold trim.
  rewrite list_ascii_of_string_of_list_ascii.
  rewrite trimStart_app by reflexivity.
  destruct (exists_last Hne) as [l' [z ->]].
  assert (Hz : is_space z = false).
  { apply alpha_not_space. apply Forall_app in Hl. destruct Hl as [_ Hl].
    now inversion Hl. }
  replace (trimStart_l a ++ "."%char :: l' ++ [z])%list
    with ((trimStart_l a ++ "."%char :: l') ++ [z])%list
    by (rewrite <- app_assoc; reflexivity).
  rewrite rev_app_distr. simpl rev at 1. cbn [app trimStart_l]. rewrite Hz.
  change (z :: rev (trimStart_l a ++ "."%char :: l'))
    with (rev [z] ++ rev (trimStart_l a ++ "."%char :: l'))%list.
  rewrite <- rev_app_distr, rev_involutive, <- app_assoc.
  rewrite string_of_app. reflexivity.
Qed.

(** *** The names extractFileName reads from a comment *)

Lemma pattern_capture (X Y : re) (ex comment : string) (mt : rmatch) :
  (forall t n, matches X t n -> n = []) ->
  (forall t n, matches Y t n -> n = []) ->
  exec (seq [X; Y; fileNameTail ex]) comment = Some mt ->
  name_shape ex (cap_get 1 (m_caps mt)).
Proof.
  intros HX HY H. apply exec_sound in H. destruct H as [pre [post [_ [_ M]]]].
  cbn [seq] in M.
  apply matches_Seq in M. destruct M as [t1 [t2 [n1 [n2 [_ [En [M1 M2]]]]]]].
  apply matches_Seq in M2. destruct M2 as [t3 [t4 [n3 [n4 [_ [-> [M3 M4]]]]]]].
  apply HX in M1. apply HY in M3. subst n1 n3.
  apply matches_fileNameTail in M4. destruct M4 as [Hs ->].
  rewrite En. simpl. exact Hs.
Qed.

Lemma first_pattern_shape (comment name : string) :
  first_pattern patterns comment = Some name ->
  exists ex t,
    (ex = String "/" nl \/ ex = String "-" nl) /\ name_shape ex t /\
    name = trim (string_of_list_ascii t).
Proof.
  assert (Hlit : forall s t n, matches (lit s) t n -> n = [])
    by (intros s t n H; now apply matches_lit in H).
  assert (Hsp : forall t n, matches (star space) t n -> n = [])
    by (intros t n H; now apply matches_star_Chr in H).
  unfold patterns. cbn [first_pattern]. intro H.
  destruct (exec _ comment) as [mt|] eqn:E1.
  { injection H as <-. exists (String "/" nl), (cap_get 1 (m_caps mt)).
    split; [now left|]. split; [|reflexivity].
    exact (pattern_capture _ _ _ _ _ (Hlit _) Hsp E1). }
  destruct (exec _ comment) as [mt|] eqn:E2 in H.
  { injection H as <-. exists (String "/" nl), (cap_get 1 (m_caps mt)).
    split; [now left|]. split; [|reflexivity].
    exact (pattern_capture _ _ _ _ _ (Hlit _) Hsp E2). }
  destruct (exec _ comment) as [mt|] eqn:E3 in H; [|discriminate].
  injection H as <-. exists (String "-" nl), (cap_get 1 (m_caps mt)).
  split; [now right|]. split; [|reflexivity].
  exact (pattern_capture _ _ _ _ _ (Hlit _) Hsp E3).
Qed.

(** X18. A name that extractFileName reads from a comment before the block
    is a stem without line feed, a dot and one or more letters; it is
    never empty, so the content rules of processCode are not consulted
    for that block, whatever the block holds. *)
Theorem comment_name_shape (comment code name : string) (index : nat) :
  first_pattern patterns comment = Some name ->
  extractFileName comment code = name /\
  resolve_name comment code index = Some name /\
  exists stem ext,
    name = stem ++ "." ++ ext /\ truthy ext = true /\
    Forall (fun x => is_alpha x = true) (list_ascii_of_string ext) /\
    ~ In nl_char (list_ascii_of_string stem).
Proof.
  intro H.
  assert (Hx : extractFileName comment code = name)
    by (unfold extractFileName; now rewrite H).
  destruct (first_pattern_shape _ _ H) as [ex [t [Hex [[a [l [-> [Ha [Hl [Fa Fl]]]]]] ->]]]].
  rewrite (trim_name a l Hl Fl) in *.
  split; [exact Hx|]. split.
  { unfold resolve_name. rewrite Hx.
    destruct (string_of_list_ascii (trimStart_l a)); reflexivity. }
  exists (string_of_list_ascii (trimStart_l a)), (string_of_list_ascii l).
  split; [reflexivity|]. split; [|split].
  - destruct l; [congruence | reflexivity].
  - now rewrite list_ascii_of_string_of_list_ascii.
  - rewrite list_ascii_of_string_of_list_ascii. intro Hin.
    apply (trimStart_Forall _ _) in Fa.
    rewrite Forall_forall in Fa. specialize (Fa _ Hin). cbv beta in Fa.
    destruct Hex as [-> | ->]; vm_compute in Fa; discriminate Fa.
Qed.

Lemma comment_name_shape_witness :
  extractFileName ("// styles.css" ++ nl) "import React from 'react';" = "styles.css" /\
  resolve_name ("// styles.css" ++ nl) "import React from 'react';" 0 = Some "styles.css".
Proof.
  destruct (comment_name_shape ("// styles.css" ++ nl) "import React from 'react';"
              "styles.css" 0) as [H1 [H2 _]].
  - vm_compute. reflexivity.
  - split; [exact H1 | exact H2].
Defined.

(** *** The anatomy of a fenced block *)

Definition fence : list ascii := list_ascii_of_string "```".

Lemma m_Seq_sound a b prev s c k res :
  m (Seq a b) prev s c k = Some res ->
  exists t1 s1 p1 n1,
    s = (t1 ++ s1)%list /\ matches a t1 n1 /\ m b p1 s1 (n1 ++ c)%list k = Some res.
Proof. intro H. exact (m_sound a prev s c (fun p s c => m b p s c k) res H). Qed.

Lemma fence_matches p rest c k :
  m (lit "```") p (fence ++ rest)%list c k = k (Some "`"%char) rest c.
Proof. reflexivity. Qed.

Lemma matches_opt_tag t n :
  matches (opt (plus word)) t n -> Forall (fun x => is_word x = true) t /\ n = [].
Proof.
  unfold opt. intro H. inversion H; subst.
  - match goal with M : matches (plus word) _ _ |- _ =>
      apply matches_plus_Chr in M; destruct M as [_ [F ->]] end.
    now split.
  - match goal with M : matches Eps _ _ |- _ => inversion M; subst end.
    now split.
Qed.

Lemma codeBlock_attempt prev s txt c s' :
  match_here codeBlockRegex prev s = Some (txt, c, s') ->
  exists tag content,
    txt = (fence ++ tag ++ nl_char :: content ++ fence)%list /\
    Forall (fun x => is_word x = true) tag /\
    cap_get 1 c = content /\
    forall u v, content <> (u ++ fence ++ v)%list.
Proof.
  intro H. pose proof (match_here_sound _ _ _ _ _ _ H) as [Es _].
  unfold match_here in H.
  destruct (m codeBlockRegex prev s [] (fun p' s' c' => Some (p', s', c')))
    as [[[p0 s0] c0]|] eqn:E; [|discriminate].
  injection H as _ <- <-.
  unfold codeBlockRegex in E. cbn [seq] in E.
  apply m_Seq_sound in E. destruct E as [t1 [s1 [p1 [n1 [E1 [M1 E]]]]]].
  apply m_Seq_sound in E. destruct E as [t2 [s2 [p2 [n2 [E2 [M2 E]]]]]].
  apply m_Seq_sound in E. destruct E as [t3 [s3 [p3 [n3 [E3 [M3 E]]]]]].
  apply matches_lit in M1. destruct M1 as [-> ->].
  apply matches_opt_tag in M2. destruct M2 as [Ftag ->].
  apply matches_Chr in M3. destruct M3 as [z [-> [Hz ->]]].
  apply Ascii.eqb_eq in Hz. subst z. simpl app in E.
  change (m (Seq (Group 1 (lazy_star any)) (lit "```")) p3 s3 [] 
            (fun p' s' c' => Some (p', s', c')))
    with (m (lazy_star any) p3 s3 []
            (fun p' s1' c' =>
               m (lit "```") p' s1'
                 ((1, firstn (List.length s3 - List.length s1') s3) :: c')
                 (fun p' s' c' => Some (p', s', c')))) in E.
  apply lazy_any_first in E. destruct E as [t [s4 [p4 [E4 [Ek Hfirst]]]]].
  subst s3. rewrite firstn_app_length in Ek.
  apply m_sound in Ek. destruct Ek as [t5 [s5 [p5 [n5 [E5 [M5 Ek]]]]]].
  apply matches_lit in M5. destruct M5 as [-> ->].
  injection Ek as _ <- <-.
  exists t2, t. split; [|split; [exact Ftag | split; [reflexivity|]]].
  - subst. apply (app_inv_tail s5). rewrite <- Es. unfold fence.
    rewrite <- !app_assoc. simpl. rewrite <- !app_assoc. reflexivity.
  - intros u v ->. destruct (Hfirst u (fence ++ v)%list eq_refl) as [p Hp].
    + discriminate.
    + cbv beta in Hp. rewrite <- (app_assoc fence v s4) in Hp.
      rewrite fence_matches in Hp. discriminate Hp.
Qed.

Lemma block_in_text (code : string) (mt : rmatch) :
  In mt (detected_blocks code) ->
  exists pre tag content post,
    code = pre ++ "```" ++ tag ++ nl ++ content ++ "```" ++ post /\
    m_index mt = String.length pre /\
    capture1 mt = content /\
    Forall (fun x => is_word x = true) (list_ascii_of_string tag) /\
    includes content "```" = false.
Proof.
  unfold detected_blocks. destruct (includes code "```"); [|contradiction].
  intro H. apply matchAll_attempt in H.
  destruct H as [pre [post [prev0 [Ecode [Hi H]]]]].
  apply codeBlock_attempt in H. destruct H as [tag [content [Et [Ftag [Ec Hno]]]]].
  exists (string_of_list_ascii pre), (string_of_list_ascii tag),
         (string_of_list_ascii content), (string_of_list_ascii post).
  split; [|split; [|split; [|split]]].
  - rewrite <- (string_of_list_ascii_of_string code), Ecode, Et.
    rewrite !string_of_app. cbn [string_of_list_ascii].
    rewrite !string_of_app. change (string_of_list_ascii fence) with "```".
    rewrite !append_assoc. simpl. rewrite !append_assoc. reflexivity.
  - now rewrite length_string_of.
  - unfold capture1. now rewrite Ec.
  - now rewrite list_ascii_of_string_of_list_ascii.
  - destruct (includes (string_of_list_ascii content) "```") eqn:E; [|reflexivity].
    apply includes_inv in E. destruct E as [u [v E]].
    apply (f_equal list_ascii_of_string) in E.
    rewrite list_ascii_of_string_of_list_ascii, !list_of_app in E.
    now apply Hno in E.
Qed.

(** X19. Every block processCode detects lies in the text as a fence
    marker, a tag of word characters, a line feed, the content and the
    next fence marker; the content holds no fence marker itself, and the
    text handed to extractFileName is all of the text before the block. *)
Theorem block_anatomy (code : string) (mt : rmatch) :
  In mt (detected_blocks code) ->
  exists pre tag content post,
    code = pre ++ "```" ++ tag ++ nl ++ content ++ "```" ++ post /\
    substring0 code (m_index mt) = pre /\
    blockContent mt = trim content /\
    Forall (fun x => is_word x = true) (list_ascii_of_string tag) /\
    includes content "```" = false.
Proof.
  intro H. apply block_in_text in H.
  destruct H as [pre [tag [content [post [Ecode [Hi [Ec [Ft Hno]]]]]]]].
  exists pre, tag, content, post.
  split; [exact Ecode|]. split; [|split; [|split; assumption]].
  - rewrite Hi. rewrite Ecode at 1. apply substring0_app.
  - unfold blockContent. now rewrite Ec.
Qed.

Lemma block_anatomy_witness :
  exists pre tag content post,
    two_stylesheets = pre ++ "```" ++ tag ++ nl ++ content ++ "```" ++ post /\
    includes content "```" = false.
Proof.
  assert (Hin : exists mt, In mt (detected_blocks two_stylesheets)).
  { destruct (detected_blocks two_stylesheets) as [|mt ms] eqn:E;
      [vm_compute in E; discriminate E|].
    exists mt. now left. }
  destruct Hin as [mt Hin].
  destruct (block_anatomy two_stylesheets mt Hin)
    as [pre [tag [content [post [E [_ [_ [_ Hno]]]]]]]].
  exists pre, tag, content, post. split; [exact E | exact Hno].
Defined.

(** *** Files saved verbatim *)

Lemma classify_all_In (code : string) (a : action) :
  forall ms index,
    In a (classify_all code index ms) ->
    exists j mt, In mt ms /\ a = classify code j mt.
Proof.
  induction ms as [|mt ms IH]; intros index H; [contradiction|].
  destruct H as [<- | H].
  - exists index, mt. split; [now left | reflexivity].
  - apply IH in H. destruct H as [j [mt' [Hin ->]]].
    exists j, mt'. split; [now right | reflexivity].
Qed.

Lemma classify_Save (code : string) (index : nat) (mt : rmatch) (f c : string) :
  classify code index mt = Save f c ->
  c = blockContent mt /\ truthy c = true.
Proof.
  unfold classify. cbv zeta.
  destruct (truthy (blockContent mt)) eqn:T; cbn [negb]; [|discriminate].
  destruct (resolve_name _ _ _) as [name|]; [|discriminate].
  destruct (is_module_name name).
  - destruct (is_index_file _); discriminate.
  - intro H. injection H as _ <-. now split.
Qed.

Lemma last_saved_In (k v : string) (acts : list action) :
  last_saved k acts = Some v -> In (Save k v) acts.
Proof.
  induction acts as [|a acts IH]; [discriminate|]. cbn [last_saved].
  destruct (last_saved k acts) as [w|].
  - intro H. right. now apply IH.
  - destruct a as [|t|name content]; try discriminate.
    destruct (String.eqb name k) eqn:E; [|discriminate].
    apply String.eqb_eq in E. subst. intro H. injection H as ->. now left.
Qed.

(** X20. A file that processCode returns for a fenced text under a name
    other than a module name or index.html holds text that stands
    verbatim in the response: it is not empty and contains no fence
    marker. *)
Theorem saved_file_is_verbatim (code k v : string) :
  detected_blocks code <> [] ->
  is_module_name k = false -> k <> "index.html" ->
  Files.get (processCode code) k = Some v ->
  includes code v = true /\ truthy v = true /\ includes v "```" = false.
Proof.
  intros Hb Hm Hi Hget.
  assert (Hk : k <> "App.tsx") by (intros ->; discriminate Hm).
  destruct (detected_blocks code) as [|mt0 ms] eqn:E; [congruence|].
  rewrite (processCode_fenced code mt0 ms E) in Hget.
  rewrite ensure_html_get_other in Hget by exact Hi.
  rewrite expose_main_get_other in Hget by exact Hk.
  rewrite (fold_get_saved _ _ _ Hk) in Hget.
  destruct (last_saved k (actions code)) as [w|] eqn:L; [|discriminate Hget].
  injection Hget as ->. apply last_saved_In in L.
  unfold actions in L. apply classify_all_In in L.
  destruct L as [j [mt [Hin Hc]]]. symmetry in Hc.
  apply classify_Save in Hc. destruct Hc as [-> Ht].
  apply block_in_text in Hin.
  destruct Hin as [pre [tag [content [post [Ecode [_ [Ecap [_ Hno]]]]]]]].
  unfold blockContent in *. rewrite Ecap in *.
  destruct (trim_factor content) as [a [b Ef]].
  set (tc := trim content) in *.
  split; [|split; [exact Ht|]].
  - rewrite Ecode, Ef.
    do 4 apply includes_app_r. apply includes_app_l. apply includes_factor.
  - destruct (includes tc "```") eqn:Ei; [|reflexivity].
    rewrite Ef in Hno. rewrite (includes_within a _ b _ Ei) in Hno.
    discriminate Hno.
Qed.

Lemma saved_file_is_verbatim_witness :
  includes two_stylesheets "body { color: red; }" = true /\
  includes "body { color: red; }" "```" = false.
Proof.
  destruct (saved_file_is_verbatim two_stylesheets "styles.css" "body { color: red; }")
    as [H1 [_ H2]].
  - vm_compute. discriminate.
  - reflexivity.
  - discriminate.
  - vm_compute. reflexivity.
  - split; [exact H1 | exact H2].
Defined.

(** *** A link in the prose names the blocks after it *)

(** C9 (the code at the failing input). A reply that mentions a link in
    its prose and then gives two components, each of which on its own is
    merged into App.tsx: no block is merged; both are stored under the
    name read from the link, the second replacing the first. The file set
    has neither App.tsx nor index.html, and the header component is in
    none of its files. *)
Theorem modules_after_link_are_not_merged :
  List.length (detected_blocks link_then_two_components) = 2 /\
  List.length (module_texts header_block) = 1 /\
  List.length (module_texts app_block) = 1 /\
  module_texts link_then_two_components = [] /\
  actions link_then_two_components
    = [Save "react.dev" header_text; Save "react.dev" app_text] /\
  processCode link_then_two_components = [("react.dev", app_text)] /\
  includes app_text "Header()" = false.
Proof. repeat split; vm_compute; reflexivity. Qed.

End BlockFacts.

(* ================================================================== *)
(** * Properties of the endpoint *)
(* ================================================================== *)

Module EndpointFacts.
Import JsString Json Orchestrator Scenarios Endpoint EndpointScenarios.
Import OrchestratorFacts PreviewFacts PreviewMore.

Lemma accepted_inv (body : json) :
  accepted body = true ->
  exists prompt projectId,
    getprop body "prompt" = Ok prompt /\ getprop body "projectId" = Ok projectId /\
    truthy_val prompt = true /\ prompt_converts prompt = true.
Proof.
  unfold accepted. destruct body as [|b|q|s|l|kv]; simpl; try discriminate;
    intro H; apply andb_true_iff in H; destruct H as [H1 H2]; try discriminate.
  now exists (lookup kv "prompt"), (lookup kv "projectId").
Qed.

(** The handler on an accepted body, by the outcome of generate. *)
Lemma handle_accepted (o : orchestrator) (cfg : config) (w : world) (h : host)
      (body : json) :
  accepted body = true ->
  exists projectId,
    getprop body "projectId" = Ok projectId /\
    handle o cfg w h body
    = match snd (generate o w) with
      | Throw e => (fst (generate o w), [], ServerError generation_failed e)
      | Ok result =>
          if truthy (r_code result) then
            match deploy cfg (fs h) (r_code result) (deploymentId h) with
            | Throw e =>
                (fst (generate o w),
                 [EfDeploy (r_code result) (deploymentId h) (Throw e)],
                 ServerError generation_failed e)
            | Ok url =>
                (fst (generate o w),
                 EfDeploy (r_code result) (deploymentId h) (Ok url)
                   :: fst (run_db h (db_calls projectId)),
                 match snd (run_db h (db_calls projectId)) with
                 | Some message => ServerError generation_failed (Error message)
                 | None => Success result (Some url)
                 end)
            end
          else (fst (generate o w), [], Success result None)
      end.
Proof.
  intro H. destruct (accepted_inv body H) as [prompt [projectId [Ep [Ei [Ht Hc]]]]].
  exists projectId. split; [exact Ei|].
  unfold handle. rewrite Ep, Ei, Ht, Hc. cbn [negb].
  destruct (generate o w) as [events [result|e]]; cbn [fst snd]; [|reflexivity].
  destruct (truthy (r_code result)); [|reflexivity].
  destruct (deploy cfg (fs h) (r_code result) (deploymentId h)) as [url|e];
    [|reflexivity].
  destruct (run_db h (db_calls projectId)) as [writes failure]. reflexivity.
Qed.

Lemma run_db_all_succeed (h : host) (calls : list db_call) :
  snd (run_db h calls) = None ->
  fst (run_db h calls) = map (fun c => EfDb c None) calls /\
  forall c, In c calls -> db h c = None.
Proof.
  induction calls as [|c calls IH]; cbn [run_db].
  - intros _. split; [reflexivity | intros c []].
  - destruct (db h c) as [message|] eqn:E; [discriminate|].
    destruct (run_db h calls) as [effects failure]. cbn [fst snd] in *.
    intro H. destruct (IH H) as [-> Hall]. split; [reflexivity|].
    intros c' [<- | Hin]; [exact E | now apply Hall].
Qed.

(** X21. Before generate is called the handler checks the prompt only: a
    body without a truthy prompt is answered with status 400, a truthy
    prompt that is neither text nor a list (a number, true, an object)
    with status 500; in both cases no model is called, nothing is
    deployed and nothing is stored. *)
Theorem prompt_gate (o : orchestrator) (cfg : config) (w : world) (h : host)
        (kv : list (string * json)) :
  (truthy_val (lookup kv "prompt") = false ->
   handle o cfg w h (JObj kv) = ([], [], BadRequest "Prompt is required")) /\
  (truthy_val (lookup kv "prompt") = true ->
   prompt_converts (lookup kv "prompt") = false ->
   handle o cfg w h (JObj kv) = ([], [], ServerError generation_failed TypeError)).
Proof.
  split.
  - intro H. unfold handle. cbn [getprop]. now rewrite H.
  - intros H1 H2. unfold handle. cbn [getprop]. now rewrite H1, H2.
Qed.

Lemma prompt_gate_witness :
  handle o_openai cfg_default w_scores_only host_ok (JObj [("projectId", JStr "p1")])
    = ([], [], BadRequest "Prompt is required") /\
  handle o_openai cfg_default w_scores_only host_ok body_number
    = ([], [], ServerError generation_failed TypeError).
Proof.
  split.
  - apply (proj1 (prompt_gate o_openai cfg_default w_scores_only host_ok
                    [("projectId", JStr "p1")])). reflexivity.
  - apply (proj2 (prompt_gate o_openai cfg_default w_scores_only host_ok
                    [("prompt", JNum (7 # 1))])); reflexivity.
Defined.

(** X22. When the generation call of every enabled adapter fails, the
    endpoint answers an accepted request with status 500 and the message
    of the error generate ended in (the no-models error once the analysis
    log has passed); nothing is deployed and nothing is stored. *)
Theorem failed_generation_is_reported (o : orchestrator) (cfg : config)
        (w : world) (h : host) (body : json) :
  accepted body = true ->
  (forall a, enabled o a = true -> exists e, generation o w a = Throw e) ->
  exists e,
    handle o cfg w h body = (fst (generate o w), [], ServerError generation_failed e) /\
    snd (generate o w) = Throw e /\
    (log_analysis (fst (analyze (analysis_reply w)))
                  (snd (analyze (analysis_reply w))) = Ok tt ->
     e = no_models).
Proof.
  intros Ha Hfail.
  destruct (no_result_without_submissions o w Hfail) as [e He].
  exists e. destruct (handle_accepted o cfg w h body Ha) as [projectId [_ Hh]].
  rewrite He in Hh. split; [exact Hh|]. split; [exact He|].
  intro Hlog. pose proof (no_models_when_fan_out_is_reached o w Hlog Hfail) as Hn.
  congruence.
Qed.

Lemma failed_generation_is_reported_witness :
  exists e,
    handle o_two cfg_default w_all_down host_ok body_todo
      = (fst (generate o_two w_all_down), [], ServerError generation_failed e) /\
    e = no_models.
Proof.
  destruct (failed_generation_is_reported o_two cfg_default w_all_down host_ok body_todo)
    as [e [H1 [_ H3]]].
  - reflexivity.
  - intros a _. destruct a; now eexists.
  - exists e. split; [exact H1 | apply H3; reflexivity].
Defined.

(** X23. A response with status 200 carries the result of generate. Its
    preview URL is null exactly when the winning code is empty, and then
    nothing was deployed or stored; otherwise the code was deployed under
    the URL sent, and the generation record (with a project id also the
    two chat messages and the project update) was written without
    error. *)
Theorem success_response (o : orchestrator) (cfg : config) (w : world)
        (h : host) (body : json) (effects : list effect) (events : list event)
        (r : result) (url : option string) :
  handle o cfg w h body = (events, effects, Success r url) ->
  events = fst (generate o w) /\ snd (generate o w) = Ok r /\
  ((r_code r = EmptyString /\ url = None /\ effects = []) \/
   (exists projectId,
      getprop body "projectId" = Ok projectId /\
      truthy (r_code r) = true /\ fs h = None /\
      url = Some (previewUrl cfg (deploymentId h)) /\
      effects = EfDeploy (r_code r) (deploymentId h) (Ok (previewUrl cfg (deploymentId h)))
                  :: map (fun c => EfDb c None) (db_calls projectId) /\
      forall c, In c (db_calls projectId) -> db h c = None)).
Proof.
  intro H.
  assert (Ha : accepted body = true).
  { unfold accepted. unfold handle in H.
    destruct (getprop body "prompt") as [prompt|e]; [|discriminate H].
    destruct (getprop body "projectId") as [projectId|e]; [|discriminate H].
    destruct (truthy_val prompt); [|discriminate H].
    destruct (prompt_converts prompt); [reflexivity | discriminate H]. }
  destruct (handle_accepted o cfg w h body Ha) as [projectId [Ei Hh]].
  rewrite Hh in H. clear Hh.
  destruct (snd (generate o w)) as [result|e]; [|discriminate H].
  destruct (truthy (r_code result)) eqn:Ht.
  - unfold deploy in H. destruct (fs h) as [message|] eqn:Efs; [discriminate H|].
    destruct (snd (run_db h (db_calls projectId))) as [message|] eqn:Edb;
      [discriminate H|].
    injection H as <- <- <- <-.
    destruct (run_db_all_succeed h _ Edb) as [Ew Hall].
    split; [reflexivity|]. split; [reflexivity|]. right.
    exists projectId. split; [exact Ei|]. split; [exact Ht|].
    split; [reflexivity|]. split; [reflexivity|]. split; [|exact Hall].
    f_equal. exact Ew.
  - injection H as <- <- <- <-.
    split; [reflexivity|]. split; [reflexivity|]. left.
    destruct (r_code result); [now repeat split | discriminate Ht].
Qed.

Lemma success_response_witness :
  exists r, snd (generate o_openai w_empty_reply) = Ok r /\ r_code r = EmptyString.
Proof.
  assert (E : exists r,
             handle o_openai cfg_default w_empty_reply host_ok body_todo
             = (fst (generate o_openai w_empty_reply), [], Success r None))
    by (eexists; reflexivity).
  destruct E as [r Eh]. exists r.
  destruct (success_response _ _ _ _ _ _ _ _ _ Eh)
    as [_ [Hg [[Hc _] | [p [_ [_ [_ [Hu _]]]]]]]].
  - split; assumption.
  - discriminate Hu.
Defined.

(** X24. When generate returned code that is not empty and a file system
    operation of deploy fails, the endpoint answers with status 500 and
    the Deployment failed message; the result of generate is not sent
    and no database call is made. *)
Theorem deployment_failure_is_reported (o : orchestrator) (cfg : config)
        (w : world) (h : host) (body : json) (r : result) (message : string) :
  accepted body = true ->
  snd (generate o w) = Ok r -> truthy (r_code r) = true ->
  fs h = Some message ->
  handle o cfg w h body
  = (fst (generate o w),
     [EfDeploy (r_code r) (deploymentId h)
               (Throw (Error ("Deployment failed: " ++ message)))],
     ServerError generation_failed (Error ("Deployment failed: " ++ message))).
Proof.
  intros Ha Hg Ht Hfs.
  destruct (handle_accepted o cfg w h body Ha) as [projectId [_ Hh]].
  rewrite Hh, Hg, Ht. unfold deploy. rewrite Hfs. reflexivity.
Qed.

Lemma deployment_failure_is_reported_witness :
  snd (handle o_two cfg_default w_scores_only host_disk_full body_todo)
  = ServerError generation_failed
      (Error "Deployment failed: ENOSPC: no space left on device").
Proof.
  assert (E : exists r, snd (generate o_two w_scores_only) = Ok r /\
                        truthy (r_code r) = true)
    by (eexists; split; reflexivity).
  destruct E as [r [Eg Et]].
  rewrite (deployment_failure_is_reported o_two cfg_default w_scores_only
             host_disk_full body_todo r "ENOSPC: no space left on device"
             eq_refl Eg Et eq_refl).
  reflexivity.
Defined.

(** X25. A database call that rejects turns an otherwise complete request
    into status 500, although the deployment stays in place: the calls
    after the rejected one are not made. *)
Theorem database_failure_after_deploy (o : orchestrator) (cfg : config)
        (w : world) (h : host) (body : json) (r : result) (message : string) :
  accepted body = true ->
  snd (generate o w) = Ok r -> truthy (r_code r) = true ->
  fs h = None -> db h GenerationCreate = Some message ->
  handle o cfg w h body
  = (fst (generate o w),
     [EfDeploy (r_code r) (deploymentId h) (Ok (previewUrl cfg (deploymentId h)));
      EfDb GenerationCreate (Some message)],
     ServerError generation_failed (Error message)).
Proof.
  intros Ha Hg Ht Hfs Hdb.
  destruct (handle_accepted o cfg w h body Ha) as [projectId [_ Hh]].
  rewrite Hh, Hg, Ht. unfold deploy. rewrite Hfs.
  unfold db_calls. cbn [run_db]. rewrite Hdb. reflexivity.
Qed.

Lemma database_failure_after_deploy_witness :
  snd (handle o_two cfg_default w_scores_only host_db_down body_todo)
  = ServerError generation_failed (Error "Can't reach database server").
Proof.
  assert (E : exists r, snd (generate o_two w_scores_only) = Ok r /\
                        truthy (r_code r) = true)
    by (eexists; split; reflexivity).
  destruct E as [r [Eg Et]].
  rewrite (database_failure_after_deploy o_two cfg_default w_scores_only
             host_db_down body_todo r "Can't reach database server"
             eq_refl Eg Et eq_refl eq_refl).
  reflexivity.
Defined.

(** *** The preview URL *)

(** X26. Whatever the environment holds, the URL deploy returns on success
    ends with or contains the deployment identifier; unless
    USE_PATH_BASED_PREVIEWS is the text true, it is the app- subdomain of
    the staging domain. *)
Theorem preview_url_names_deployment (env : string -> option string)
        (code id : string) :
  exists url,
    deploy (configure env) None code id = Ok url /\
    includes url id = true /\
    (env "USE_PATH_BASED_PREVIEWS" <> Some "true" ->
     url = "http://app-" ++ id ++ "." ++ baseUrl (configure env)).
Proof.
  exists (previewUrl (configure env) id). split; [reflexivity|]. split.
  - unfold previewUrl. destruct (usePathBased (configure env)).
    + apply includes_app_r, includes_app_r, includes_refl.
    + unfold subdomain. apply includes_app_r. rewrite append_assoc.
      apply includes_app_r, includes_app_l, includes_refl.
  - intro H. unfold previewUrl, configure. cbn [usePathBased baseUrl].
    destruct (env "USE_PATH_BASED_PREVIEWS") as [v|] eqn:E.
    + destruct (String.eqb v "true") eqn:Ev.
      * apply String.eqb_eq in Ev. subst. now destruct H.
      * unfold subdomain. now rewrite append_assoc.
    + unfold subdomain. now rewrite append_assoc.
Qed.

Lemma preview_url_names_deployment_witness :
  deploy (configure (fun _ => None)) None "<p>hi</p>" "1a2b3c4d"
    = Ok "http://app-1a2b3c4d.staging.yourdomain.com" /\
  deploy (configure env_path_based) None "<p>hi</p>" "1a2b3c4d"
    = Ok "http://localhost/preview/1a2b3c4d".
Proof.
  destruct (preview_url_names_deployment (fun _ => None) "<p>hi</p>" "1a2b3c4d")
    as [url [H1 [_ H3]]].
  split; [|reflexivity]. rewrite H1, H3; [reflexivity | discriminate].
Defined.

End EndpointFacts.

(* ================================================================== *)
(** * The deployment directory *)
(* ================================================================== *)

Module DeployFacts.
Import JsString Json PreviewDeployment Endpoint EndpointScenarios.
Import MorePreview Disk Deploy DeployScenarios FilesFacts PreviewFacts.

(** *** The order of the writes *)

Lemma mem_string_In (k : string) (l : list string) :
  mem_string k l = true <-> In k l.
Proof.
  unfold mem_string. rewrite existsb_exists. split.
  - intros [x [Hx E]]. apply String.eqb_eq in E. now subst.
  - intro H. exists k. split; [exact H | apply String.eqb_refl].
Qed.

Lemma dedup_strings_In (k : string) (l : list string) :
  In k (dedup_strings l) <-> In k l.
Proof.
  induction l as [|x l IH]; simpl; [tauto|].
  rewrite filter_In, IH. split.
  - intros [H | [H _]]; auto.
  - intros [H | H]; auto.
    destruct (String.eqb x k) eqn:E.
    + left. now apply String.eqb_eq.
    + right. split; [exact H | reflexivity].
Qed.

Lemma dedup_strings_NoDup (l : list string) : NoDup (dedup_strings l).
Proof.
  induction l as [|x l IH]; simpl; constructor.
  - rewrite filter_In. intros [_ H]. cbv beta in H.
    now rewrite String.eqb_refl in H.
  - now apply NoDup_filter.
Qed.

Lemma get_In (files : Files.t) (k v : string) :
  Files.get files k = Some v -> In (k, v) files.
Proof.
  induction files as [|[k' v'] files IH]; simpl; [discriminate|].
  destruct (String.eqb k' k) eqn:E.
  - apply String.eqb_eq in E. intro H. injection H as ->. subst. now left.
  - intro H. right. now apply IH.
Qed.

Lemma In_get (files : Files.t) (k v : string) :
  NoDup (Files.keys files) -> In (k, v) files -> Files.get files k = Some v.
Proof.
  induction files as [|[k' v'] files IH]; simpl; [intros _ []|].
  intros Hnd [H | H].
  - injection H as -> ->. now rewrite String.eqb_refl.
  - inversion Hnd as [|? ? Hnot Hnd']; subst.
    destruct (String.eqb k' k) eqn:E.
    + apply String.eqb_eq in E. subst. exfalso. apply Hnot.
      change (Files.keys files) with (map fst files).
      apply in_map_iff. now exists (k, v).
    + now apply IH.
Qed.

Lemma picked_In (files : Files.t) (l : list string) (k v : string) :
  In (k, v) (flat_map (fun k => match Files.get files k with
                                | Some v => [(k, v)]
                                | None => []
                                end) l)
  <-> In k l /\ Files.get files k = Some v.
Proof.
  rewrite in_flat_map. split.
  - intros [x [Hx H]]. destruct (Files.get files x) as [w|] eqn:E; [|contradiction].
    destruct H as [H | []]. injection H as -> ->. now split.
  - intros [Hk E]. exists k. split; [exact Hk|]. rewrite E. now left.
Qed.

Lemma picked_NoDup (files : Files.t) (l : list string) :
  NoDup l ->
  NoDup (flat_map (fun k => match Files.get files k with
                            | Some v => [(k, v)]
                            | None => []
                            end) l).
Proof.
  induction 1 as [|x l Hx Hl IH]; simpl; [constructor|].
  destruct (Files.get files x) as [w|] eqn:E; [|exact IH].
  simpl. constructor; [|exact IH].
  intro H. apply picked_In in H. now destruct H.
Qed.

(** Whatever order the file system completes them in, the writes are
    those of the file set, each once. *)
Lemma write_order_Permutation (completion : list string) (files : Files.t) :
  NoDup (Files.keys files) ->
  Permutation (write_order completion files) files.
Proof.
  intro Hnd. apply NoDup_Permutation.
  - apply picked_NoDup, dedup_strings_NoDup.
  - change (Files.keys files) with (map fst files) in Hnd.
    now apply NoDup_map_inv in Hnd.
  - intros [k v]. unfold write_order. rewrite picked_In, dedup_strings_In. split.
    + intros [_ H]. now apply get_In.
    + intro H. split.
      * apply in_or_app. right. change (Files.keys files) with (map fst files).
        apply in_map_iff. now exists (k, v).
      * now apply In_get.
Qed.

(** *** Paths of plain names *)

Lemma norm_step_plain (stack : list string) (s : string) :
  plain s -> norm_step stack s = s :: stack.
Proof.
  intros [H1 [H2 H3]]. unfold norm_step.
  apply String.eqb_neq in H1, H2, H3. now rewrite H1, H2, H3.
Qed.

Lemma fold_norm_plain (names : list string) :
  Forall plain names ->
  forall stack, fold_left norm_step names stack = (rev names ++ stack)%list.
Proof.
  induction 1 as [|s names Hs Hn IH]; intro stack; [reflexivity|].
  simpl. rewrite (norm_step_plain _ _ Hs), IH, <- app_assoc. reflexivity.
Qed.

Lemma normalise_app_plain (segs names : list string) :
  Forall plain names ->
  normalise (segs ++ names)%list = (normalise segs ++ names)%list.
Proof.
  intro H. unfold normalise. rewrite fold_left_app, (fold_norm_plain _ H).
  now rewrite rev_app_distr, rev_involutive.
Qed.

Lemma strip_app (pre rest : path) : strip pre (pre ++ rest)%list = Some rest.
Proof.
  induction pre as [|x pre IH]; simpl; [reflexivity|].
  now rewrite String.eqb_refl.
Qed.

(** A file whose name is made of plain segments lands below the
    deployment directory under these segments, wherever that is. *)
Lemma locate_plain (cfg : config) (cwd : path) (deploymentId filePath : string) :
  truthy filePath = true -> Forall plain (segments filePath) ->
  locate cfg cwd deploymentId filePath = Some (segments filePath).
Proof.
  intros Ht Hp. unfold locate, fullPath, deploymentPath, resolve.
  assert (Hs : truthy (subdomain deploymentId) = true) by reflexivity.
  cbn [filter]. rewrite Hs, Ht.
  destruct (truthy (stagingDir cfg)); cbn [flat_map]; rewrite !app_nil_r;
    rewrite !app_assoc; rewrite (normalise_app_plain _ _ Hp); apply strip_app.
Qed.

Ltac plain_name := repeat constructor; discriminate.

Lemma locate_src_App (cfg : config) (cwd : path) (deploymentId : string) :
  locate cfg cwd deploymentId "src/App.tsx" = Some ["src"; "App.tsx"].
Proof. apply locate_plain; [reflexivity | plain_name]. Qed.

Lemma locate_index (cfg : config) (cwd : path) (deploymentId : string) :
  locate cfg cwd deploymentId "index.html" = Some ["index.html"].
Proof. apply locate_plain; [reflexivity | plain_name]. Qed.

(** *** A component given without fences *)

Lemma processCode_unfenced_module (code : string) :
  includes code "```" = false ->
  includes (trim code) "import React" || includes (trim code) "export default function" = true ->
  processCode code
  = [("src/App.tsx", trim code); ("index.html", createIndexHtml "React App")].
Proof. intros H1 H2. unfold processCode. now rewrite H1, H2. Qed.

(** X30. For a component given without fences, deploy on a new directory
    puts the module at the root as App.tsx: processCode stores it as
    src/App.tsx and buildProject copies it. The entry document and the
    synthesized manifest are at the root as well, in whatever order the
    writes complete. *)
Theorem unfenced_module_is_copied_to_root (cfg : config) (cwd : path)
        (completion : list string) (code deploymentId : string) :
  includes code "```" = false ->
  includes (trim code) "import React" || includes (trim code) "export default function" = true ->
  exists d,
    deploy_files cfg cwd [] completion code deploymentId = Some d /\
    lookup d ["App.tsx"] = Some (File (Text (trim code))) /\
    lookup d ["src"; "App.tsx"] = Some (File (Text (trim code))) /\
    lookup d ["index.html"] = Some (File (Text (createIndexHtml "React App"))) /\
    lookup d ["package.json"]
      = Some (File (JsonText (snd (createPackageJson (subdomain deploymentId))))).
Proof.
  intros H1 H2. unfold deploy_files.
  rewrite (processCode_unfenced_module code H1 H2).
  assert (Hperm : Permutation
            [("src/App.tsx", trim code); ("index.html", createIndexHtml "React App")]
            (write_order completion
               [("src/App.tsx", trim code); ("index.html", createIndexHtml "React App")])).
  { symmetry. apply write_order_Permutation.
    repeat (constructor; [simpl; intuition discriminate|]). constructor. }
  generalize dependent (trim code). intros text _ Hperm.
  generalize dependent (createIndexHtml "React App"). intros html Hperm.
  generalize (snd (createPackageJson (subdomain deploymentId))). intro manifest.
  apply Permutation_length_2_inv in Hperm. destruct Hperm as [-> | ->];
    cbn [write_all]; unfold write_entry; cbn [fst snd];
    rewrite locate_src_App, locate_index;
    eexists; (split; [vm_compute; reflexivity|]); repeat split; reflexivity.
Qed.

Lemma unfenced_module_is_copied_to_root_witness :
  exists d,
    deploy_files cfg_default cwd_api [] ["index.html"] Scenarios.bare_component "1a2b3c4d"
      = Some d /\
    map fst d = [[]; ["index.html"]; ["src"]; ["src"; "App.tsx"]; ["package.json"];
                 ["App.tsx"]] /\
    lookup d ["App.tsx"] = Some (File (Text Scenarios.bare_component)).
Proof.
  destruct (unfenced_module_is_copied_to_root cfg_default cwd_api ["index.html"]
              Scenarios.bare_component "1a2b3c4d") as [d [Hd [Ha _]]];
    [vm_compute; reflexivity | vm_compute; reflexivity |].
  exists d. split; [exact Hd|]. split; [|exact Ha].
  vm_compute in Hd. injection Hd as <-. reflexivity.
Defined.

(** *** A link in the prose names the blocks after it *)

Lemma write_order_single (completion : list string) (k v : string) :
  write_order completion [(k, v)] = [(k, v)].
Proof.
  apply Permutation_length_1_inv. symmetry. apply write_order_Permutation.
  repeat constructor. simpl. tauto.
Qed.

(** C7 (the code at the failing input). A reply that mentions a link in
    its prose and then gives one component, which on its own becomes
    App.tsx: processCode stores the component under the name read from
    the link, and after deploy on a new directory the bundle root holds
    that file, the manifest and the entry document written by
    buildProject, which loads ./App.tsx. There is no App.tsx. *)
Theorem module_after_link_is_not_App_tsx :
  option_map (map fst) (deploy_files cfg_default cwd_api [] [] app_block "1a2b3c4d")
    = Some [[]; ["App.tsx"]; ["index.html"]; ["package.json"]] /\
  map (fun mt => extractFileName (substring0 link_then_component (Regex.m_index mt))
                                 (blockContent mt))
      (detected_blocks link_then_component) = ["react.dev"] /\
  processCode link_then_component = [("react.dev", app_text)] /\
  (forall completion,
     deploy_files cfg_default cwd_api [] completion link_then_component "1a2b3c4d"
     = Some [ ([], Dir);
              (["react.dev"], File (Text app_text));
              (["package.json"],
               File (JsonText (snd (createPackageJson "app-1a2b3c4d"))));
              (["index.html"], File (Text (createIndexHtml "Generated App"))) ]) /\
  includes (createIndexHtml "Generated App") "./App.tsx" = true.
Proof.
  assert (Hp : processCode link_then_component = [("react.dev", app_text)])
    by (vm_compute; reflexivity).
  split; [vm_compute; reflexivity|]. split; [vm_compute; reflexivity|].
  split; [exact Hp|]. split; [|vm_compute; reflexivity].
  intro completion. unfold deploy_files. rewrite Hp, write_order_single.
  vm_compute. reflexivity.
Qed.

End DeployFacts.
